(** * OCI Terraform deployment orchestrator: a shallow embedding

    The development follows [scripts/oci-terraform-orchestrator-v2.py]
    (version 2.0 of the orchestrator) and, where the two variants share a
    code path, [scripts/oci-terraform-orchestrator.py] (version 1.0, in
    [Module V1]).

    Conventions of the embedding.
    - A Python [str] is a [string]: the bytes of its UTF-8 encoding.  Byte
      order on UTF-8 is code-point order, so [String.le] is Python's [<=]
      on [str]; substring, prefix and splitting at an ASCII separator act
      on the bytes as they act on the code points.  [str.split()],
      [str.strip()] and [int()] are embedded for ASCII white space and
      ASCII digits.
    - A [dict] with string keys is a [gmap string _]; indexing [d[k]] is
      [getitem], which raises [KeyError] on an absent key.
    - Exceptions are values of [exception], and a computation that may
      raise returns a [result].  The only loop that is not a [for] over a
      list, the [while] of Kahn's algorithm, runs on fuel; [NoFuel] is the
      outcome of the embedding when the fuel is spent, and is shown
      unreachable for the fuel that [topological_sort] passes.
    - Console output is kept where it is a warning of the degraded paths
      (the lines a function prints are returned next to its value);
      progress banners are left out.
    - The file system, the version-control repository, the provisioning
      tool and the clock are an environment the functions query. *)

From stdpp Require Import gmap strings pretty list sorting relations.
From Stdlib Require Import ZArith QArith Ascii.
Local Open Scope Z_scope.

(** ** Exceptions and results *)

(** An exception is kept by its class, as far as an [except] clause of the
    source tells classes apart, and its text [str(e)]. *)
Inductive exception :=
| KeyError (message : string)
| TimeoutExpired (message : string)
| GitCommandError (message : string)
| Exception (message : string).

(** [str(e)] *)
Definition str_of_exception (e : exception) : string :=
  match e with
  | KeyError message | TimeoutExpired message | GitCommandError message
  | Exception message => message
  end.

Inductive result (A : Type) :=
| Ok (a : A)
| Raise (e : exception)
| NoFuel.
Arguments Ok {A} a.
Arguments Raise {A} e.
Arguments NoFuel {A}.

Global Instance result_ret : MRet result := @Ok.
Global Instance result_bind : MBind result := λ A B f m,
  match m with
  | Ok a => f a
  | Raise e => Raise e
  | NoFuel => NoFuel
  end.

(** [d[k]] *)
Definition getitem {V} (d : gmap string V) (k : string) : result V :=
  match d !! k with
  | Some v => Ok v
  | None => Raise (KeyError ("'" +:+ k +:+ "'"))
  end.

(** [for x in items: st = body(st, x)] *)
Fixpoint for_each {A St} (body : St → A → result St) (items : list A) (st : St)
  : result St :=
  match items with
  | [] => Ok st
  | x :: rest => st' ← body st x; for_each body rest st'
  end.

(** [[x for x in items if test(x)]] *)
Fixpoint select {A} (test : A → result bool) (items : list A) : result (list A) :=
  match items with
  | [] => Ok []
  | x :: rest =>
      b ← test x;
      kept ← select test rest;
      Ok (if b : bool then x :: kept else kept)
  end.

(** [sorted(l)] on a list of [str] *)
Definition sorted (l : list string) : list string := merge_sort String.le l.

(** [', '.join(l)] *)
Definition join (sep : string) (l : list string) : string := String.concat sep l.

(** ** Dependency ordering *)

(** [SERVICE_DEPENDENCIES], lines 48-81. *)
Definition SERVICE_DEPENDENCIES : gmap string (list string) :=
  list_to_map
    [ ("identity", []);
      ("kms", []);
      ("network", ["identity"]);
      ("dns", ["identity"]);
      ("compute", ["network"; "identity"]);
      ("oke", ["network"; "identity"]);
      ("database", ["network"; "identity"]);
      ("managementservices", ["network"; "identity"]);
      ("loadbalancer", ["network"; "identity"]);
      ("firewall", ["network"; "identity"]);
      ("nsg", ["network"; "identity"]);
      ("fss", ["network"; "identity"]);
      ("oss", ["identity"]);
      ("security", ["identity"]);
      ("tagging", ["identity"]);
      ("quota", ["identity"]);
      ("budget", ["identity"]);
      ("vlan", ["network"; "identity"]);
      ("ocvs", ["network"; "identity"]) ].

Definition no_zero_warning : string :=
  "⚠️  Warning: No services with zero dependencies. Using provided order.".

Definition cycle_warning (remaining : list string) : list string :=
  [ "⚠️  Warning: Circular dependency detected for: " +:+ join ", " remaining;
    "   These services will be executed last in alphabetical order" ].

(** [topological_sort], lines 94-146.  The function reads the module-level
    dependency table; the embedding takes the table as its first argument,
    and the function of the source is [topological_sort SERVICE_DEPENDENCIES]. *)
Section topological_sort.
Variable table : gmap string (list string).

(** [SERVICE_DEPENDENCIES.get(service, [])] *)
Definition prerequisites (service : string) : list string :=
  default [] (table !! service).

(** lines 105-107 *)
Definition init_graph (services : list string) : gmap string (list string) :=
  foldl (λ graph service, <[service := []]> graph) ∅ services.
Definition init_in_degree (services : list string) : gmap string Z :=
  foldl (λ in_degree service, <[service := 0]> in_degree) ∅ services.

(** lines 113-115 *)
Definition add_edge (services : list string) (service : string)
    (st : gmap string (list string) * gmap string Z) (dep : string)
  : result (gmap string (list string) * gmap string Z) :=
  let '(graph, in_degree) := st in
  if bool_decide (dep ∈ services) then
    dependents ← getitem graph dep;
    let graph := <[dep := dependents ++ [service]]> graph in
    n ← getitem in_degree service;
    Ok (graph, <[service := n + 1]> in_degree)
  else Ok st.

(** lines 110-115 *)
Definition add_edges (services : list string)
    (st : gmap string (list string) * gmap string Z) (service : string) :=
  for_each (add_edge services service) (prerequisites service) st.

Definition build_graph (services : list string) :=
  for_each (add_edges services) services
    (init_graph services, init_in_degree services).

(** lines 132-134 *)
Definition relax (st : gmap string Z * list string) (dependent : string)
  : result (gmap string Z * list string) :=
  let '(in_degree, next_level) := st in
  n ← getitem in_degree dependent;
  let in_degree := <[dependent := n - 1]> in_degree in
  Ok (in_degree,
      if n - 1 =? 0 then next_level ++ [dependent] else next_level).

(** lines 130-134 *)
Definition visit (graph : gmap string (list string))
    (st : gmap string Z * list string) (service : string) :=
  dependents ← getitem graph service;
  for_each relax dependents st.

(** lines 126-136 *)
Fixpoint kahn_levels (fuel : nat) (graph : gmap string (list string))
    (in_degree : gmap string Z) (current_level : list string)
    (levels : list (list string))
  : result (list (list string) * gmap string Z) :=
  match current_level with
  | [] => Ok (levels, in_degree)
  | _ :: _ =>
      match fuel with
      | O => NoFuel
      | S fuel =>
          '(in_degree, next_level) ←
            for_each (visit graph) current_level (in_degree, []);
          kahn_levels fuel graph in_degree next_level
            (levels ++ [sorted current_level])
      end
  end.

(** The value is the pair of the lines printed and the levels returned. *)
Definition topological_sort (services : list string)
  : result (list string * list (list string)) :=
  '(graph, in_degree) ← build_graph services;
  current_level ← select (λ s, n ← getitem in_degree s; Ok (n =? 0)) services;
  match current_level with
  | [] => Ok ([no_zero_warning], (λ s, [s]) <$> services)
  | _ :: _ =>
      '(levels, in_degree) ←
        kahn_levels (length services) graph in_degree current_level [];
      let processed := sum_list (length <$> levels) in
      if bool_decide (processed ≠ length services) then
        remaining ← select (λ s, n ← getitem in_degree s; Ok (0 <? n)) services;
        Ok (cycle_warning remaining, levels ++ [sorted remaining])
      else Ok ([], levels)
  end.
End topological_sort.

(** The index of the level a service is in. *)
Fixpoint level_index (levels : list (list string)) (service : string) : option nat :=
  match levels with
  | [] => None
  | level :: rest =>
      if bool_decide (service ∈ level) then Some O
      else S <$> level_index rest service
  end.



(** ** Notions the statements about the scheduler are phrased in *)

(** The prerequisites of a service that are candidates themselves: the edges
    of the dependency table restricted to the candidate set. *)
Definition in_set_prerequisites (table : gmap string (list string))
    (services : list string) (service : string) : list string :=
  filter (.∈ services) (prerequisites table service).

(** [depends_on table services s d]: [s] and [d] are candidates and [d] is a
    prerequisite of [s]. *)
Definition depends_on (table : gmap string (list string))
    (services : list string) : relation string :=
  λ s d, s ∈ services ∧ d ∈ in_set_prerequisites table services s.

(** No candidate reaches itself along in-set edges. *)
Definition acyclic (table : gmap string (list string)) (services : list string) : Prop :=
  ∀ s, ¬ tc (depends_on table services) s s.

(** Every in-set prerequisite of a service sits in a strictly earlier level. *)
Definition respects_dependencies (table : gmap string (list string))
    (services : list string) (levels : list (list string)) : Prop :=
  ∀ s d, s ∈ services → d ∈ in_set_prerequisites table services s →
    ∃ i j, level_index levels s = Some i ∧ level_index levels d = Some j ∧ (j < i)%nat.

(** The number of times [x] occurs in [l]. *)
Definition occurrences (x : string) (l : list string) : nat :=
  length (filter (x =.) l).

(** What [graph[x]] holds once the edges are added: each candidate, in input
    order, once per occurrence of [x] among its prerequisites. *)
Definition dependents_of (table : gmap string (list string))
    (services : list string) (x : string) : list string :=
  services ≫= (λ s, replicate (occurrences x (prerequisites table s)) s).

(** The in-degree of a candidate under the restriction to in-set edges. *)
Definition in_degree_of (table : gmap string (list string))
    (services : list string) (service : string) : nat :=
  length (in_set_prerequisites table services service).

(** The state of the two dictionaries after the candidates [visited] have
    had their edges added. *)
Definition edges_added (table : gmap string (list string)) (services visited : list string)
    (st : gmap string (list string) * gmap string Z) : Prop :=
  (∀ x, x ∈ services → st.1 !! x = Some (dependents_of table visited x)) ∧
  (∀ s, s ∈ services →
     st.2 !! s = Some (Z.of_nat (occurrences s visited * in_degree_of table services s))).

(** The in-set prerequisites of a service that are not among [placed]. *)
Definition unmet (table : gmap string (list string)) (services placed : list string)
    (service : string) : list string :=
  filter (.∉ placed) (in_set_prerequisites table services service).

(** Every in-set prerequisite of a member of a level is a member of an
    earlier level. *)
Definition levels_ordered (table : gmap string (list string))
    (services : list string) (levels : list (list string)) : Prop :=
  ∀ i level s d,
    levels !! i = Some level → s ∈ level →
    d ∈ in_set_prerequisites table services s →
    ∃ j level', (j < i)%nat ∧ levels !! j = Some level' ∧ d ∈ level'.

(** The state of the level loop at the head of an iteration: the services
    placed so far are distinct candidates, each in-degree counts the in-set
    prerequisites not yet in a finished level, a candidate is placed exactly
    when it has none left, and the finished levels are ordered. *)
Record kahn_invariant (table : gmap string (list string)) (services : list string)
    (levels : list (list string)) (current_level : list string)
    (in_degree : gmap string Z) : Prop := {
  placed_distinct : NoDup (mjoin levels ++ current_level);
  placed_candidates : ∀ x, x ∈ mjoin levels ++ current_level → x ∈ services;
  in_degree_unmet : ∀ s, s ∈ services →
    in_degree !! s = Some (Z.of_nat (length (unmet table services (mjoin levels) s)));
  placed_iff_ready : ∀ s, s ∈ services →
    s ∈ mjoin levels ++ current_level ↔ unmet table services (mjoin levels) s = [];
  earlier_levels : levels_ordered table services levels
}.

(** The tier of a service in [SERVICE_DEPENDENCIES]: every prerequisite the
    table lists sits in a lower tier than the service that lists it. *)
Definition tier (service : string) : nat :=
  if decide (service = "identity") then 0
  else if decide (service = "network") then 1
  else 2.

(** A table with a cycle between [a] and [b], for the degraded paths. *)
Definition cyclic_table : gmap string (list string) :=
  list_to_map [("a", ["b"]); ("b", ["a"]); ("c", []); ("d", ["c"; "a"])].

(** The distinct candidates whose in-degree, read off [n], is still positive. *)
Definition still_blocked (services : list string) (n : string → Z) : list string :=
  filter (λ s, 0 < n s) (remove_dups services).

(** ** Strings *)

(** [s.split(sep)] for a one-character separator. *)
Fixpoint split_on (sep : ascii) (s : string) : list string :=
  match s with
  | "" => [""]
  | String c rest =>
      if decide (c = sep) then "" :: split_on sep rest
      else match split_on sep rest with
           | [] => [String c ""]
           | word :: words => String c word :: words
           end
  end.

(** [needle in s] *)
Fixpoint contains (needle s : string) : bool :=
  String.prefix needle s ||
  match s with
  | "" => false
  | String _ rest => contains needle rest
  end.

(** [s.startswith(p)] *)
Definition startswith (p s : string) : bool := String.prefix p s.

(** [s.split(needle)[0]]: the text before the first occurrence of [needle]. *)
Fixpoint str_before (needle s : string) : string :=
  if String.prefix needle s then ""
  else match s with
       | "" => ""
       | String c rest => String c (str_before needle rest)
       end.

(** [c.isspace()] on ASCII: tab to carriage return, the four separators
    0x1c-0x1f, and the space. *)
Definition isspace (c : ascii) : bool :=
  let n := N_of_ascii c in
  ((9 <=? n)%N && (n <=? 13)%N) || ((28 <=? n)%N && (n <=? 32)%N).

(** [s.split()]: the maximal runs of characters that are not white space;
    [word] is the run being read. *)
Fixpoint split_whitespace (word s : string) : list string :=
  match s with
  | "" => if decide (word = "") then [] else [word]
  | String c rest =>
      if isspace c
      then (if decide (word = "") then [] else [word]) ++ split_whitespace "" rest
      else split_whitespace (word +:+ String c "") rest
  end.
Definition words (s : string) : list string := split_whitespace "" s.

(** [s.lstrip()], [s.rstrip()], [s.strip()] *)
Fixpoint lstrip (s : string) : string :=
  match s with
  | "" => ""
  | String c rest => if isspace c then lstrip rest else s
  end.
Definition rstrip (s : string) : string := String.rev (lstrip (String.rev s)).
Definition strip (s : string) : string := rstrip (lstrip s).

(** The digits of a decimal literal as [int()] reads them: digits, with
    single underscores between digits. *)
Fixpoint int_digits (s : string) (value : Z) (after_digit : bool) : option Z :=
  match s with
  | "" => if after_digit then Some value else None
  | String c rest =>
      match Ascii.is_nat c with
      | Some d => int_digits rest (10 * value + Z.of_nat d) true
      | None =>
          if decide (c = "_"%char) then
            if after_digit then int_digits rest value false else None
          else None
      end
  end.

(** [int(s)]; [None] stands for the [ValueError].  The digits and the white
    space are those of ASCII.  The interpreter's limit on the number of
    digits (4300 by default, at least 640) is not part of the embedding:
    for a longer numeral [int] raises where [py_int] gives its value. *)
Definition py_int (s : string) : option Z :=
  match strip s with
  | String "+" rest => int_digits rest 0 false
  | String "-" rest => Z.opp <$> int_digits rest 0 false
  | digits => int_digits digits 0 false
  end.

(** [for i, x in enumerate(l): st = body(st, i, x)], counting from [i]. *)
Fixpoint fold_enumerate {A St} (body : St → nat → A → St) (i : nat) (l : list A)
    (st : St) : St :=
  match l with
  | [] => st
  | x :: rest => fold_enumerate body (S i) rest (body st i x)
  end.


(** ** Running the provisioning tool for one service *)

(** What a call into the environment comes back with. *)
Inductive outcome (A : Type) :=
| Returned (a : A)
| Raised (e : exception).
Arguments Returned {A} a.
Arguments Raised {A} e.

Definition newline : string := String "010" "".

(** [subprocess.run(cmd, cwd=cwd, capture_output=True, text=True,
    timeout=timeout)]: the call and the completed process. *)
Record call := {
  cmd : list string;
  cwd : string;
  timeout : Z
}.

Record CompletedProcess := {
  returncode : Z;
  stdout : string;
  stderr : string
}.

(** The environment of the runner.  A subprocess answers a call given the
    calls made before it; the clock is read against the same history; a
    worker pool hands back the services of a level in the order in which
    they completed. *)
Record process_environment := {
  subprocess_run : list call → call → outcome CompletedProcess;
  time_time : list call → Q;
  completion_order : list string → list string
}.

(** The dictionary [{'add': _, 'change': _, 'destroy': _}]. *)
Record summary := {
  summary_add : Z;
  summary_change : Z;
  summary_destroy : Z
}.

Definition no_changes : summary :=
  {| summary_add := 0; summary_change := 0; summary_destroy := 0 |}.

(** [try: summary[key] = int(text) except: pass] *)
Definition set_add (s : summary) (text : option string) : summary :=
  match text ≫= py_int with
  | Some n => {| summary_add := n; summary_change := summary_change s;
                 summary_destroy := summary_destroy s |}
  | None => s
  end.
Definition set_change (s : summary) (text : option string) : summary :=
  match text ≫= py_int with
  | Some n => {| summary_add := summary_add s; summary_change := n;
                 summary_destroy := summary_destroy s |}
  | None => s
  end.
Definition set_destroy (s : summary) (text : option string) : summary :=
  match text ≫= py_int with
  | Some n => {| summary_add := summary_add s; summary_change := summary_change s;
                 summary_destroy := n |}
  | None => s
  end.

(** lines 534-548: one step of [for i, part in enumerate(parts)]. *)
Definition scan_plan_part (parts : list string) (s : summary) (i : nat) (part : string)
  : summary :=
  if bool_decide (part = "add,") && bool_decide (0 < i)%nat then
    set_add s (parts !! (i - 1)%nat)
  else if bool_decide (part = "change,") && bool_decide (0 < i)%nat then
    set_change s (parts !! (i - 1)%nat)
  else if bool_decide (part = "destroy.") && bool_decide (0 < i)%nat then
    set_destroy s (parts !! (i - 1)%nat)
  else s.

(** lines 531-548 *)
Definition parse_plan_line (s : summary) (line : string) : summary :=
  if contains "Plan:" line then
    let parts := words line in
    fold_enumerate (scan_plan_part parts) 0 parts s
  else s.

(** [parse_plan_summary], lines 526-550 *)
Definition parse_plan_summary (output : string) : summary :=
  foldl parse_plan_line no_changes (split_on "010" output).

(** [line.split(word)[0].split()[-1]]; [None] stands for the [IndexError]. *)
Definition last_word_before (word line : string) : option string :=
  last (words (str_before word line)).

(** lines 558-574 *)
Definition parse_apply_line (s : summary) (line : string) : summary :=
  if contains "Apply complete!" line || contains "Destroy complete!" line then
    let s := if contains "added" line
             then set_add s (last_word_before "added" line) else s in
    let s := if contains "changed" line
             then set_change s (last_word_before "changed" line) else s in
    if contains "destroyed" line
    then set_destroy s (last_word_before "destroyed" line) else s
  else s.

(** [parse_apply_summary], lines 553-576 *)
Definition parse_apply_summary (output : string) : summary :=
  foldl parse_apply_line no_changes (split_on "010" output).

(** The result dictionary.  [retry_count] is a key of the dictionaries that
    [execute_terraform_for_service] builds and of no other. *)
Record ExecutionResult := {
  service : string;
  success : bool;
  duration : Q;
  output : string;
  error : option string;
  resources_created : Z;
  resources_changed : Z;
  resources_destroyed : Z;
  retry_count : option Z
}.

Definition with_error (r : ExecutionResult) (e : string) : ExecutionResult :=
  {| service := service r; success := success r; duration := duration r;
     output := output r; error := Some e;
     resources_created := resources_created r;
     resources_changed := resources_changed r;
     resources_destroyed := resources_destroyed r;
     retry_count := retry_count r |}.

Definition with_output (r : ExecutionResult) (o : string) : ExecutionResult :=
  {| service := service r; success := success r; duration := duration r;
     output := o; error := error r;
     resources_created := resources_created r;
     resources_changed := resources_changed r;
     resources_destroyed := resources_destroyed r;
     retry_count := retry_count r |}.

Definition with_success (r : ExecutionResult) : ExecutionResult :=
  {| service := service r; success := true; duration := duration r;
     output := output r; error := error r;
     resources_created := resources_created r;
     resources_changed := resources_changed r;
     resources_destroyed := resources_destroyed r;
     retry_count := retry_count r |}.

Definition with_duration (r : ExecutionResult) (d : Q) : ExecutionResult :=
  {| service := service r; success := success r; duration := d;
     output := output r; error := error r;
     resources_created := resources_created r;
     resources_changed := resources_changed r;
     resources_destroyed := resources_destroyed r;
     retry_count := retry_count r |}.

Definition with_resources (r : ExecutionResult) (s : summary) : ExecutionResult :=
  {| service := service r; success := success r; duration := duration r;
     output := output r; error := error r;
     resources_created := summary_add s;
     resources_changed := summary_change s;
     resources_destroyed := summary_destroy s;
     retry_count := retry_count r |}.

(** lines 351-361 *)
Definition initial_result (service_name : string) (retry : Z) : ExecutionResult :=
  {| service := service_name; success := false; duration := 0; output := "";
     error := None; resources_created := 0; resources_changed := 0;
     resources_destroyed := 0; retry_count := Some retry |}.

Definition init_call (service_dir : string) : call :=
  {| cmd := ["terraform"; "init"; "-no-color"]; cwd := service_dir; timeout := 300 |}.

(** lines 397-400 and 407 *)
Definition action_call (action service_dir : string) : call :=
  {| cmd := if bool_decide (action = "plan")
            then ["terraform"; "plan"; "-no-color"; "-detailed-exitcode"]
            else ["terraform"; "apply"; "-auto-approve"; "-no-color"];
     cwd := service_dir; timeout := 1800 |}.

(** lines 412-457: the result once the plan or apply step has completed. *)
Definition action_completed (action : string) (result : ExecutionResult)
    (tf_result : CompletedProcess) : ExecutionResult :=
  let result := with_output result (stdout tf_result) in
  if bool_decide (action = "plan") then
    let result := with_resources result (parse_plan_summary (stdout tf_result)) in
    if bool_decide (returncode tf_result = 0) || bool_decide (returncode tf_result = 2)
    then with_success result
    else
      let result :=
        with_error result
          ("Plan failed (exit code " +:+ pretty (returncode tf_result) +:+ "): "
           +:+ stderr tf_result) in
      with_output result
        (output result +:+ newline +:+ newline +:+ "STDERR:" +:+ newline
         +:+ stderr tf_result)
  else
    let result := with_resources result (parse_apply_summary (stdout tf_result)) in
    if bool_decide (returncode tf_result = 0)
    then with_success result
    else
      let result :=
        with_error result
          ("Apply failed (exit code " +:+ pretty (returncode tf_result) +:+ "): "
           +:+ stderr tf_result) in
      with_output result
        (output result +:+ newline +:+ newline +:+ "STDERR:" +:+ newline
         +:+ stderr tf_result).

(** lines 459-464: the two [except] clauses. *)
Definition on_exception (action : string) (result : ExecutionResult) (e : exception)
  : ExecutionResult :=
  match e with
  | TimeoutExpired _ =>
      with_error result ("Terraform " +:+ action +:+ " timed out after 30 minutes")
  | _ => with_error result (str_of_exception e)
  end.

(** [execute_terraform_for_service], lines 339-467.  The value is the result
    dictionary and the calls made so far. *)
Definition execute_terraform_for_service (env : process_environment)
    (service_name service_dir action region : string) (retry : Z)
    (calls : list call) : ExecutionResult * list call :=
  let start_time := time_time env calls in
  let result := initial_result service_name retry in
  let finish (result : ExecutionResult) (calls : list call) :=
    (with_duration result (time_time env calls - start_time)%Q, calls) in
  match subprocess_run env calls (init_call service_dir) with
  | Raised e => finish (on_exception action result e) (calls ++ [init_call service_dir])
  | Returned init_result =>
      let calls := calls ++ [init_call service_dir] in
      if bool_decide (returncode init_result ≠ 0) then
        let result := with_error result ("Init failed: " +:+ stderr init_result) in
        let result := with_output result (stdout init_result +:+ stderr init_result) in
        (result, calls)
      else
        match subprocess_run env calls (action_call action service_dir) with
        | Raised e =>
            finish (on_exception action result e)
                   (calls ++ [action_call action service_dir])
        | Returned tf_result =>
            finish (action_completed action result tf_result)
                   (calls ++ [action_call action service_dir])
        end
  end.

(** ** Running the levels *)

(** [str(Path(working_dir) / service_name)], for a working directory written
    as [Path] prints it (no trailing slash, no doubled slash, no [.]
    component) and a name that is one path component; for other spellings
    [Path] normalises where this concatenation does not. *)
Definition service_directory (working_dir service_name : string) : string :=
  working_dir +:+ "/" +:+ service_name.

(** [execute_services_in_parallel], lines 470-523.  The pool is embedded by
    its outcome: the services run one after the other in the order in which
    the environment reports them completed, each as one uninterrupted run.
    [execute_terraform_for_service] lets no exception out, so the handler of
    lines 510-521 is never entered.  The pool is that of a [max_workers] of
    at least 1, which bounds how many services run at a time and not what
    they return; for a smaller number the constructor of the pool raises a
    ValueError, which is not part of the embedding. *)
Definition execute_services_in_parallel (env : process_environment)
    (services : list string) (working_dir action region : string) (max_workers : Z)
    (calls : list call) : list ExecutionResult * list call :=
  match services with
  | [only] =>
      let '(result, calls) :=
        execute_terraform_for_service env only (service_directory working_dir only)
          action region 0 calls in
      ([result], calls)
  | _ =>
      foldl
        (λ '(results, calls) service_name,
           let '(result, calls) :=
             execute_terraform_for_service env service_name
               (service_directory working_dir service_name) action region 0 calls in
           (results ++ [result], calls))
        ([], calls) (completion_order env services)
  end.

(** The arguments of a run that the level loop reads. *)
Record arguments := {
  action : string;
  working_dir : string;
  region : string;
  dry_run : bool;
  parallel : bool;
  max_workers : Z
}.

(** lines 877-886 *)
Definition dry_run_result (action service_name : string) : ExecutionResult :=
  {| service := service_name; success := true; duration := 0;
     output := "[DRY-RUN] Simulated " +:+ action +:+ " for " +:+ service_name;
     error := None; resources_created := 0; resources_changed := 0;
     resources_destroyed := 0; retry_count := None |}.

(** [l[-n:]] *)
Definition last_items {A} (n : nat) (l : list A) : list A :=
  if decide (n = 0%nat) then l else drop (length l - n) l.

(** lines 873-907: the body of the loop up to the check. *)
Definition execute_level (env : process_environment) (args : arguments)
    (level_services : list string) (st : list ExecutionResult * list call)
  : list ExecutionResult * list call :=
  let '(all_results, calls) := st in
  if dry_run args then
    (all_results ++ (dry_run_result (action args) <$> level_services), calls)
  else if parallel args && bool_decide (1 < length level_services)%nat then
    let '(level_results, calls) :=
      execute_services_in_parallel env level_services (working_dir args)
        (action args) (region args) (max_workers args) calls in
    (all_results ++ level_results, calls)
  else
    foldl
      (λ '(all_results, calls) service_name,
         let '(result, calls) :=
           execute_terraform_for_service env service_name
             (service_directory (working_dir args) service_name)
             (action args) (region args) 0 calls in
         (all_results ++ [result], calls))
      (all_results, calls) level_services.

(** [main], lines 866-914: the loop over the levels, with its [break]. *)
Fixpoint execute_levels (env : process_environment) (args : arguments)
    (execution_levels : list (list string)) (st : list ExecutionResult * list call)
  : list ExecutionResult * list call :=
  match execution_levels with
  | [] => st
  | level_services :: rest =>
      let '(all_results, calls) := execute_level env args level_services st in
      let level_success :=
        forallb success (last_items (length level_services) all_results) in
      if negb level_success && negb (dry_run args) then (all_results, calls)
      else execute_levels env args rest (all_results, calls)
  end.

(** [main], lines 926-945: the exit status. *)
Definition exit_status (all_results : list ExecutionResult) : Z :=
  let success_count := length (filter (λ r, success r = true) all_results) in
  let total_count := length all_results in
  if bool_decide (success_count < total_count)%nat then 1 else 0.

(** [main], lines 848-945, from the detected services on: the lines printed
    by the scheduler, the plan, the results, the calls made and the exit
    status.  The reports written from the results are left out. *)
Definition main_from_changes (env : process_environment) (args : arguments)
    (changed_services : list string) (calls : list call)
  : result (list string * list (list string) * list ExecutionResult * list call * Z) :=
  match changed_services with
  | [] => Ok ([], [], [], calls, 0)
  | _ :: _ =>
      '(printed, execution_levels) ← topological_sort SERVICE_DEPENDENCIES changed_services;
      let '(all_results, calls) := execute_levels env args execution_levels ([], calls) in
      Ok (printed, execution_levels, all_results, calls, exit_status all_results)
  end.

(** *** Environments to run the embedding in *)

(** Every subprocess completes with the given exit status and output for the
    plan or apply step, after an init step that succeeds. *)
Definition completing (code : Z) (out err : string) : process_environment :=
  {| subprocess_run := λ _ c,
       if bool_decide (cmd c = ["terraform"; "init"; "-no-color"])
       then Returned {| returncode := 0; stdout := "Initialized"; stderr := "" |}
       else Returned {| returncode := code; stdout := out; stderr := err |};
     time_time := λ calls, inject_Z (Z.of_nat (length calls));
     completion_order := reverse |}.

(** The init step runs out of time. *)
Definition init_times_out : process_environment :=
  {| subprocess_run := λ _ c,
       if bool_decide (cmd c = ["terraform"; "init"; "-no-color"])
       then Raised (TimeoutExpired "Command timed out after 300 seconds")
       else Returned {| returncode := 0; stdout := ""; stderr := "" |};
     time_time := λ calls, inject_Z (Z.of_nat (length calls));
     completion_order := reverse |}.

(** The init step succeeds and the plan or apply step runs out of time. *)
Definition action_times_out : process_environment :=
  {| subprocess_run := λ _ c,
       if bool_decide (cmd c = ["terraform"; "init"; "-no-color"])
       then Returned {| returncode := 0; stdout := "Initialized"; stderr := "" |}
       else Raised (TimeoutExpired "Command timed out after 1800 seconds");
     time_time := λ calls, inject_Z (Z.of_nat (length calls));
     completion_order := reverse |}.

(** The tool fails in the directory of one service and succeeds elsewhere. *)
Definition failing_in (working_dir service_name : string) : process_environment :=
  {| subprocess_run := λ _ c,
       if bool_decide (cmd c = ["terraform"; "init"; "-no-color"])
       then Returned {| returncode := 0; stdout := "Initialized"; stderr := "" |}
       else if bool_decide (cwd c = service_directory working_dir service_name)
       then Returned {| returncode := 1; stdout := ""; stderr := "Error: denied" |}
       else Returned {| returncode := 0; stdout := "No changes."; stderr := "" |};
     time_time := λ calls, inject_Z (Z.of_nat (length calls));
     completion_order := reverse |}.

Definition plan_arguments (dry parallel_levels : bool) : arguments :=
  {| action := "plan"; working_dir := "toronto"; region := "ca-toronto-1";
     dry_run := dry; parallel := parallel_levels; max_workers := 3 |}.

(** [new] holds calls in the directories of services of [l] only. *)
Definition calls_for (working_dir : string) (l : list string) (new : list call) : Prop :=
  Forall (λ c, ∃ s, s ∈ l ∧ cwd c = service_directory working_dir s) new.

(** ** Change detection *)

(** The file system and the repository as change detection queries them.
    Paths are strings; [service_directory d name] is [d / name].
    [path_iterdir] and [path_glob_tf] answer with the names of the entries
    ([glob_tf]: those matching [*.tf]); [read_lines] with the lines of a
    text file as iterating over the open file yields them; [git_diff_paths]
    with [[item.a_path for item in git.Repo(os.getcwd()).head.commit.diff(ref)]]. *)
Record file_system := {
  os_path_exists : string → bool;
  read_lines : string → outcome (list string);
  git_diff_paths : string → outcome (list string);
  path_exists : string → outcome bool;
  path_is_dir : string → outcome bool;
  path_iterdir : string → outcome (list string);
  path_glob_tf : string → outcome (list string);
  path_read_text : string → outcome string
}.

(** A call into the environment inside a computation that may raise. *)
Definition call_environment {A} (o : outcome A) : result A :=
  match o with
  | Returned a => Ok a
  | Raised e => Raise e
  end.

(** The truth value of an optional string: [None] and [''] are false. *)
Definition truthy (s : option string) : bool :=
  match s with
  | Some s => negb (bool_decide (s = ""))
  | None => false
  end.

(** [Path(p).name] on a POSIX path: the last component, empty and [.]
    components aside. *)
Definition path_name (p : string) : string :=
  default "" (last (filter (λ part, part ≠ "" ∧ part ≠ ".") (split_on "/" p))).

Definition double_quote : string := String "034" "".

(** lines 169-174 and 256-262: the reference the diff is taken against. *)
Definition diff_reference (base_ref : string) : string :=
  if bool_decide (base_ref = "HEAD") then "HEAD~1" else base_ref.

(** lines 179-185 *)
Definition add_module (modules : gset string) (file_path : string) : gset string :=
  if startswith "modules/" file_path then
    match split_on "/" file_path !! 1%nat with
    | Some module_name => {[module_name]} ∪ modules
    | None => modules
    end
  else modules.

(** [detect_module_changes], lines 153-191 *)
Definition detect_module_changes (fs : file_system) (base_ref : option string)
    (changed_files : list string) : gset string :=
  let file_paths : result (option (list string)) :=
    match changed_files with
    | _ :: _ => Ok (Some changed_files)
    | [] =>
        if truthy base_ref then
          paths ← call_environment
                    (git_diff_paths fs (diff_reference (default "" base_ref)));
          Ok (Some paths)
        else Ok None
    end in
  match file_paths with
  | Ok (Some file_paths) => foldl add_module ∅ file_paths
  | Ok None => ∅
  | Raise _ => ∅
  | NoFuel => ∅
  end.

(** line 215 *)
Definition references_module (content module : string) : bool :=
  contains ("modules/" +:+ module) content ||
  contains ("source = " +:+ double_quote +:+ "../../modules/" +:+ module +:+ double_quote)
    content.

(** lines 210-220: one [.tf] file of a service; an unreadable file is skipped. *)
Definition scan_tf_file (fs : file_system) (modules : gset string)
    (service_dir name : string) (services : gset string) (tf_name : string)
  : gset string :=
  match path_read_text fs (service_directory service_dir tf_name) with
  | Returned content =>
      if existsb (references_module content) (elements modules)
      then {[name]} ∪ services else services
  | Raised _ => services
  end.

(** lines 205-220: one entry of the working directory. *)
Definition scan_service (fs : file_system) (modules : gset string) (working_dir : string)
    (services : gset string) (name : string) : result (gset string) :=
  let service_dir := service_directory working_dir name in
  is_dir ← call_environment (path_is_dir fs service_dir);
  if negb is_dir || startswith "." name then Ok services
  else
    tf_files ← call_environment (path_glob_tf fs service_dir);
    Ok (foldl (scan_tf_file fs modules service_dir name) services tf_files).

(** [get_services_using_modules], lines 194-222 *)
Definition get_services_using_modules (fs : file_system) (working_dir : string)
    (modules : gset string) : result (gset string) :=
  present ← call_environment (path_exists fs working_dir);
  if negb present then Ok ∅
  else
    names ← call_environment (path_iterdir fs working_dir);
    for_each (scan_service fs modules working_dir) names ∅.

(** lines 306-310: one entry of the working directory. *)
Definition collect_service (fs : file_system) (working_dir : string)
    (services : list string) (name : string) : result (list string) :=
  is_dir ← call_environment (path_is_dir fs (service_directory working_dir name));
  if is_dir && negb (startswith "." name) then
    tf_files ← call_environment (path_glob_tf fs (service_directory working_dir name));
    Ok (match tf_files with
        | [] => services
        | _ :: _ => services ++ [name]
        end)
  else Ok services.

(** [get_all_terraform_services], lines 297-312: the lines printed and the
    value. *)
Definition get_all_terraform_services (fs : file_system) (working_dir : string)
  : list string * result (list string) :=
  match call_environment (path_exists fs working_dir) with
  | Ok false =>
      (["❌ Error: Working directory not found: " +:+ working_dir], Ok [])
  | Ok true =>
      ([], names ← call_environment (path_iterdir fs working_dir);
           services ← for_each (collect_service fs working_dir) names [];
           Ok (sorted services))
  | Raise e => ([], Raise e)
  | NoFuel => ([], NoFuel)
  end.

(** lines 243-248: the changed files handed in, if any. *)
Definition read_changed_files (fs : file_system) (changed_files_path : option string)
  : result (list string) :=
  if truthy changed_files_path && os_path_exists fs (default "" changed_files_path)
  then
    call_environment (read_lines fs (default "" changed_files_path)) ≫=
      λ lines : list string, Ok (filter (λ line, line ≠ "") (strip <$> lines))
  else Ok [].

(** lines 243-262: the changed files, from the list handed in or from the
    diff. *)
Definition load_changed_files (fs : file_system) (base_ref changed_files_path : option string)
  : result (list string) :=
  changed_files ← read_changed_files fs changed_files_path;
  match changed_files with
  | _ :: _ => Ok changed_files
  | [] =>
      if negb (truthy base_ref)
      then Raise (Exception "Either changed_files_path or base_ref must be provided")
      else call_environment (git_diff_paths fs (diff_reference (default "" base_ref)))
  end.

(** lines 268-278: one changed file. *)
Definition add_direct_change (fs : file_system) (working_dir : string)
    (services : gset string) (file_path : string) : result (gset string) :=
  let parts := split_on "/" file_path in
  match parts !! 0%nat, parts !! 1%nat with
  | Some first, Some service_name =>
      if bool_decide (first = path_name working_dir) then
        is_dir ← call_environment
                   (path_is_dir fs (service_directory working_dir service_name));
        if is_dir : bool then
          tf_files ← call_environment
                       (path_glob_tf fs (service_directory working_dir service_name));
          Ok (match tf_files with
              | [] => services
              | _ :: _ => {[service_name]} ∪ services
              end)
        else Ok services
      else Ok services
  | _, _ => Ok services
  end.

Definition module_changes_line (changed_modules : gset string) : string :=
  "📦 Detected module changes: " +:+ join ", " (sorted (elements changed_modules)).

Definition affected_services_line (affected_services : gset string) : string :=
  "   → Affected services: " +:+ join ", " (sorted (elements affected_services)).

(** lines 240-289: the body of the [try]; the lines printed and the value. *)
Definition detect_changed_services_body (fs : file_system) (working_dir : string)
    (base_ref changed_files_path : option string) : list string * result (list string) :=
  match load_changed_files fs base_ref changed_files_path with
  | Ok changed_files =>
      match for_each (add_direct_change fs working_dir) changed_files ∅ with
      | Ok services =>
          let changed_modules := detect_module_changes fs base_ref changed_files in
          if bool_decide (changed_modules ≠ ∅) then
            match get_services_using_modules fs working_dir changed_modules with
            | Ok affected_services =>
                if bool_decide (affected_services ≠ ∅) then
                  ([module_changes_line changed_modules;
                    affected_services_line affected_services],
                   Ok (sorted (elements (services ∪ affected_services))))
                else
                  ([module_changes_line changed_modules], Ok (sorted (elements services)))
            | Raise e => ([module_changes_line changed_modules], Raise e)
            | NoFuel => ([module_changes_line changed_modules], NoFuel)
            end
          else ([], Ok (sorted (elements services)))
      | Raise e => ([], Raise e)
      | NoFuel => ([], NoFuel)
      end
  | Raise e => ([], Raise e)
  | NoFuel => ([], NoFuel)
  end.

Definition detection_warning (e : exception) : list string :=
  [ "⚠️  Warning: Could not detect changes via git: " +:+ str_of_exception e;
    "   Falling back to all services in working directory" ].

(** [detect_changed_services], lines 229-294 *)
Definition detect_changed_services (fs : file_system) (working_dir : string)
    (base_ref changed_files_path : option string) : list string * result (list string) :=
  match detect_changed_services_body fs working_dir base_ref changed_files_path with
  | (printed, Raise e) =>
      let '(printed', services) := get_all_terraform_services fs working_dir in
      (printed ++ detection_warning e ++ printed', services)
  | returned => returned
  end.

(** *** Notions the statements about the detection are phrased in *)

(** A service directory with a [.tf] file under it, an entry of the working
    directory. *)
Definition terraform_service (fs : file_system) (working_dir name : string) : Prop :=
  ∃ names tf_files,
    path_iterdir fs working_dir = Returned names ∧ name ∈ names ∧
    path_is_dir fs (service_directory working_dir name) = Returned true ∧
    path_glob_tf fs (service_directory working_dir name) = Returned tf_files ∧
    tf_files ≠ [].

(** A [.tf] file of the directory can be read and names the path of the
    module. *)
Definition references (fs : file_system) (working_dir name module : string) : Prop :=
  ∃ tf_files tf_name content,
    path_glob_tf fs (service_directory working_dir name) = Returned tf_files ∧
    tf_name ∈ tf_files ∧
    path_read_text fs (service_directory (service_directory working_dir name) tf_name) =
      Returned content ∧
    contains ("modules/" +:+ module) content = true.

(** What the scan of all services asks of an entry of the working directory:
    a directory, not hidden, with a [.tf] file. *)
Definition listed_service (fs : file_system) (working_dir name : string) : Prop :=
  path_is_dir fs (service_directory working_dir name) = Returned true ∧
  startswith "." name = false ∧
  ∃ tf_files,
    path_glob_tf fs (service_directory working_dir name) = Returned tf_files ∧
    tf_files ≠ [].

(** Every query of the scan of all services is answered: the working
    directory can be listed, every entry can be asked whether it is a
    directory, and every directory that is not hidden can be searched for
    [.tf] files. *)
Definition scan_answers (fs : file_system) (working_dir : string) : Prop :=
  ∃ names,
    path_iterdir fs working_dir = Returned names ∧
    ∀ name, name ∈ names →
      ∃ is_dir,
        path_is_dir fs (service_directory working_dir name) = Returned is_dir ∧
        (is_dir = true → startswith "." name = false →
         ∃ tf_files,
           path_glob_tf fs (service_directory working_dir name) = Returned tf_files).

(** *** File systems to run the embedding in *)

(** The working directory [toronto] holds the services [network] and
    [compute], whose [main.tf] names the module [net-common], the service
    [identity], whose [main.tf] does not, the hidden directory [.shared],
    whose [main.tf] names the module too, and a file [README.md].  The list
    of changed files, when there is one, holds a file of the module. *)
Definition toronto (with_changed_files : bool) : file_system :=
  {| os_path_exists := λ p,
       with_changed_files && bool_decide (p = "/tmp/changed-files.txt");
     read_lines := λ p,
       if with_changed_files && bool_decide (p = "/tmp/changed-files.txt")
       then Returned ["modules/net-common/main.tf" +:+ newline]
       else Raised (Exception "[Errno 2] No such file or directory");
     git_diff_paths := λ _, Raised (Exception "not a git repository");
     path_exists := λ p, Returned (bool_decide (p = "toronto"));
     path_is_dir := λ p,
       Returned (bool_decide (p ∈ ["toronto"; "toronto/network"; "toronto/compute";
                                   "toronto/identity"; "toronto/.shared"]));
     path_iterdir := λ p,
       if bool_decide (p = "toronto")
       then Returned ["network"; ".shared"; "README.md"; "identity"; "compute"]
       else Raised (Exception "[Errno 20] Not a directory");
     path_glob_tf := λ p,
       if bool_decide (p ∈ ["toronto/network"; "toronto/compute";
                            "toronto/identity"; "toronto/.shared"])
       then Returned ["main.tf"] else Returned [];
     path_read_text := λ p,
       if bool_decide (p ∈ ["toronto/network/main.tf"; "toronto/compute/main.tf";
                            "toronto/.shared/main.tf"])
       then Returned ("module net { source = " +:+ double_quote
                      +:+ "../../modules/net-common" +:+ double_quote +:+ " }")
       else if bool_decide (p = "toronto/identity/main.tf")
       then Returned "resource oci_identity_compartment x {}"
       else Raised (Exception "[Errno 2] No such file or directory") |}.

(** The working directory is a regular file; there is no list of changed
    files. *)
Definition working_dir_is_a_file : file_system :=
  {| os_path_exists := λ _, false;
     read_lines := λ _, Raised (Exception "[Errno 2] No such file or directory");
     git_diff_paths := λ _, Raised (Exception "not a git repository");
     path_exists := λ p, Returned (bool_decide (p = "toronto"));
     path_is_dir := λ _, Returned false;
     path_iterdir := λ _, Raised (Exception "[Errno 20] Not a directory: 'toronto'");
     path_glob_tf := λ _, Returned [];
     path_read_text := λ _, Raised (Exception "[Errno 20] Not a directory") |}.

(** The statement that a failed detection always ends in the full list:
    whenever the body of [detect_changed_services] raises, the function
    prints the warning and returns the sorted names of all the service
    directories that hold a [.tf] file. *)
Definition detection_failure_always_returns : Prop :=
  ∀ fs working_dir base_ref changed_files_path printed e,
    detect_changed_services_body fs working_dir base_ref changed_files_path =
      (printed, Raise e) →
    ∃ printed' services,
      detect_changed_services fs working_dir base_ref changed_files_path =
        (printed', Ok services) ∧
      (∀ line, line ∈ detection_warning e → line ∈ printed') ∧
      Sorted String.le services ∧
      ∀ name, name ∈ services ↔ terraform_service fs working_dir name.

(** The statement that a changed module reaches every service directory that
    references it. *)
Definition module_change_reaches_every_directory : Prop :=
  ∀ fs working_dir base_ref changed_files_path changed_files file_path module name
    printed services,
    load_changed_files fs base_ref changed_files_path = Ok changed_files →
    file_path ∈ changed_files →
    startswith "modules/" file_path = true →
    split_on "/" file_path !! 1%nat = Some module →
    path_exists fs working_dir = Returned true →
    terraform_service fs working_dir name →
    references fs working_dir name module →
    detect_changed_services fs working_dir base_ref changed_files_path =
      (printed, Ok services) →
    name ∈ services.

(** ** Version 1.0: [scripts/oci-terraform-orchestrator.py] *)

(** The patterns of version 1.0 are sequences of literal text, [\s+] and
    [(\d+)]. *)
Inductive token :=
| Literal (text : string)
| Whitespace
| Digits.

(** [c.isdigit()] on ASCII *)
Definition isdigit (c : ascii) : bool :=
  match Ascii.is_nat c with
  | Some _ => true
  | None => false
  end.

(** The longest prefix of [s] whose characters satisfy [p], and the rest. *)
Fixpoint span (p : ascii → bool) (s : string) : string * string :=
  match s with
  | "" => ("", "")
  | String c rest =>
      if p c then let '(run, rest) := span p rest in (String c run, rest)
      else ("", s)
  end.

(** [s[n:]] *)
Fixpoint skip (n : nat) (s : string) : string :=
  match n, s with
  | O, _ => s
  | S n, String _ rest => skip n rest
  | S _, "" => ""
  end.

(** A match of the pattern at the start of [s]: the groups captured.  A
    repetition takes the longest run; in the two patterns of the source the
    text after a repetition never starts with a character of the run, so no
    shorter run leads to a match either. *)
Fixpoint match_here (pattern : list token) (s : string) : option (list string) :=
  match pattern with
  | [] => Some []
  | Literal text :: pattern =>
      if String.prefix text s then match_here pattern (skip (String.length text) s)
      else None
  | Whitespace :: pattern =>
      let '(run, rest) := span isspace s in
      if decide (run = "") then None else match_here pattern rest
  | Digits :: pattern =>
      let '(run, rest) := span isdigit s in
      if decide (run = "") then None else (run ::.) <$> match_here pattern rest
  end.

(** [re.search(pattern, s)]: the groups of the leftmost match. *)
Fixpoint search (pattern : list token) (s : string) : option (list string) :=
  match match_here pattern s with
  | Some groups => Some groups
  | None =>
      match s with
      | "" => None
      | String _ rest => search pattern rest
      end
  end.

Module V1.

(** [r'Plan:\s+(\d+)\s+to\s+add,\s+(\d+)\s+to\s+change,\s+(\d+)\s+to\s+destroy'] *)
Definition plan_pattern : list token :=
  [ Literal "Plan:"; Whitespace; Digits; Whitespace; Literal "to"; Whitespace;
    Literal "add,"; Whitespace; Digits; Whitespace; Literal "to"; Whitespace;
    Literal "change,"; Whitespace; Digits; Whitespace; Literal "to"; Whitespace;
    Literal "destroy" ].

(** [r'Apply complete!\s+Resources:\s+(\d+)\s+added,\s+(\d+)\s+changed,\s+(\d+)\s+destroyed'] *)
Definition apply_pattern : list token :=
  [ Literal "Apply complete!"; Whitespace; Literal "Resources:"; Whitespace; Digits;
    Whitespace; Literal "added,"; Whitespace; Digits; Whitespace; Literal "changed,";
    Whitespace; Digits; Whitespace; Literal "destroyed" ].

(** The three groups of a match, as integers. *)
Definition three_counts (groups : option (list string)) : option (Z * Z * Z) :=
  match groups with
  | Some [a; b; c] =>
      a ← py_int a; b ← py_int b; c ← py_int c; Some (a, b, c)
  | _ => None
  end.

(** [parse_plan_summary], lines 360-369 *)
Definition parse_plan_summary (output : string) : Z :=
  match three_counts (search plan_pattern output) with
  | Some (a, b, c) => a + b + c
  | None => 0
  end.

(** [parse_apply_summary], lines 372-393: created, changed, destroyed. *)
Definition parse_apply_summary (output : string) : Z * Z * Z :=
  match three_counts (search apply_pattern output) with
  | Some counts => counts
  | None => (0, 0, 0)
  end.

(** The result dictionary of version 1.0, lines 267-277. *)
Record ExecutionResult := {
  service : string;
  action : string;
  success : bool;
  output : string;
  error : string;
  duration : Q;
  resources_changed : Z;
  resources_created : Z;
  resources_destroyed : Z
}.

Definition initial_result (service_name action : string) : ExecutionResult :=
  {| service := service_name; action := action; success := false; output := "";
     error := ""; duration := 0; resources_changed := 0; resources_created := 0;
     resources_destroyed := 0 |}.

Definition with_error (r : ExecutionResult) (e : string) : ExecutionResult :=
  {| service := service r; action := action r; success := success r;
     output := output r; error := e; duration := duration r;
     resources_changed := resources_changed r;
     resources_created := resources_created r;
     resources_destroyed := resources_destroyed r |}.

Definition with_output (r : ExecutionResult) (o : string) : ExecutionResult :=
  {| service := service r; action := action r; success := success r;
     output := o; error := error r; duration := duration r;
     resources_changed := resources_changed r;
     resources_created := resources_created r;
     resources_destroyed := resources_destroyed r |}.

Definition with_success (r : ExecutionResult) (b : bool) : ExecutionResult :=
  {| service := service r; action := action r; success := b;
     output := output r; error := error r; duration := duration r;
     resources_changed := resources_changed r;
     resources_created := resources_created r;
     resources_destroyed := resources_destroyed r |}.

Definition with_duration (r : ExecutionResult) (d : Q) : ExecutionResult :=
  {| service := service r; action := action r; success := success r;
     output := output r; error := error r; duration := d;
     resources_changed := resources_changed r;
     resources_created := resources_created r;
     resources_destroyed := resources_destroyed r |}.

Definition with_changed (r : ExecutionResult) (n : Z) : ExecutionResult :=
  {| service := service r; action := action r; success := success r;
     output := output r; error := error r; duration := duration r;
     resources_changed := n;
     resources_created := resources_created r;
     resources_destroyed := resources_destroyed r |}.

(** [result.update(stats)] *)
Definition with_stats (r : ExecutionResult) (stats : Z * Z * Z) : ExecutionResult :=
  {| service := service r; action := action r; success := success r;
     output := output r; error := error r; duration := duration r;
     resources_changed := stats.1.2;
     resources_created := stats.1.1;
     resources_destroyed := stats.2 |}.

(** line 295: ten minutes for the init step. *)
Definition init_call (service_dir : string) : call :=
  {| cmd := ["terraform"; "init"; "-no-color"]; cwd := service_dir; timeout := 600 |}.

(** lines 321-346 *)
Definition action_completed (action : string) (result : ExecutionResult)
    (tf_result : CompletedProcess) : ExecutionResult :=
  let result := with_output result (stdout tf_result) in
  if bool_decide (action = "plan") then
    if bool_decide (returncode tf_result = 0) then
      with_changed (with_success result true) 0
    else if bool_decide (returncode tf_result = 2) then
      with_changed (with_success result true) (parse_plan_summary (stdout tf_result))
    else with_error result (stderr tf_result)
  else
    let result := with_success result (bool_decide (returncode tf_result = 0)) in
    if success result then with_stats result (parse_apply_summary (stdout tf_result))
    else with_error result (stderr tf_result).

(** lines 348-353 *)
Definition on_exception (action : string) (result : ExecutionResult) (e : exception)
  : ExecutionResult :=
  match e with
  | TimeoutExpired _ =>
      with_error result ("Terraform " +:+ action +:+ " timed out after 30 minutes")
  | _ => with_error result ("Unexpected error: " +:+ str_of_exception e)
  end.

(** [execute_terraform_for_service], lines 249-357 *)
Definition execute_terraform_for_service (env : process_environment)
    (service_name service_dir action region : string)
    (calls : list call) : ExecutionResult * list call :=
  let result := initial_result service_name action in
  let start_time := time_time env calls in
  let finish (result : ExecutionResult) (calls : list call) :=
    (with_duration result (time_time env calls - start_time)%Q, calls) in
  match subprocess_run env calls (init_call service_dir) with
  | Raised e => finish (on_exception action result e) (calls ++ [init_call service_dir])
  | Returned init_result =>
      let calls := calls ++ [init_call service_dir] in
      if bool_decide (returncode init_result ≠ 0) then
        (with_error result ("Terraform init failed:" +:+ newline +:+ stderr init_result),
         calls)
      else
        match subprocess_run env calls (action_call action service_dir) with
        | Raised e =>
            finish (on_exception action result e)
                   (calls ++ [action_call action service_dir])
        | Returned tf_result =>
            finish (action_completed action result tf_result)
                   (calls ++ [action_call action service_dir])
        end
  end.

(** The repository and the process environment as change detection of
    version 1.0 queries them: [os.environ.get('GITHUB_EVENT_NAME')],
    [git.Repo(search_parent_directories=True)],
    [repo.git.diff(range, '--name-only')] and [repo.git.ls_files()]. *)
Record repository := {
  github_event_name : option string;
  open_repo : outcome unit;
  git_diff_name_only : string → outcome string;
  git_ls_files : outcome string
}.

(** lines 172-179 *)
Definition diff_range (repo : repository) (base_ref : string) : string :=
  if bool_decide (github_event_name repo = Some "pull_request")
  then "origin/" +:+ base_ref +:+ "...HEAD"
  else "HEAD^...HEAD".

(** lines 184-191: the changed files; a [GitCommandError] of the diff is
    answered by listing all files. *)
Definition load_changed_files (repo : repository) (base_ref : string)
  : result (list string) :=
  _ ← call_environment (open_repo repo);
  diff_output ←
    match git_diff_name_only repo (diff_range repo base_ref) with
    | Returned diff_output => Ok diff_output
    | Raised (GitCommandError _) => call_environment (git_ls_files repo)
    | Raised e => Raise e
    end;
  Ok (filter (λ f, strip f ≠ "") (split_on "010" diff_output)).

(** lines 168-216: the body of the [try]. *)
Definition detect_changed_services_body (repo : repository) (fs : file_system)
    (working_dir base_ref : string) : result (list string) :=
  changed_files ← load_changed_files repo base_ref;
  services ← for_each (add_direct_change fs working_dir) changed_files ∅;
  Ok (sorted (elements services)).

(** [get_all_terraform_services], lines 226-242: the text of version 2.0's. *)
Definition get_all_terraform_services := get_all_terraform_services.

(** [detect_changed_services], lines 156-223 *)
Definition detect_changed_services (repo : repository) (fs : file_system)
    (working_dir base_ref : string) : list string * result (list string) :=
  match detect_changed_services_body repo fs working_dir base_ref with
  | Raise e =>
      let '(printed, services) := get_all_terraform_services fs working_dir in
      (detection_warning e ++ printed, services)
  | returned => ([], returned)
  end.

End V1.

(** ** Notions for the further statements about the scheduler *)

(** Every member of a level but the first has an in-set prerequisite in the
    level just before its own. *)
Definition levels_tight (table : gmap string (list string))
    (services : list string) (levels : list (list string)) : Prop :=
  ∀ i level s,
    levels !! S i = Some level → s ∈ level →
    ∃ level' d, levels !! i = Some level' ∧ d ∈ level' ∧
                d ∈ in_set_prerequisites table services s.

(** The state of the level loop at the head of an iteration, as to how
    tightly the levels are packed: the finished levels are tight, none of
    them is empty, and every member of the current level has an in-set
    prerequisite in the last finished level, when there is one. *)
Definition frontier_tight (table : gmap string (list string))
    (services : list string) (levels : list (list string))
    (current_level : list string) : Prop :=
  levels_tight table services levels ∧
  Forall (λ level, level ≠ []) levels ∧
  ∀ finished, last levels = Some finished →
    ∀ s, s ∈ current_level →
      ∃ d, d ∈ finished ∧ d ∈ in_set_prerequisites table services s.

(** ** Notions for the statements about the summary lines of the tool *)

(** [all(p(c) for c in s)] *)
Fixpoint string_forall (p : ascii → bool) (s : string) : bool :=
  match s with
  | "" => true
  | String c rest => p c && string_forall p rest
  end.

(** The line that ends the output of the tool's apply step, as the tool
    prints it for the three counts. *)
Definition apply_complete_line (added changed destroyed : N) : string :=
  "Apply complete! Resources: " +:+ pretty added +:+ " added, " +:+
  pretty changed +:+ " changed, " +:+ pretty destroyed +:+ " destroyed.".

(** The line that sums up the tool's plan step, as the tool prints it for
    the three counts. *)
Definition plan_line (to_add to_change to_destroy : N) : string :=
  "Plan: " +:+ pretty to_add +:+ " to add, " +:+ pretty to_change +:+
  " to change, " +:+ pretty to_destroy +:+ " to destroy.".

(** A line that [parse_apply_summary] does not read. *)
Definition no_apply_marker (line : string) : Prop :=
  contains "Apply complete!" line = false ∧ contains "Destroy complete!" line = false.

(** ** Notions for the further statements about change detection *)

(** A changed file lies under the directory of the service,
    [<working directory>/<name>/...], and that directory holds a [.tf] file:
    the test of lines 268-278. *)
Definition directly_changed (fs : file_system) (working_dir : string)
    (changed_files : list string) (name : string) : Prop :=
  ∃ file_path tf_files,
    file_path ∈ changed_files ∧
    split_on "/" file_path !! 0%nat = Some (path_name working_dir) ∧
    split_on "/" file_path !! 1%nat = Some name ∧
    path_is_dir fs (service_directory working_dir name) = Returned true ∧
    path_glob_tf fs (service_directory working_dir name) = Returned tf_files ∧
    tf_files ≠ [].

(** An entry of the working directory is a directory, is not hidden, and has
    a [.tf] file that can be read and refers to one of the modules: the test
    of lines 205-218. *)
Definition uses_module (fs : file_system) (working_dir : string)
    (modules : gset string) (name : string) : Prop :=
  path_exists fs working_dir = Returned true ∧
  (∃ names, path_iterdir fs working_dir = Returned names ∧ name ∈ names) ∧
  path_is_dir fs (service_directory working_dir name) = Returned true ∧
  startswith "." name = false ∧
  ∃ tf_files tf_name content module,
    path_glob_tf fs (service_directory working_dir name) = Returned tf_files ∧
    tf_name ∈ tf_files ∧
    path_read_text fs (service_directory (service_directory working_dir name) tf_name) =
      Returned content ∧
    module ∈ modules ∧
    references_module content module = true.

(** The file system with another answer to the diff of the repository. *)
Definition with_git_diff_paths (fs : file_system)
    (diff : string → outcome (list string)) : file_system :=
  {| os_path_exists := os_path_exists fs;
     read_lines := read_lines fs;
     git_diff_paths := diff;
     path_exists := path_exists fs;
     path_is_dir := path_is_dir fs;
     path_iterdir := path_iterdir fs;
     path_glob_tf := path_glob_tf fs;
     path_read_text := path_read_text fs |}.

(** ** The entry point *)

(** The machine the script runs on, as [validate_oci_cli_config] queries it:
    [str(Path.home() / '.oci' / 'config')], whether that path exists, and
    [os.environ.get]. *)
Record host := {
  oci_config_path : string;
  oci_config_exists : outcome bool;
  environ_get : string → option string
}.

(** How a function that may call [sys.exit] ends, when it does not raise. *)
Inductive flow (A : Type) :=
| Returns (a : A)
| SystemExit (code : Z).
Arguments Returns {A} a.
Arguments SystemExit {A} code.

(** [validate_oci_cli_config], lines 319-332: the lines printed and the way
    the function ends. *)
Definition validate_oci_cli_config (h : host) : list string * result (flow ()) :=
  match oci_config_exists h with
  | Raised e => ([], Raise e)
  | Returned false =>
      ([ "❌ OCI config not found at: " +:+ oci_config_path h;
         "   Please configure OCI CLI or set environment variables" ],
       Ok (SystemExit 1))
  | Returned true =>
      let required_env_vars :=
        ["TF_VAR_tenancy_ocid"; "TF_VAR_user_ocid"; "TF_VAR_region"] in
      let missing_vars :=
        filter (λ var, truthy (environ_get h var) = false) required_env_vars in
      (match missing_vars with
       | [] => []
       | _ :: _ =>
           ["⚠️  Warning: Missing environment variables: " +:+ join ", " missing_vars]
       end,
       Ok (Returns ()))
  end.

(** The arguments that [main] reads next to those of the level loop:
    [--base-ref], which has no default, and [--changed-files], which has
    one. *)
Record command_line := {
  run_arguments : arguments;
  base_ref : option string;
  changed_files : string
}.

(** [main], lines 798-945, from line 802 on: the calls made and the way the
    function ends once [parse_args], line 800, has returned the command line
    [cl]; that first line is embedded in [orchestrator] below.
    Console output and the two report files are not part of this value;
    writing the reports does not change how [main] ends, since
    [write_pr_comment] and [write_audit_log] catch what their writes raise. *)
Definition main (h : host) (fs : file_system) (env : process_environment)
    (cl : command_line) : list call * result (flow Z) :=
  let args := run_arguments cl in
  match path_exists fs (working_dir args) with
  | Raised e => ([], Raise e)
  | Returned false => ([], Ok (Returns 1))
  | Returned true =>
      let validated :=
        if dry_run args then Ok (Returns ()) else (validate_oci_cli_config h).2 in
      match validated with
      | Ok (Returns _) =>
          match (detect_changed_services fs (working_dir args) (base_ref cl)
                   (Some (changed_files cl))).2 with
          | Ok changed_services =>
              match main_from_changes env args changed_services [] with
              | Ok (_, _, _, calls, status) => (calls, Ok (Returns status))
              | Raise e => ([], Raise e)
              | NoFuel => ([], NoFuel)
              end
          | Raise e => ([], Raise e)
          | NoFuel => ([], NoFuel)
          end
      | Ok (SystemExit code) => ([], Ok (SystemExit code))
      | Raise e => ([], Raise e)
      | NoFuel => ([], NoFuel)
      end
  end.

(** The block under [if __name__ == '__main__'], lines 948-958: the calls
    made and the exit status of the process.  [sys.exit(main())] passes the
    value of [main] on, a [SystemExit] raised inside [main] passes both
    handlers, and every other exception of the embedding is an [Exception]
    and ends in [sys.exit(1)].  A [KeyboardInterrupt] comes from outside and
    is not part of the embedding. *)
Definition script (h : host) (fs : file_system) (env : process_environment)
    (cl : command_line) : list call * result Z :=
  match main h fs env cl with
  | (calls, Ok (Returns status)) => (calls, Ok status)
  | (calls, Ok (SystemExit code)) => (calls, Ok code)
  | (calls, Raise _) => (calls, Ok 1)
  | (calls, NoFuel) => (calls, NoFuel)
  end.




(** A result that is a success is backed by the two calls in the directory
    of its service. *)
Definition backed (working_dir action : string) (calls : list call)
    (r : ExecutionResult) : Prop :=
  success r = true →
  init_call (service_directory working_dir (service r)) ∈ calls ∧
  action_call action (service_directory working_dir (service r)) ∈ calls.

(** *** A host and a command line to run the embedding with *)

Definition configured_host : host :=
  {| oci_config_path := "/home/runner/.oci/config";
     oci_config_exists := Returned true;
     environ_get := λ var,
       if bool_decide (var = "TF_VAR_region") then Some "ca-toronto-1" else None |}.

Definition plan_command_line (dry parallel_levels : bool) : command_line :=
  {| run_arguments := plan_arguments dry parallel_levels;
     base_ref := None;
     changed_files := "/tmp/changed-files.txt" |}.

(** * Properties of the embedding *)

(** ** Results and dictionaries *)

Lemma bind_Ok {A B} (a : A) (f : A → result B) : (Ok a ≫= f) = f a.
Proof. done. Qed.

Lemma getitem_Some {V} (d : gmap string V) k v : d !! k = Some v → getitem d k = Ok v.
Proof. unfold getitem. by intros ->. Qed.

(** ** Loops *)

Section loops.
Context {A St : Type}.
Implicit Types (body : St → A → result St) (items : list A).

Lemma for_each_app body items1 items2 st :
  for_each body (items1 ++ items2) st =
  st' ← for_each body items1 st; for_each body items2 st'.
Proof.
  revert st. induction items1 as [|x items1 IH]; intros st; simpl; [done|].
  destruct (body st x) as [st'| |]; simpl; [apply IH|done..].
Qed.

(** A loop invariant indexed by the items already visited. *)
Lemma for_each_invariant body (I : list A → St → Prop) items st :
  I [] st →
  (∀ visited x st, I visited st → x ∈ items →
     ∃ st', body st x = Ok st' ∧ I (visited ++ [x]) st') →
  ∃ st', for_each body items st = Ok st' ∧ I items st'.
Proof.
  revert I st. induction items as [|x items IH]; intros I st H0 Hstep; simpl.
  - eauto.
  - destruct (Hstep [] x st H0) as (st1 & -> & H1); [left|]. simpl.
    apply (IH (λ visited, I (x :: visited))); [done|].
    intros visited y st2 H2 Hy. apply (Hstep (x :: visited)); [done|by right].
Qed.

Lemma select_filter (test : A → result bool) (P : A → Prop)
    `{!∀ x, Decision (P x)} items :
  (∀ x, x ∈ items → test x = Ok (bool_decide (P x))) →
  select test items = Ok (filter P items).
Proof.
  induction items as [|x items IH]; intros Htest; simpl; [done|].
  rewrite Htest by left. simpl. rewrite IH by (intros; apply Htest; by right).
  simpl. rewrite filter_cons. by case_bool_decide; case_decide.
Qed.
End loops.

(** ** Counting occurrences *)

Lemma occurrences_nil x : occurrences x [] = 0%nat.
Proof. done. Qed.

Lemma occurrences_cons x y l :
  occurrences x (y :: l) =
  ((if decide (x = y) then 1 else 0) + occurrences x l)%nat.
Proof. unfold occurrences. rewrite filter_cons. by case_decide. Qed.

Lemma occurrences_app x l k :
  occurrences x (l ++ k) = (occurrences x l + occurrences x k)%nat.
Proof. unfold occurrences. by rewrite filter_app, length_app. Qed.

Lemma occurrences_replicate x n y :
  occurrences x (replicate n y) = if decide (x = y) then n else 0%nat.
Proof.
  induction n as [|n IH]; simpl; [by case_decide|].
  rewrite occurrences_cons, IH. by case_decide.
Qed.

Lemma occurrences_pos x l : (0 < occurrences x l)%nat ↔ x ∈ l.
Proof.
  induction l as [|y l IH]; [rewrite occurrences_nil; split; [lia|by intros ?%elem_of_nil]|].
  rewrite occurrences_cons, elem_of_cons. case_decide as Hxy.
  - split; [by left|lia].
  - rewrite Nat.add_0_l, IH. split; [by right|]. by intros [?|?].
Qed.

Lemma occurrences_NoDup x l : NoDup l → x ∈ l → occurrences x l = 1%nat.
Proof.
  induction 1 as [|y l Hy Hl IH]; [by intros ?%elem_of_nil|].
  rewrite occurrences_cons, elem_of_cons. intros [->|Hx].
  - rewrite decide_True by done.
    destruct (occurrences y l) eqn:E; [done|].
    exfalso. apply Hy, occurrences_pos. lia.
  - rewrite decide_False by (intros ->; done). by rewrite IH.
Qed.

Lemma occurrences_filter x (P : string → Prop) `{!∀ y, Decision (P y)} l :
  P x → occurrences x (filter P l) = occurrences x l.
Proof.
  intros HP. induction l as [|y l IH]; [done|].
  rewrite filter_cons. case_decide.
  - by rewrite !occurrences_cons, IH.
  - rewrite occurrences_cons, IH. rewrite decide_False by (intros ->; done). done.
Qed.

(** ** Building the graph: lines 101-115 *)

Section build_graph.
Variable table : gmap string (list string).
Variable services : list string.

Lemma foldl_insert_lookup {V} (v : V) (l : list string) (g : gmap string V) x :
  foldl (λ d k, <[k := v]> d) g l !! x =
  if decide (x ∈ l) then Some v else g !! x.
Proof.
  revert g. induction l as [|y l IH]; intros g; simpl.
  - destruct (decide (x ∈ [])) as [H%elem_of_nil|]; done.
  - rewrite IH. destruct (decide (x ∈ l)) as [Hl|Hl].
    + rewrite decide_True by (by right). done.
    + destruct (decide (x = y)) as [->|Hne].
      * rewrite decide_True by left. by rewrite lookup_insert_eq.
      * rewrite decide_False by (intros [?|?]%elem_of_cons; done).
        by rewrite lookup_insert_ne.
Qed.

Lemma init_graph_lookup x :
  x ∈ services → init_graph services !! x = Some [].
Proof.
  intros Hx. unfold init_graph. rewrite foldl_insert_lookup. by rewrite decide_True.
Qed.

Lemma init_in_degree_lookup x :
  x ∈ services → init_in_degree services !! x = Some 0.
Proof.
  intros Hx. unfold init_in_degree. rewrite foldl_insert_lookup. by rewrite decide_True.
Qed.

Lemma add_edges_spec visited service st :
  service ∈ services →
  edges_added table services visited st →
  ∃ st', add_edges table services st service = Ok st' ∧
         edges_added table services (visited ++ [service]) st'.
Proof.
  intros Hservice [Hgraph Hdeg]. unfold add_edges.
  pose (I := λ (seen : list string) (st' : gmap string (list string) * gmap string Z),
    (∀ x, x ∈ services →
       st'.1 !! x = Some (dependents_of table visited x ++
                          replicate (occurrences x seen) service)) ∧
    (∀ s, s ∈ services →
       st'.2 !! s = Some (Z.of_nat (occurrences s visited * in_degree_of table services s) +
                          if decide (s = service)
                          then Z.of_nat (length (filter (.∈ services) seen)) else 0))).
  destruct (for_each_invariant (add_edge services service) I
              (prerequisites table service) st) as (st' & Hrun & Hg' & Hd').
  - split; intros x Hx; simpl.
    + by rewrite Hgraph, app_nil_r.
    + rewrite Hdeg by done. f_equal. case_decide; lia.
  - intros seen dep [graph in_degree] [Hg Hd] _. unfold add_edge. simpl in *.
    case_bool_decide as Hdep.
    + rewrite (getitem_Some _ _ _ (Hg _ Hdep)), bind_Ok.
      rewrite (getitem_Some _ _ _ (Hd _ Hservice)), bind_Ok.
      eexists; split; [done|]. split; intros x Hx; simpl.
      * rewrite occurrences_app, occurrences_cons, occurrences_nil.
        destruct (decide (x = dep)) as [->|Hne].
        -- rewrite lookup_insert_eq. f_equal.
           replace (occurrences dep seen + (1 + 0))%nat with (S (occurrences dep seen)) by lia.
           by rewrite replicate_S_end, app_assoc.
        -- rewrite lookup_insert_ne by done. rewrite Hg by done.
           by rewrite Nat.add_0_r.
      * rewrite filter_app, length_app, filter_cons, filter_nil, (decide_True _ _ Hdep).
        change (length [dep]) with 1%nat.
        destruct (decide (x = service)) as [->|Hne].
        -- rewrite lookup_insert_eq. f_equal. rewrite decide_True by done. lia.
        -- rewrite lookup_insert_ne by done. rewrite Hd by done.
           by rewrite decide_False by done.
    + eexists; split; [done|]. split; intros x Hx; simpl.
      * rewrite occurrences_app, occurrences_cons, occurrences_nil.
        rewrite decide_False by (intros ->; done).
        rewrite Hg by done. by rewrite !Nat.add_0_r.
      * rewrite filter_app, length_app, filter_cons, filter_nil, (decide_False _ _ Hdep).
        change (length (@nil string)) with 0%nat.
        rewrite Hd by done. by rewrite Nat.add_0_r.
  - exists st'. split; [done|]. split; intros x Hx.
    + rewrite Hg' by done. f_equal. unfold dependents_of.
      rewrite bind_app. simpl. by rewrite app_nil_r.
    + rewrite Hd' by done. f_equal. rewrite occurrences_app, occurrences_cons, occurrences_nil.
      unfold in_degree_of, in_set_prerequisites.
      destruct (decide (x = service)) as [->|Hne]; lia.
Qed.

Lemma build_graph_spec :
  ∃ graph in_degree,
    build_graph table services = Ok (graph, in_degree) ∧
    (∀ x, x ∈ services → graph !! x = Some (dependents_of table services x)) ∧
    (∀ s, s ∈ services →
       in_degree !! s =
       Some (Z.of_nat (occurrences s services * in_degree_of table services s))).
Proof.
  unfold build_graph.
  destruct (for_each_invariant (add_edges table services) (edges_added table services) services
              (init_graph services, init_in_degree services))
    as ([graph in_degree] & Hrun & Hg & Hd).
  - split; intros x Hx; simpl.
    + by apply init_graph_lookup.
    + by rewrite init_in_degree_lookup.
  - intros visited x st Hst Hx. by apply add_edges_spec.
  - by exists graph, in_degree.
Qed.
End build_graph.

(** ** One pass of Kahn's algorithm: lines 128-136 *)

Section relax.
Variable services : list string.

Lemma relax_step (in_degree : gmap string Z) next_level x n :
  in_degree !! x = Some n →
  relax (in_degree, next_level) x =
  Ok (<[x := n - 1]> in_degree,
      if n - 1 =? 0 then next_level ++ [x] else next_level).
Proof. intros H. unfold relax. by rewrite (getitem_Some _ _ _ H). Qed.

(** Folding [relax] over a list of dependents subtracts from each in-degree
    the number of occurrences of its key, and appends to the next level,
    once, every key whose in-degree goes from positive to zero. *)
Lemma relax_fold (ds : list string) :
  ∀ (in_degree : gmap string Z) (next_level : list string) (n : string → Z),
    (∀ s, s ∈ services → in_degree !! s = Some (n s)) →
    (∀ x, x ∈ ds → x ∈ services) →
    ∃ in_degree' new,
      for_each relax ds (in_degree, next_level) = Ok (in_degree', next_level ++ new) ∧
      (∀ s, s ∈ services →
         in_degree' !! s = Some (n s - Z.of_nat (occurrences s ds))) ∧
      NoDup new ∧
      (∀ s, s ∈ new ↔ 1 ≤ n s ≤ Z.of_nat (occurrences s ds)).
Proof.
  induction ds as [|x ds IH]; intros in_degree next_level n Hn Hds.
  - exists in_degree, []. simpl. rewrite app_nil_r. split; [done|].
    split; [|split; [constructor|]].
    + intros s Hs. rewrite Hn by done. f_equal. rewrite occurrences_nil. lia.
    + intros s. rewrite occurrences_nil. split; [by intros ?%elem_of_nil|lia].
  - assert (x ∈ services) as Hx by (apply Hds; left).
    cbn [for_each]. rewrite (relax_step _ _ _ _ (Hn _ Hx)), bind_Ok.
    set (n1 := λ s, if decide (s = x) then n x - 1 else n s).
    destruct (IH (<[x := n x - 1]> in_degree)
                (if n x - 1 =? 0 then next_level ++ [x] else next_level) n1)
      as (in_degree' & new' & Hrun & Hlook & Hnodup & Hnew).
    { intros s Hs. unfold n1. destruct (decide (s = x)) as [->|Hne].
      - by rewrite lookup_insert_eq.
      - rewrite lookup_insert_ne by done. by apply Hn. }
    { intros y Hy. apply Hds. by right. }
    exists in_degree', ((if n x - 1 =? 0 then [x] else []) ++ new').
    split; [|split; [|split]].
    + rewrite Hrun. f_equal. f_equal.
      destruct (n x - 1 =? 0); simpl; [by rewrite <- app_assoc|done].
    + intros s Hs. rewrite Hlook by done. f_equal.
      rewrite occurrences_cons. unfold n1.
      destruct (decide (s = x)) as [->|Hne]; lia.
    + destruct (n x - 1 =? 0) eqn:E; simpl; [|done].
      apply Z.eqb_eq in E. constructor; [|done].
      rewrite Hnew. unfold n1. rewrite decide_True by done. lia.
    + intros s. rewrite elem_of_app, Hnew, occurrences_cons. unfold n1.
      destruct (decide (s = x)) as [->|Hne].
      * destruct (n x - 1 =? 0) eqn:E.
        -- apply Z.eqb_eq in E. rewrite list_elem_of_singleton. split; [lia|by left].
        -- apply Z.eqb_neq in E. split; [intros [?%elem_of_nil|?]; [done|lia]|right; lia].
      * destruct (n x - 1 =? 0); simpl.
        -- rewrite list_elem_of_singleton. split; [intros [?|?]; [done|lia]|right; lia].
        -- split; [intros [?%elem_of_nil|?]; [done|lia]|right; lia].
Qed.

(** The double loop is one loop over the concatenated dependents. *)
Lemma visit_flatten (graph : gmap string (list string)) (g : string → list string)
    (current_level : list string) st :
  (∀ c, c ∈ current_level → graph !! c = Some (g c)) →
  for_each (visit graph) current_level st =
  for_each relax (current_level ≫= g) st.
Proof.
  revert st. induction current_level as [|c cs IH]; intros st Hg; [done|].
  change ((c :: cs) ≫= g) with (g c ++ (cs ≫= g)).
  rewrite for_each_app. cbn [for_each].
  assert (visit graph st c = for_each relax (g c) st) as ->.
  { unfold visit. by rewrite (getitem_Some _ _ (g c)) by (apply Hg; left). }
  destruct (for_each relax (g c) st) as [st'| |]; [|done..]. rewrite !bind_Ok.
  apply IH. intros; apply Hg. by right.
Qed.
End relax.

(** ** Counting the edges released by a level *)

Lemma occurrences_bind s (g : string → list string) l :
  occurrences s (l ≫= g) = sum_list_with (λ c, occurrences s (g c)) l.
Proof.
  induction l as [|c l IH]; [done|].
  change ((c :: l) ≫= g) with (g c ++ (l ≫= g)).
  rewrite occurrences_app, IH. done.
Qed.

Lemma occurrences_dependents_of table visited s c :
  occurrences s (dependents_of table visited c) =
  (occurrences s visited * occurrences c (prerequisites table s))%nat.
Proof.
  unfold dependents_of. induction visited as [|v visited IH]; [done|].
  change ((v :: visited) ≫= ?g) with (g v ++ (visited ≫= g)).
  rewrite occurrences_app, IH, occurrences_replicate, occurrences_cons.
  destruct (decide (s = v)) as [->|Hne]; lia.
Qed.

Lemma sum_occurrences_cons y l current :
  sum_list_with (λ c, occurrences c (y :: l)) current =
  (occurrences y current + sum_list_with (λ c, occurrences c l) current)%nat.
Proof.
  induction current as [|c current IH]; [done|].
  cbn [sum_list_with]. rewrite IH, (occurrences_cons c y), (occurrences_cons y c).
  destruct (decide (c = y)) as [->|Hne].
  - rewrite decide_True by done. lia.
  - rewrite decide_False by (intros ->; done). lia.
Qed.

Lemma sum_occurrences current l :
  NoDup current →
  sum_list_with (λ c, occurrences c l) current = length (filter (.∈ current) l).
Proof.
  intros Hnodup. induction l as [|y l IH].
  - clear Hnodup. induction current as [|c current IH]; [done|].
    cbn [sum_list_with]. by rewrite IH.
  - rewrite filter_cons, sum_occurrences_cons, IH.
    destruct (decide (y ∈ current)) as [Hy|Hy].
    + rewrite occurrences_NoDup by done. done.
    + destruct (occurrences y current) eqn:E; [done|].
      exfalso. apply Hy, occurrences_pos. lia.
Qed.

Lemma filter_nil_iff {A} (P : A → Prop) `{!∀ x, Decision (P x)} (l : list A) :
  filter P l = [] ↔ ∀ x, x ∈ l → ¬ P x.
Proof.
  split.
  - intros Hnil x Hx HP. by apply (filter_nil_not_elem_of P l x).
  - intros Hall. induction l as [|x l IH]; [done|].
    rewrite filter_cons, decide_False by (apply Hall; left).
    apply IH. intros y Hy. apply Hall. by right.
Qed.

Lemma length_filter_split {A} (P Q R : A → Prop)
    `{!∀ x, Decision (P x), !∀ x, Decision (Q x), !∀ x, Decision (R x)} (l : list A) :
  (∀ x, x ∈ l → P x ↔ Q x ∨ R x) →
  (∀ x, x ∈ l → Q x → R x → False) →
  length (filter P l) = (length (filter Q l) + length (filter R l))%nat.
Proof.
  induction l as [|x l IH]; intros Hiff Hex; [done|].
  assert (length (filter P l) = (length (filter Q l) + length (filter R l))%nat) as IH'.
  { apply IH; intros y Hy; [apply Hiff|apply Hex]; by right. }
  specialize (Hiff x (list_elem_of_here _ _)).
  specialize (Hex x (list_elem_of_here _ _)).
  rewrite !filter_cons.
  destruct (decide (P x)), (decide (Q x)), (decide (R x));
    cbn [length]; rewrite ?IH'; (lia || tauto).
Qed.

(** ** The level loop on a duplicate-free candidate list *)

Section kahn.
Variable table : gmap string (list string).
Variable services : list string.
Hypothesis services_distinct : NoDup services.

Local Abbreviation isp := (in_set_prerequisites table services).
Local Abbreviation pending := (unmet table services).

Lemma in_set_prerequisites_in s d : d ∈ isp s → d ∈ services.
Proof. unfold in_set_prerequisites. by intros [? _]%list_elem_of_filter. Qed.

Lemma dependents_of_in c x : x ∈ dependents_of table services c → x ∈ services.
Proof.
  unfold dependents_of. intros (s & Hx & Hs)%list_elem_of_bind.
  by apply elem_of_replicate in Hx as [-> _].
Qed.

(** The edges a level releases, counted at one dependent. *)
Lemma released_count s current :
  NoDup current → (∀ c, c ∈ current → c ∈ services) → s ∈ services →
  occurrences s (current ≫= dependents_of table services) =
  length (filter (.∈ current) (isp s)).
Proof.
  intros Hcur Hsub Hs. rewrite occurrences_bind.
  rewrite <- (sum_occurrences current (isp s)) by done.
  clear Hcur. induction current as [|c current IH]; [done|].
  cbn [sum_list_with]. rewrite IH by (intros; apply Hsub; by right). f_equal.
  rewrite occurrences_dependents_of, occurrences_NoDup by done.
  unfold in_set_prerequisites.
  rewrite occurrences_filter by (apply Hsub; left). lia.
Qed.

Lemma unmet_nil_iff placed s :
  pending placed s = [] ↔ ∀ d, d ∈ isp s → d ∈ placed.
Proof.
  unfold unmet. rewrite filter_nil_iff. split.
  - intros Hall d Hd. destruct (decide (d ∈ placed)) as [|Hnot]; [done|].
    by destruct (Hall d Hd).
  - intros Hall d Hd Hnot. by apply Hnot, Hall.
Qed.


Lemma elem_of_sorted x l : x ∈ sorted l ↔ x ∈ l.
Proof. unfold sorted. by rewrite merge_sort_Permutation. Qed.

Lemma mjoin_snoc (levels : list (list string)) level :
  mjoin (levels ++ [level]) = mjoin levels ++ level.
Proof. rewrite join_app. simpl. by rewrite app_nil_r. Qed.

(** Releasing a level: what is left unmet afterwards. *)
Lemma unmet_release placed current s :
  NoDup (placed ++ current) →
  length (pending placed s) =
  (length (filter (.∈ current) (isp s)) +
   length (pending (placed ++ sorted current) s))%nat.
Proof.
  intros [_ [Hdisj _]]%NoDup_app. unfold unmet.
  apply length_filter_split.
  - intros x _. rewrite elem_of_app, elem_of_sorted. split.
    + intros Hx. destruct (decide (x ∈ current)); [by left|right]. by intros [?|?].
    + intros [Hx|Hx]; [|by intros ?; apply Hx; left].
      intros Hp. by apply (Hdisj x).
  - intros x _ Hx Hnot. apply Hnot. rewrite elem_of_app, elem_of_sorted. by right.
Qed.

Variable graph : gmap string (list string).
Hypothesis graph_built :
  ∀ x, x ∈ services → graph !! x = Some (dependents_of table services x).

(** One iteration of the [while] loop keeps the invariant. *)
Lemma kahn_step levels current_level in_degree :
  kahn_invariant table services levels current_level in_degree →
  ∃ in_degree' next_level,
    for_each (visit graph) current_level (in_degree, []) = Ok (in_degree', next_level) ∧
    kahn_invariant table services (levels ++ [sorted current_level]) next_level in_degree'.
Proof.
  intros [Hnodup Hsub Hdeg Hready Hord].
  assert (NoDup current_level) as Hcur by (by apply NoDup_app in Hnodup as (_ & _ & ?)).
  assert (∀ c, c ∈ current_level → c ∈ services) as Hcursub.
  { intros c Hc. apply Hsub. rewrite elem_of_app. by right. }
  rewrite (visit_flatten graph (dependents_of table services))
    by (intros; by apply graph_built, Hcursub).
  destruct (relax_fold services (current_level ≫= dependents_of table services)
              in_degree [] (λ s, Z.of_nat (length (pending (mjoin levels) s))))
    as (in_degree' & next_level & Hrun & Hdeg' & Hnext_nodup & Hnext); [done| |].
  { intros x (c & Hx & Hc)%list_elem_of_bind. by eapply dependents_of_in. }
  exists in_degree', next_level. split; [done|].
  assert (∀ s, s ∈ next_level → s ∈ services) as Hnextsub.
  { intros s [Hs1 Hs2]%Hnext.
    assert (s ∈ current_level ≫= dependents_of table services) as Hs
      by (apply occurrences_pos; lia).
    apply list_elem_of_bind in Hs as (c & Hs & Hc). by eapply dependents_of_in. }
  assert (∀ s, s ∈ services → s ∈ next_level ↔
            pending (mjoin levels) s ≠ [] ∧
            pending (mjoin levels ++ sorted current_level) s = []) as Hnext'.
  { intros s Hs. rewrite Hnext, released_count by done.
    pose proof (unmet_release (mjoin levels) current_level s Hnodup) as E.
    split.
    - intros [H1 H2]. split.
      + intros Hnil. rewrite Hnil in H1. simpl in H1. lia.
      + apply nil_length_inv. lia.
    - intros [H1 H2]. rewrite H2 in E. simpl in E.
      destruct (pending (mjoin levels) s); [done|]. simpl in *. lia. }
  split.
  - rewrite mjoin_snoc. apply NoDup_app. split; [|split; [|done]].
    + unfold sorted. by rewrite merge_sort_Permutation.
    + intros x Hx Hx'. pose proof (Hnextsub x Hx') as Hxs.
      apply Hnext' in Hx' as [Hne _]; [|done]. apply Hne, Hready; [done|].
      revert Hx. rewrite !elem_of_app, elem_of_sorted. done.
  - intros x. rewrite mjoin_snoc, !elem_of_app, elem_of_sorted.
    intros [[?|?]|?]; [apply Hsub; rewrite elem_of_app; by left|by apply Hcursub|by apply Hnextsub].
  - intros s Hs. rewrite mjoin_snoc, Hdeg' by done. f_equal.
    rewrite released_count by done.
    pose proof (unmet_release (mjoin levels) current_level s Hnodup). lia.
  - intros s Hs. rewrite mjoin_snoc, elem_of_app, (Hnext' s Hs). split.
    + intros [Hin|[_ ?]]; [|done].
      rewrite unmet_nil_iff. intros d Hd.
      assert (s ∈ mjoin levels ++ current_level) as Hin'
        by (revert Hin; rewrite !elem_of_app, elem_of_sorted; done).
      apply Hready in Hin'; [|done]. rewrite unmet_nil_iff in Hin'.
      rewrite elem_of_app. left. by apply Hin'.
    + intros Hnil. destruct (decide (pending (mjoin levels) s = [])) as [Hold|Hold].
      * left. apply Hready in Hold; [|done].
        revert Hold. rewrite !elem_of_app, elem_of_sorted. done.
      * by right.
  - intros i level s d Hi Hs Hd.
    apply lookup_app_Some in Hi as [Hi|[Hlen Hi]].
    + destruct (Hord i level s d Hi Hs Hd) as (j & level' & Hj & Hlook & Hd').
      exists j, level'. split; [done|]. split; [|done].
      apply lookup_app_Some. by left.
    + apply list_lookup_singleton_Some in Hi as [Hi <-].
      rewrite elem_of_sorted in Hs.
      assert (s ∈ services) as Hss by (by apply Hcursub).
      assert (pending (mjoin levels) s = []) as Hnil.
      { apply Hready; [done|]. rewrite elem_of_app. by right. }
      rewrite unmet_nil_iff in Hnil. apply Hnil in Hd.
      apply list_elem_of_join in Hd as (level' & Hd & Hlevel').
      apply list_elem_of_lookup in Hlevel' as [j Hj].
      exists j, level'. split; [|split; [|done]].
      * apply lookup_lt_Some in Hj. lia.
      * apply lookup_app_Some. by left.
Qed.

Lemma distinct_candidates_length l :
  NoDup l → (∀ x, x ∈ l → x ∈ services) → (length l ≤ length services)%nat.
Proof. intros Hl Hsub. by apply submseteq_length, NoDup_submseteq. Qed.

Lemma length_sorted l : length (sorted l) = length l.
Proof. unfold sorted. by rewrite merge_sort_Permutation. Qed.

(** The loop ends within the fuel, and its final state satisfies the
    invariant with nothing left in the current level. *)
Lemma kahn_levels_spec fuel :
  ∀ levels current_level in_degree,
    kahn_invariant table services levels current_level in_degree →
    (length services ≤ fuel + length (mjoin levels))%nat →
    ∃ levels' in_degree',
      kahn_levels fuel graph in_degree current_level levels = Ok (levels', in_degree') ∧
      kahn_invariant table services levels' [] in_degree'.
Proof.
  induction fuel as [|fuel IH]; intros levels current_level in_degree Hinv Hfuel.
  - destruct current_level as [|c cs]; [by exists levels, in_degree|].
    exfalso.
    pose proof (distinct_candidates_length _ (placed_distinct _ _ _ _ _ Hinv)
                  (placed_candidates _ _ _ _ _ Hinv)) as Hlen.
    rewrite length_app in Hlen. simpl in *. lia.
  - destruct current_level as [|c cs]; [by exists levels, in_degree|].
    cbn [kahn_levels].
    destruct (kahn_step levels (c :: cs) in_degree Hinv)
      as (in_degree' & next_level & -> & Hinv').
    rewrite bind_Ok. apply IH; [done|].
    pose proof (distinct_candidates_length _ (placed_distinct _ _ _ _ _ Hinv)
                  (placed_candidates _ _ _ _ _ Hinv)) as Hlen.
    rewrite mjoin_snoc, length_app, length_sorted.
    rewrite length_app in Hlen. simpl in *. lia.
Qed.
End kahn.

(** ** The three paths of [topological_sort] *)

Section paths.
Variable table : gmap string (list string).
Variable services : list string.

Local Abbreviation isp := (in_set_prerequisites table services).
Local Abbreviation pending := (unmet table services).

(** The first level: the candidates of in-degree zero, in input order. *)
Lemma first_level (in_degree : gmap string Z) :
  (∀ s, s ∈ services →
     in_degree !! s =
     Some (Z.of_nat (occurrences s services * in_degree_of table services s))) →
  select (λ s, n ← getitem in_degree s; Ok (n =? 0)) services =
  Ok (filter (λ s, in_degree_of table services s = 0%nat) services).
Proof.
  intros Hdeg. apply select_filter. intros s Hs.
  rewrite (getitem_Some _ _ _ (Hdeg s Hs)), bind_Ok. f_equal.
  assert (0 < occurrences s services)%nat by (by apply occurrences_pos).
  case_bool_decide as E.
  - rewrite E. apply Z.eqb_eq. lia.
  - apply Z.eqb_neq. nia.
Qed.

(** Path 1, lines 121-124: no candidate of in-degree zero. *)
Lemma topological_sort_blocked :
  Forall (λ s, in_degree_of table services s ≠ 0%nat) services →
  topological_sort table services =
  Ok ([no_zero_warning], (λ s, [s]) <$> services).
Proof.
  intros Hblocked. unfold topological_sort.
  destruct (build_graph_spec table services) as (graph & in_degree & -> & _ & Hdeg).
  rewrite bind_Ok. cbn beta iota. rewrite (first_level _ Hdeg), bind_Ok.
  replace (filter _ services) with (@nil string); [done|].
  symmetry. apply filter_nil_iff. intros s Hs.
  by apply (proj1 (Forall_forall _ _) Hblocked).
Qed.

Hypothesis services_distinct : NoDup services.

Lemma unmet_nothing_placed s : pending [] s = isp s.
Proof.
  unfold unmet. induction (isp s) as [|d l IH]; [done|].
  rewrite filter_cons, decide_True by apply not_elem_of_nil. by rewrite IH.
Qed.

(** Paths 2 and 3, lines 126-146: some candidate has in-degree zero.  The
    levels of the loop satisfy the invariant; they are the plan when they
    hold every candidate, and otherwise one more level holds the rest. *)
Lemma topological_sort_levelled :
  ¬ Forall (λ s, in_degree_of table services s ≠ 0%nat) services →
  ∃ kahn in_degree,
    kahn_invariant table services kahn [] in_degree ∧
    ((length (mjoin kahn) = length services ∧
      topological_sort table services = Ok ([], kahn)) ∨
     (length (mjoin kahn) ≠ length services ∧
      let remaining := filter (.∉ mjoin kahn) services in
      topological_sort table services =
      Ok (cycle_warning remaining, kahn ++ [sorted remaining]))).
Proof.
  intros Hfree. unfold topological_sort.
  destruct (build_graph_spec table services) as (graph & in_degree & -> & Hgraph & Hdeg).
  rewrite bind_Ok. cbn beta iota. rewrite (first_level _ Hdeg), bind_Ok.
  set (current_level := filter _ services).
  assert (kahn_invariant table services [] current_level in_degree) as Hinv.
  { split; simpl.
    - by apply NoDup_filter.
    - by intros x [_ ?]%list_elem_of_filter.
    - intros s Hs. rewrite Hdeg, unmet_nothing_placed, occurrences_NoDup by done.
      unfold in_degree_of. do 2 f_equal. lia.
    - intros s Hs. rewrite unmet_nothing_placed. unfold current_level.
      rewrite list_elem_of_filter. unfold in_degree_of. split.
      + intros [E _]. by apply nil_length_inv.
      + intros ->. done.
    - intros i level s d Hi. by rewrite lookup_nil in Hi. }
  destruct current_level as [|c cs] eqn:Hcur.
  { destruct Hfree. apply Forall_forall. intros s Hs E.
    assert (s ∈ filter (λ s, in_degree_of table services s = 0%nat) services) as Hin
      by (by apply list_elem_of_filter).
    fold current_level in Hin. rewrite Hcur in Hin. by apply elem_of_nil in Hin. }
  destruct (kahn_levels_spec table services services_distinct graph Hgraph
              (length services) [] (c :: cs) in_degree Hinv)
    as (kahn & in_degree' & -> & Hinv'); [simpl; lia|].
  rewrite bind_Ok. cbn beta iota. rewrite <- length_join.
  exists kahn, in_degree'. split; [done|].
  case_bool_decide as Hlen; [right|left; done].
  split; [done|]. cbn zeta.
  rewrite (select_filter _ (.∉ mjoin kahn)); [done|].
  intros s Hs.
  rewrite (getitem_Some _ _ _ (in_degree_unmet _ _ _ _ _ Hinv' s Hs)), bind_Ok. f_equal.
  pose proof (placed_iff_ready _ _ _ _ _ Hinv' s Hs) as Hready.
  rewrite app_nil_r in Hready.
  case_bool_decide as E.
  - apply Z.ltb_lt. destruct (pending (mjoin kahn) s); [|simpl; lia].
    destruct E. by apply Hready.
  - apply Z.ltb_ge. apply Hready in E. rewrite E. simpl. lia.
Qed.
End paths.

(** ** The plan holds every candidate once *)

Lemma mjoin_singletons (l : list string) : mjoin ((λ s, [s]) <$> l) = l.
Proof. induction l as [|x l IH]; [done|]. simpl. by f_equal. Qed.

Lemma level_index_lookup (levels : list (list string)) i level s :
  NoDup (mjoin levels) → levels !! i = Some level → s ∈ level →
  level_index levels s = Some i.
Proof.
  revert i. induction levels as [|first rest IH]; intros i Hnodup Hi Hs; [done|].
  simpl in Hnodup. apply NoDup_app in Hnodup as (_ & Hdisj & Hrest).
  destruct i as [|i]; simpl in *.
  - injection Hi as ->. by rewrite bool_decide_eq_true_2.
  - rewrite bool_decide_eq_false_2.
    + by rewrite (IH i Hrest Hi Hs).
    + intros Hfirst. apply (Hdisj s Hfirst).
      apply list_elem_of_join. exists level. split; [done|].
      by apply list_elem_of_lookup_2 in Hi.
Qed.

Section plan.
Variable table : gmap string (list string).
Variable services : list string.
Hypothesis services_distinct : NoDup services.

Local Abbreviation isp := (in_set_prerequisites table services).

(** On distinct candidates the function returns, and the levels it returns
    hold the candidates, each once. *)
Lemma plan_permutation :
  ∃ printed levels,
    topological_sort table services = Ok (printed, levels) ∧
    mjoin levels ≡ₚ services.
Proof.
  destruct (decide (Forall (λ s, in_degree_of table services s ≠ 0%nat) services))
    as [Hblocked|Hfree].
  - rewrite (topological_sort_blocked _ _ Hblocked).
    eexists _, _. split; [done|]. by rewrite mjoin_singletons.
  - destruct (topological_sort_levelled _ _ services_distinct Hfree)
      as (kahn & in_degree & Hinv & [[Hlen ->]|[Hlen Hrun]]).
    + eexists _, _. split; [done|].
      pose proof (placed_distinct _ _ _ _ _ Hinv) as Hnodup.
      pose proof (placed_candidates _ _ _ _ _ Hinv) as Hsub.
      rewrite app_nil_r in Hnodup.
      apply submseteq_length_Permutation; [|lia].
      apply NoDup_submseteq; [done|].
      intros x Hx. apply Hsub. rewrite app_nil_r. done.
    + cbn zeta in Hrun. rewrite Hrun. eexists _, _. split; [done|].
      pose proof (placed_distinct _ _ _ _ _ Hinv) as Hnodup.
      pose proof (placed_candidates _ _ _ _ _ Hinv) as Hsub.
      rewrite app_nil_r in Hnodup.
      rewrite join_app. simpl. rewrite app_nil_r.
      unfold sorted. rewrite merge_sort_Permutation.
      apply NoDup_Permutation; [|done|].
      * apply NoDup_app. split; [done|]. split; [|by apply NoDup_filter].
        intros x Hx [Hnot _]%list_elem_of_filter. done.
      * intros x. rewrite elem_of_app, list_elem_of_filter. split.
        -- intros [Hx|[_ ?]]; [|done]. apply Hsub. by rewrite app_nil_r.
        -- intros Hx. destruct (decide (x ∈ mjoin kahn)); [by left|by right].
Qed.

(** ** Acyclic candidate sets *)

Lemma depends_on_sn :
  acyclic table services → ∀ s, sn (depends_on table services) s.
Proof.
  intros Hacyclic s. apply tc_finite_sn; [exact Hacyclic|].
  exists services. intros y Hy.
  induction Hy as [x y [_ Hy]|x y z _ _ IH]; [|done].
  unfold in_set_prerequisites in Hy. by apply list_elem_of_filter in Hy as [? _].
Qed.

Lemma acyclic_has_source :
  acyclic table services → services ≠ [] →
  ¬ Forall (λ s, in_degree_of table services s ≠ 0%nat) services.
Proof.
  intros Hacyclic Hne Hblocked.
  assert (∀ s, sn (depends_on table services) s → s ∈ services → False) as Hno.
  { induction 1 as [s _ IH]. intros Hs.
    pose proof (proj1 (Forall_forall _ _) Hblocked s Hs) as Hdeg.
    unfold in_degree_of in Hdeg.
    destruct (isp s) as [|d l] eqn:E; [done|].
    assert (d ∈ isp s) as Hd by (rewrite E; left).
    apply (IH d).
    - split; done.
    - unfold in_set_prerequisites in Hd. by apply list_elem_of_filter in Hd as [? _]. }
  destruct services as [|s l] eqn:E; [done|].
  apply (Hno s); [|left]. rewrite <- E. apply depends_on_sn. by rewrite E.
Qed.

Lemma acyclic_all_placed kahn in_degree :
  acyclic table services →
  kahn_invariant table services kahn [] in_degree →
  ∀ s, s ∈ services → s ∈ mjoin kahn.
Proof.
  intros Hacyclic Hinv s.
  induction (depends_on_sn Hacyclic s) as [s _ IH]. intros Hs.
  pose proof (placed_iff_ready _ _ _ _ _ Hinv s Hs) as Hready.
  rewrite app_nil_r in Hready. apply Hready.
  apply unmet_nil_iff. intros d Hd. apply IH.
  - split; done.
  - unfold in_set_prerequisites in Hd. by apply list_elem_of_filter in Hd as [? _].
Qed.

(** On an acyclic candidate set every in-set prerequisite of a service is
    in a strictly earlier level. *)
Lemma plan_respects_dependencies :
  acyclic table services →
  ∃ printed levels,
    topological_sort table services = Ok (printed, levels) ∧
    mjoin levels ≡ₚ services ∧
    respects_dependencies table services levels.
Proof.
  intros Hacyclic.
  destruct (decide (services = [])) as [Hnil|Hne].
  { destruct plan_permutation as (printed & levels & Hrun & Hperm).
    exists printed, levels. split; [done|]. split; [done|].
    intros s d Hs. rewrite Hnil in Hs. by apply elem_of_nil in Hs. }
  destruct (topological_sort_levelled _ _ services_distinct
              (acyclic_has_source Hacyclic Hne))
    as (kahn & in_degree & Hinv & Hcases).
  pose proof (placed_distinct _ _ _ _ _ Hinv) as Hnodup.
  pose proof (placed_candidates _ _ _ _ _ Hinv) as Hsub.
  rewrite app_nil_r in Hnodup.
  pose proof (acyclic_all_placed kahn in_degree Hacyclic Hinv) as Hall.
  assert (mjoin kahn ≡ₚ services) as Hperm.
  { apply NoDup_Permutation; [done..|]. intros x. split; [|apply Hall].
    intros Hx. apply Hsub. by rewrite app_nil_r. }
  destruct Hcases as [[_ Hrun]|[Hlen _]]; [|by rewrite Hperm in Hlen].
  exists [], kahn. split; [done|]. split; [done|].
  intros s d Hs Hd.
  pose proof (Hall s Hs) as Hin.
  apply list_elem_of_join in Hin as (level & Hin & Hlevel).
  apply list_elem_of_lookup in Hlevel as [i Hi].
  destruct (earlier_levels _ _ _ _ _ Hinv i level s d Hi Hin Hd)
    as (j & level' & Hj & Hlook & Hd').
  exists i, j. split; [by eapply level_index_lookup|].
  split; [by eapply level_index_lookup|done].
Qed.
End plan.

(** ** The dependency table of the source *)

Lemma ranked_acyclic table services (rank : string → nat) :
  (∀ s d, depends_on table services s d → (rank d < rank s)%nat) →
  acyclic table services.
Proof.
  intros Hrank s Hcycle.
  assert (∀ x y, tc (depends_on table services) x y → (rank y < rank x)%nat) as Htc.
  { induction 1 as [x y Hxy|x y z Hxy _ IH]; [by apply Hrank|].
    apply Hrank in Hxy. lia. }
  apply Htc in Hcycle. lia.
Qed.

Lemma SERVICE_DEPENDENCIES_tiers s d :
  d ∈ prerequisites SERVICE_DEPENDENCIES s → (tier d < tier s)%nat.
Proof.
  assert (map_Forall (λ s ds, Forall (λ d, tier d < tier s)%nat ds) SERVICE_DEPENDENCIES)
    as Hall by (apply (bool_decide_unpack _); vm_compute; exact I).
  unfold prerequisites. destruct (SERVICE_DEPENDENCIES !! s) as [ds|] eqn:E; simpl.
  - intros Hd. apply (proj1 (Forall_forall _ _) (Hall s ds E) d Hd).
  - by intros ?%elem_of_nil.
Qed.

(** The table of the source has no cycle, whatever the candidates. *)
Lemma SERVICE_DEPENDENCIES_acyclic services : acyclic SERVICE_DEPENDENCIES services.
Proof.
  apply (ranked_acyclic _ _ tier). intros s d [_ Hd].
  unfold in_set_prerequisites in Hd. apply list_elem_of_filter in Hd as [_ Hd].
  by apply SERVICE_DEPENDENCIES_tiers.
Qed.

(** On an acyclic candidate set no level holds a service together with one
    of its prerequisites. *)
Lemma levels_independent table services :
  NoDup services → acyclic table services →
  ∃ printed levels,
    topological_sort table services = Ok (printed, levels) ∧
    ∀ level s d, level ∈ levels → s ∈ level → d ∈ level →
      d ∉ in_set_prerequisites table services s.
Proof.
  intros Hnodup Hacyclic.
  destruct (plan_respects_dependencies table services Hnodup Hacyclic)
    as (printed & levels & Hrun & Hperm & Hresp).
  exists printed, levels. split; [done|].
  intros level s d Hlevel Hs Hd Hdep.
  assert (NoDup (mjoin levels)) as Hjoin by (by rewrite Hperm).
  assert (s ∈ services) as Hss.
  { rewrite <- Hperm. apply list_elem_of_join. by exists level. }
  destruct (Hresp s d Hss Hdep) as (i & j & Hi & Hj & Hlt).
  apply list_elem_of_lookup in Hlevel as [k Hk].
  rewrite (level_index_lookup levels k level s Hjoin Hk Hs) in Hi.
  rewrite (level_index_lookup levels k level d Hjoin Hk Hd) in Hj.
  simplify_eq. lia.
Qed.

(** ** The scheduler: statements *)

(** The three paths on concrete candidates: the levelled plan of the spec's
    example, the fallback when every candidate is blocked, and the final
    level that collects a cyclic remainder. *)
Example topological_sort_three_tiers :
  topological_sort SERVICE_DEPENDENCIES ["compute"; "identity"; "network"] =
  Ok ([], [["identity"]; ["network"]; ["compute"]]).
Proof. vm_compute. reflexivity. Qed.

Example topological_sort_one_level :
  topological_sort SERVICE_DEPENDENCIES ["oss"; "tagging"] =
  Ok ([], [["oss"; "tagging"]]).
Proof. vm_compute. reflexivity. Qed.

Example topological_sort_all_blocked :
  topological_sort cyclic_table ["b"; "a"] = Ok ([no_zero_warning], [["b"]; ["a"]]).
Proof. vm_compute. reflexivity. Qed.

Example topological_sort_cyclic_remainder :
  topological_sort cyclic_table ["d"; "c"; "b"; "a"] =
  Ok (cycle_warning ["d"; "b"; "a"], [["c"]; ["a"; "b"; "d"]]).
Proof. vm_compute. reflexivity. Qed.

(** C1.  For a list of distinct candidates whose in-set dependency edges have
    no cycle, [topological_sort] returns a plan in which a candidate and each
    of its prerequisites that is a candidate have a level index, and the
    level index of the service is strictly greater than the one of the
    prerequisite.  The table is arbitrary; the source's is
    [SERVICE_DEPENDENCIES]. *)
Theorem topological_sort_orders_prerequisites_first
    (table : gmap string (list string)) (services : list string) :
  NoDup services →
  acyclic table services →
  ∃ printed levels,
    topological_sort table services = Ok (printed, levels) ∧
    ∀ s d, s ∈ services → d ∈ services → d ∈ prerequisites table s →
      ∃ i j, level_index levels s = Some i ∧ level_index levels d = Some j ∧ (j < i)%nat.
Proof.
  intros Hnodup Hacyclic.
  destruct (plan_respects_dependencies table services Hnodup Hacyclic)
    as (printed & levels & Hrun & _ & Hresp).
  exists printed, levels. split; [done|].
  intros s d Hs Hd Hdep. apply Hresp; [done|].
  unfold in_set_prerequisites. by apply list_elem_of_filter.
Qed.

Lemma topological_sort_orders_prerequisites_first_witness :
  NoDup ["compute"; "identity"; "network"; "oss"] ∧
  acyclic SERVICE_DEPENDENCIES ["compute"; "identity"; "network"; "oss"] ∧
  ∃ printed levels,
    topological_sort SERVICE_DEPENDENCIES ["compute"; "identity"; "network"; "oss"] =
      Ok (printed, levels) ∧
    ∀ s d, s ∈ ["compute"; "identity"; "network"; "oss"] →
      d ∈ ["compute"; "identity"; "network"; "oss"] →
      d ∈ prerequisites SERVICE_DEPENDENCIES s →
      ∃ i j, level_index levels s = Some i ∧ level_index levels d = Some j ∧ (j < i)%nat.
Proof.
  assert (NoDup ["compute"; "identity"; "network"; "oss"]) as Hnodup
    by (apply (bool_decide_unpack _); vm_compute; exact I).
  split; [exact Hnodup|]. split; [apply SERVICE_DEPENDENCIES_acyclic|].
  apply (topological_sort_orders_prerequisites_first SERVICE_DEPENDENCIES
           ["compute"; "identity"; "network"; "oss"] Hnodup).
  apply SERVICE_DEPENDENCIES_acyclic.
Defined.

(** C5.  For every list of distinct candidates, no level of the plan that
    [topological_sort] returns under the source's dependency table holds a
    service together with one of its prerequisites. *)
Theorem topological_sort_level_has_no_internal_dependency (services : list string) :
  NoDup services →
  ∃ printed levels,
    topological_sort SERVICE_DEPENDENCIES services = Ok (printed, levels) ∧
    ∀ level s d, level ∈ levels → s ∈ level → d ∈ level →
      d ∉ prerequisites SERVICE_DEPENDENCIES s.
Proof.
  intros Hnodup.
  destruct (plan_permutation SERVICE_DEPENDENCIES services Hnodup)
    as (printed & levels & Hrun & Hperm).
  destruct (levels_independent SERVICE_DEPENDENCIES services Hnodup
              (SERVICE_DEPENDENCIES_acyclic services))
    as (printed' & levels' & Hrun' & Hindep).
  rewrite Hrun in Hrun'. injection Hrun' as <- <-.
  exists printed, levels. split; [done|].
  intros level s d Hlevel Hs Hd Hdep.
  apply (Hindep level s d Hlevel Hs Hd).
  unfold in_set_prerequisites. apply list_elem_of_filter. split; [|done].
  rewrite <- Hperm. apply list_elem_of_join. by exists level.
Qed.

Lemma topological_sort_level_has_no_internal_dependency_witness :
  NoDup ["compute"; "network"; "identity"; "oss"; "tagging"; "kms"] ∧
  ∃ printed levels,
    topological_sort SERVICE_DEPENDENCIES
      ["compute"; "network"; "identity"; "oss"; "tagging"; "kms"] = Ok (printed, levels) ∧
    ∀ level s d, level ∈ levels → s ∈ level → d ∈ level →
      d ∉ prerequisites SERVICE_DEPENDENCIES s.
Proof.
  assert (NoDup ["compute"; "network"; "identity"; "oss"; "tagging"; "kms"]) as Hnodup
    by (apply (bool_decide_unpack _); vm_compute; exact I).
  split; [exact Hnodup|].
  exact (topological_sort_level_has_no_internal_dependency _ Hnodup).
Defined.

(** Under a table with a cycle the last level of the plan collects the
    cyclic remainder, and there a service sits next to its prerequisite. *)
Remark cyclic_remainder_shares_a_level :
  ∃ printed levels,
    topological_sort cyclic_table ["d"; "c"; "b"; "a"] = Ok (printed, levels) ∧
    ∃ level, level ∈ levels ∧ "a" ∈ level ∧ "b" ∈ level ∧
             "b" ∈ prerequisites cyclic_table "a".
Proof.
  eexists _, _. split; [apply topological_sort_cyclic_remainder|].
  exists ["a"; "b"; "d"]. repeat split; apply (bool_decide_unpack _); vm_compute; exact I.
Qed.

(** C6.  When no candidate has in-degree zero under the restriction of the
    table to in-set edges, [topological_sort] prints the warning and returns
    one singleton level per candidate, in input order. *)
Theorem topological_sort_blocked_candidates_keep_input_order
    (table : gmap string (list string)) (services : list string) :
  Forall (λ s, in_degree_of table services s ≠ 0%nat) services →
  topological_sort table services = Ok ([no_zero_warning], (λ s, [s]) <$> services).
Proof. apply topological_sort_blocked. Qed.

Lemma topological_sort_blocked_candidates_keep_input_order_witness :
  Forall (λ s, in_degree_of cyclic_table ["b"; "a"] s ≠ 0%nat) ["b"; "a"] ∧
  topological_sort cyclic_table ["b"; "a"] = Ok ([no_zero_warning], [["b"]; ["a"]]).
Proof.
  assert (Forall (λ s, in_degree_of cyclic_table ["b"; "a"] s ≠ 0%nat) ["b"; "a"]) as H
    by (apply (bool_decide_unpack _); vm_compute; exact I).
  split; [exact H|].
  exact (topological_sort_blocked_candidates_keep_input_order cyclic_table ["b"; "a"] H).
Defined.

(** C10.  For every list of distinct candidates, and every table,
    [topological_sort] returns levels whose concatenation is a permutation of
    the input: every candidate is in the plan, once, whether the plan comes
    from the level loop alone, from the fallback, or ends with the level of
    the cyclic remainder. *)
Theorem topological_sort_plan_is_permutation
    (table : gmap string (list string)) (services : list string) :
  NoDup services →
  ∃ printed levels,
    topological_sort table services = Ok (printed, levels) ∧
    mjoin levels ≡ₚ services ∧
    NoDup (mjoin levels).
Proof.
  intros Hnodup.
  destruct (plan_permutation table services Hnodup) as (printed & levels & Hrun & Hperm).
  exists printed, levels. split; [done|]. split; [done|]. by rewrite Hperm.
Qed.

Lemma topological_sort_plan_is_permutation_witness :
  NoDup ["d"; "c"; "b"; "a"] ∧
  ∃ printed levels,
    topological_sort cyclic_table ["d"; "c"; "b"; "a"] = Ok (printed, levels) ∧
    mjoin levels ≡ₚ ["d"; "c"; "b"; "a"] ∧
    NoDup (mjoin levels).
Proof.
  assert (NoDup ["d"; "c"; "b"; "a"]) as Hnodup
    by (apply (bool_decide_unpack _); vm_compute; exact I).
  split; [exact Hnodup|].
  exact (topological_sort_plan_is_permutation cyclic_table _ Hnodup).
Defined.

(** ** The level loop ends on every input *)

Section totality.
Variable table : gmap string (list string).
Variable services : list string.
Variable graph : gmap string (list string).
Hypothesis graph_built :
  ∀ x, x ∈ services → graph !! x = Some (dependents_of table services x).

(** Each iteration that fills a next level takes its members out of the
    candidates whose in-degree is positive, so the fuel outlasts the loop
    whether or not the candidates are distinct. *)
Lemma kahn_levels_total fuel :
  ∀ levels current_level (in_degree : gmap string Z) (n : string → Z),
    (∀ s, s ∈ services → in_degree !! s = Some (n s)) →
    (∀ c, c ∈ current_level → c ∈ services) →
    (current_level ≠ [] → (length (still_blocked services n) < fuel)%nat) →
    ∃ levels' in_degree' n',
      kahn_levels fuel graph in_degree current_level levels = Ok (levels', in_degree') ∧
      (∀ s, s ∈ services → in_degree' !! s = Some (n' s)).
Proof.
  induction fuel as [|fuel IH]; intros levels current_level in_degree n Hn Hsub Hfuel.
  - destruct current_level as [|c cs]; [by exists levels, in_degree, n|].
    assert (length (still_blocked services n) < 0)%nat by (by apply Hfuel). lia.
  - destruct current_level as [|c cs]; [by exists levels, in_degree, n|].
    cbn [kahn_levels].
    rewrite (visit_flatten graph (dependents_of table services))
      by (intros; by apply graph_built, Hsub).
    set (ds := (c :: cs) ≫= dependents_of table services).
    assert (∀ x, x ∈ ds → x ∈ services) as Hds.
    { intros x (c' & Hx & _)%list_elem_of_bind.
      unfold dependents_of in Hx. apply list_elem_of_bind in Hx as (s & Hx & Hs).
      by apply elem_of_replicate in Hx as [-> _]. }
    destruct (relax_fold services ds in_degree [] n Hn Hds)
      as (in_degree' & new & -> & Hn' & Hnodup & Hnew).
    rewrite bind_Ok. cbn beta iota.
    apply (IH _ _ _ (λ s, n s - Z.of_nat (occurrences s ds))); [done| |].
    + intros x Hx%Hnew. apply Hds, occurrences_pos. lia.
    + intros Hne.
      assert (length (still_blocked services n) < S fuel)%nat as Hlt by (by apply Hfuel).
      assert (new ++ still_blocked services (λ s, n s - Z.of_nat (occurrences s ds))
                ⊆+ still_blocked services n) as Hsubm.
      { apply NoDup_submseteq.
        - apply NoDup_app. split; [done|]. split.
          + intros x Hx [Hpos _]%list_elem_of_filter. apply Hnew in Hx. lia.
          + apply NoDup_filter, NoDup_remove_dups.
        - intros x [Hx|Hx]%elem_of_app.
          + apply list_elem_of_filter. apply Hnew in Hx as Hx'. split; [lia|].
            apply elem_of_remove_dups, Hds, occurrences_pos. lia.
          + apply list_elem_of_filter in Hx as [Hpos Hx].
            apply list_elem_of_filter. split; [lia|done]. }
      apply submseteq_length in Hsubm. rewrite length_app in Hsubm.
      destruct new; [done|]. simpl in Hsubm. lia.
Qed.
End totality.

(** [topological_sort] returns on every table and every list of candidates:
    no dictionary lookup fails and the fuel is never spent. *)
Lemma topological_sort_total (table : gmap string (list string)) (services : list string) :
  ∃ printed levels, topological_sort table services = Ok (printed, levels).
Proof.
  unfold topological_sort.
  destruct (build_graph_spec table services) as (graph & in_degree & -> & Hgraph & Hdeg).
  rewrite bind_Ok. cbn beta iota. rewrite (first_level _ _ _ Hdeg), bind_Ok.
  destruct (filter _ services) as [|c cs] eqn:Hcur; [by eexists _, _|].
  assert (c ∈ services ∧ in_degree_of table services c = 0%nat) as [Hc Hc0].
  { assert (c ∈ c :: cs) as Hin by left. rewrite <- Hcur in Hin.
    by apply list_elem_of_filter in Hin as [? ?]. }
  destruct (kahn_levels_total table services graph Hgraph (length services) []
              (c :: cs) in_degree _ Hdeg)
    as (levels & in_degree' & n' & -> & Hn').
  - intros x Hx. rewrite <- Hcur in Hx. by apply list_elem_of_filter in Hx as [_ ?].
  - intros _. unfold still_blocked.
    eapply Nat.lt_le_trans; [apply (length_filter_lt _ _ c)|].
    + by apply elem_of_remove_dups.
    + rewrite Hc0. lia.
    + apply submseteq_length, NoDup_submseteq; [apply NoDup_remove_dups|].
      intros x. by rewrite elem_of_remove_dups.
  - rewrite bind_Ok. cbn beta iota. case_bool_decide; [|by eexists _, _].
    rewrite (select_filter _ (λ s, 0 < n' s)); [by eexists _, _|].
    intros s Hs. rewrite (getitem_Some _ _ _ (Hn' s Hs)), bind_Ok. f_equal.
    case_bool_decide; [by apply Z.ltb_lt|by apply Z.ltb_ge; lia].
Qed.

(** ** The runner: one service *)

Section runner.
Variable env : process_environment.
Variables service_name service_dir region : string.
Variable retry : Z.
Variable calls : list call.

(** The init step failed: the result is returned before the duration is
    taken, and the plan or apply step is not run. *)
Lemma init_failure action init_result :
  subprocess_run env calls (init_call service_dir) = Returned init_result →
  returncode init_result ≠ 0 →
  execute_terraform_for_service env service_name service_dir action region retry calls =
  (with_output
     (with_error (initial_result service_name retry)
        ("Init failed: " +:+ stderr init_result))
     (stdout init_result +:+ stderr init_result),
   calls ++ [init_call service_dir]).
Proof.
  intros Hinit Hcode. unfold execute_terraform_for_service.
  rewrite Hinit. by rewrite bool_decide_eq_true_2.
Qed.

(** Both steps completed. *)
Lemma action_completes action init_result tf_result :
  subprocess_run env calls (init_call service_dir) = Returned init_result →
  returncode init_result = 0 →
  subprocess_run env (calls ++ [init_call service_dir]) (action_call action service_dir) =
    Returned tf_result →
  execute_terraform_for_service env service_name service_dir action region retry calls =
  (with_duration (action_completed action (initial_result service_name retry) tf_result)
     (time_time env (calls ++ [init_call service_dir; action_call action service_dir])
      - time_time env calls)%Q,
   calls ++ [init_call service_dir; action_call action service_dir]).
Proof.
  intros Hinit Hcode Hrun. unfold execute_terraform_for_service.
  rewrite Hinit. rewrite bool_decide_eq_false_2 by (by intros ?).
  rewrite Hrun. by rewrite <- app_assoc.
Qed.

(** A plan that exits with 0 or 2 succeeds, and its counters are whatever
    [parse_plan_summary] reads in the standard output. *)
Lemma plan_success init_result tf_result :
  subprocess_run env calls (init_call service_dir) = Returned init_result →
  returncode init_result = 0 →
  subprocess_run env (calls ++ [init_call service_dir]) (action_call "plan" service_dir) =
    Returned tf_result →
  returncode tf_result = 0 ∨ returncode tf_result = 2 →
  let result :=
    (execute_terraform_for_service env service_name service_dir "plan" region retry calls).1 in
  success result = true ∧ error result = None ∧
  output result = stdout tf_result ∧
  resources_created result = summary_add (parse_plan_summary (stdout tf_result)) ∧
  resources_changed result = summary_change (parse_plan_summary (stdout tf_result)) ∧
  resources_destroyed result = summary_destroy (parse_plan_summary (stdout tf_result)).
Proof.
  intros Hinit Hcode Hrun Hexit.
  rewrite (action_completes "plan" _ _ Hinit Hcode Hrun). cbn [fst].
  unfold action_completed. rewrite bool_decide_eq_true_2 by done.
  destruct Hexit as [-> | ->]; done.
Qed.

(** A plan that exits with any other status fails; the error text carries
    the exit status and the standard error, which is also appended to the
    output. *)
Lemma plan_failure init_result tf_result :
  subprocess_run env calls (init_call service_dir) = Returned init_result →
  returncode init_result = 0 →
  subprocess_run env (calls ++ [init_call service_dir]) (action_call "plan" service_dir) =
    Returned tf_result →
  returncode tf_result ≠ 0 → returncode tf_result ≠ 2 →
  let result :=
    (execute_terraform_for_service env service_name service_dir "plan" region retry calls).1 in
  success result = false ∧
  error result =
    Some ("Plan failed (exit code " +:+ pretty (returncode tf_result) +:+ "): "
          +:+ stderr tf_result) ∧
  output result =
    stdout tf_result +:+ newline +:+ newline +:+ "STDERR:" +:+ newline +:+ stderr tf_result.
Proof.
  intros Hinit Hcode Hrun H0 H2.
  rewrite (action_completes "plan" _ _ Hinit Hcode Hrun). cbn [fst].
  unfold action_completed. rewrite bool_decide_eq_true_2 by done.
  by rewrite !bool_decide_eq_false_2 by done.
Qed.

(** A timeout of the init step and a timeout of the plan or apply step leave
    the same error text, which names the action and thirty minutes. *)
Lemma init_timeout action message :
  subprocess_run env calls (init_call service_dir) = Raised (TimeoutExpired message) →
  let result :=
    (execute_terraform_for_service env service_name service_dir action region retry calls).1 in
  success result = false ∧
  error result = Some ("Terraform " +:+ action +:+ " timed out after 30 minutes").
Proof. intros Hinit. unfold execute_terraform_for_service. by rewrite Hinit. Qed.

Lemma action_timeout action init_result message :
  subprocess_run env calls (init_call service_dir) = Returned init_result →
  returncode init_result = 0 →
  subprocess_run env (calls ++ [init_call service_dir]) (action_call action service_dir) =
    Raised (TimeoutExpired message) →
  let result :=
    (execute_terraform_for_service env service_name service_dir action region retry calls).1 in
  success result = false ∧
  error result = Some ("Terraform " +:+ action +:+ " timed out after 30 minutes").
Proof.
  intros Hinit Hcode Hrun. unfold execute_terraform_for_service.
  rewrite Hinit. rewrite bool_decide_eq_false_2 by (by intros ?). by rewrite Hrun.
Qed.

(** Whatever the environment does, the result is for the service asked for,
    and the calls made are the earlier ones followed by one or two calls in
    the directory of the service. *)
Lemma execute_terraform_for_service_shape action :
  let '(result, calls') :=
    execute_terraform_for_service env service_name service_dir action region retry calls in
  service result = service_name ∧
  ∃ new, calls' = calls ++ new ∧ Forall (λ c, cwd c = service_dir) new.
Proof.
  unfold execute_terraform_for_service.
  destruct (subprocess_run env calls (init_call service_dir)) as [init_result|e].
  - case_bool_decide.
    + split; [done|]. exists [init_call service_dir]. split; [done|]. by repeat constructor.
    + destruct (subprocess_run env _ (action_call action service_dir)) as [tf_result|e].
      * split.
        -- unfold action_completed. repeat case_bool_decide; simpl; repeat case_match; done.
        -- exists [init_call service_dir; action_call action service_dir].
           split; [by rewrite <- app_assoc|]. by repeat constructor.
      * split; [by destruct e|].
        exists [init_call service_dir; action_call action service_dir].
        split; [by rewrite <- app_assoc|]. by repeat constructor.
  - split; [by destruct e|]. exists [init_call service_dir].
    split; [done|]. by repeat constructor.
Qed.
End runner.

(** ** The summary parser *)

Lemma parse_plan_summary_without_plan_line output :
  Forall (λ line, contains "Plan:" line = false) (split_on "010" output) →
  parse_plan_summary output = no_changes.
Proof.
  unfold parse_plan_summary. generalize no_changes as s.
  induction (split_on "010" output) as [|line lines IH]; intros s Hlines; [done|].
  apply Forall_cons in Hlines as [Hline Hlines]. simpl.
  unfold parse_plan_line at 2. rewrite Hline. by apply IH.
Qed.

Lemma scan_plan_part_unchanged parts s i part :
  (part = "add," ∨ part = "change," ∨ part = "destroy." →
   parts !! (i - 1)%nat ≫= py_int = None) →
  scan_plan_part parts s i part = s.
Proof.
  intros Hprev. unfold scan_plan_part, set_add, set_change, set_destroy.
  repeat case_bool_decide; simpl; try done; rewrite Hprev; auto.
Qed.

(** The word before [add,], [change,] and [destroy.] in the summary line of
    the tool is [to], which is no number: the line leaves the counters as
    they were, whatever its three numbers are. *)
Lemma parse_plan_line_of_the_tool s line a c d :
  words line = ["Plan:"; a; "to"; "add,"; c; "to"; "change,"; d; "to"; "destroy."] →
  is_Some (py_int a) → is_Some (py_int c) → is_Some (py_int d) →
  parse_plan_line s line = s.
Proof.
  intros Hwords [na Ha] [nc Hc] [nd Hd]. unfold parse_plan_line.
  destruct (contains "Plan:" line); [|done]. rewrite Hwords.
  assert (∀ x n, py_int x = Some n →
            x ≠ "add," ∧ x ≠ "change," ∧ x ≠ "destroy.") as Hnum.
  { intros x n Hx. repeat split; intros ->; vm_compute in Hx; discriminate. }
  destruct (Hnum a na Ha) as (? & ? & ?).
  destruct (Hnum c nc Hc) as (? & ? & ?).
  destruct (Hnum d nd Hd) as (? & ? & ?).
  set (parts := ["Plan:"; a; "to"; "add,"; c; "to"; "change,"; d; "to"; "destroy."]).
  unfold parts at 2. cbn [fold_enumerate].
  do 10 (rewrite scan_plan_part_unchanged;
         [|first [ by (intros [?|[?|?]]; congruence)
                 | intros _; vm_compute; reflexivity ]]).
  done.
Qed.

Example parse_plan_summary_of_the_tool :
  parse_plan_summary "Plan: 3 to add, 1 to change, 0 to destroy." = no_changes.
Proof. vm_compute. reflexivity. Qed.

Example parse_apply_summary_of_the_tool :
  parse_apply_summary "Apply complete! Resources: 2 added, 0 changed, 1 destroyed." =
  {| summary_add := 2; summary_change := 0; summary_destroy := 1 |}.
Proof. vm_compute. reflexivity. Qed.

(** A number right before [add,] is read, also when the plan exits with 0. *)
Example plan_exit_zero_with_counters :
  let result :=
    (execute_terraform_for_service (completing 0 "Plan: 3 add, 1 change, 0 destroy." "")
       "network" "toronto/network" "plan" "ca-toronto-1" 0 []).1 in
  success result = true ∧
  (resources_created result, resources_changed result, resources_destroyed result) = (3, 1, 0).
Proof. vm_compute. split; reflexivity. Qed.

(** ** The level loop of [main] *)

Lemma last_items_app {A} (l k : list A) :
  k ≠ [] → last_items (length k) (l ++ k) = k.
Proof.
  intros Hk. unfold last_items.
  rewrite decide_False by (by destruct k).
  rewrite length_app.
  replace (length l + length k - length k)%nat with (length l) by lia.
  by rewrite drop_app_length.
Qed.


Section engine.
Variable env : process_environment.
Variable args : arguments.

Local Abbreviation calls_for := (calls_for (working_dir args)).

Lemma calls_for_mono l l' new :
  (∀ s, s ∈ l → s ∈ l') → calls_for l new → calls_for l' new.
Proof.
  intros Hsub Hnew. eapply Forall_impl; [exact Hnew|]. intros c (s & Hs & Hc). eauto.
Qed.

(** Running services one after the other: one result per service, in order,
    and calls in their directories only. *)
Lemma run_in_order (services : list string) :
  ∀ (acc : list ExecutionResult) (calls : list call),
    ∃ results new,
      foldl
        (λ '(all_results, calls) service_name,
           let '(result, calls) :=
             execute_terraform_for_service env service_name
               (service_directory (working_dir args) service_name)
               (action args) (region args) 0 calls in
           (all_results ++ [result], calls))
        (acc, calls) services = (acc ++ results, calls ++ new) ∧
      service <$> results = services ∧
      calls_for services new.
Proof.
  induction services as [|s services IH]; intros acc calls.
  - exists [], []. simpl. rewrite !app_nil_r. repeat split. constructor.
  - cbn [foldl].
    pose proof (execute_terraform_for_service_shape env s
                  (service_directory (working_dir args) s) (region args) 0 calls
                  (action args)) as Hshape.
    destruct (execute_terraform_for_service env s _ (action args) (region args) 0 calls)
      as [result calls1].
    destruct Hshape as (Hservice & new1 & -> & Hnew1).
    destruct (IH (acc ++ [result]) (calls ++ new1)) as (results & new & -> & Hservices & Hnew).
    exists (result :: results), (new1 ++ new).
    rewrite <- !app_assoc. split; [done|]. split.
    + rewrite fmap_cons. by rewrite Hservice, Hservices.
    + apply Forall_app. split.
      * eapply Forall_impl; [exact Hnew1|]. intros c Hc. exists s. split; [left|done].
      * eapply calls_for_mono; [|exact Hnew]. intros ? ?. by right.
Qed.

Hypothesis completion_order_permutes : ∀ l, completion_order env l ≡ₚ l.

Lemma execute_services_in_parallel_spec services calls :
  ∃ results new,
    execute_services_in_parallel env services (working_dir args) (action args)
      (region args) (max_workers args) calls = (results, calls ++ new) ∧
    service <$> results ≡ₚ services ∧
    calls_for services new.
Proof.
  assert (∃ results new,
    foldl
      (λ '(results, calls) service_name,
         let '(result, calls) :=
           execute_terraform_for_service env service_name
             (service_directory (working_dir args) service_name)
             (action args) (region args) 0 calls in
         (results ++ [result], calls))
      ([], calls) (completion_order env services) = (results, calls ++ new) ∧
    service <$> results ≡ₚ services ∧ calls_for services new) as Hpool.
  { destruct (run_in_order (completion_order env services) [] calls)
      as (results & new & Hrun & Hservices & Hnew).
    exists results, new. split; [exact Hrun|]. split.
    - by rewrite Hservices.
    - eapply calls_for_mono; [|exact Hnew]. intros s. by rewrite completion_order_permutes. }
  unfold execute_services_in_parallel.
  destruct services as [|only [|second rest]]; [exact Hpool| |exact Hpool].
  destruct (run_in_order [only] [] calls) as (results & new & Hrun & Hservices & Hnew).
  cbn [foldl] in Hrun.
  destruct (execute_terraform_for_service env only _ (action args) (region args) 0 calls)
    as [result calls1].
  simpl in Hrun. injection Hrun as <- ->.
  exists [result], new. split; [done|]. split; [by rewrite Hservices|done].
Qed.

(** A level that is run, not simulated: its results follow the earlier ones,
    one per service of the level, and the calls are for its services. *)
Lemma execute_level_spec level acc calls :
  dry_run args = false →
  ∃ results new,
    execute_level env args level (acc, calls) = (acc ++ results, calls ++ new) ∧
    service <$> results ≡ₚ level ∧
    calls_for level new.
Proof.
  intros Hdry. unfold execute_level. rewrite Hdry.
  destruct (parallel args && bool_decide (1 < length level)%nat).
  - destruct (execute_services_in_parallel_spec level calls)
      as (results & new & -> & Hservices & Hnew).
    by exists results, new.
  - destruct (run_in_order level acc calls) as (results & new & Hrun & Hservices & Hnew).
    exists results, new. split; [exact Hrun|]. split; [by rewrite Hservices|done].
Qed.

(** The shape of a run: the levels attempted are a prefix of the plan; the
    results are one per service of the attempted levels; a result that is not
    a success belongs to the last attempted level; and when a level was left
    unattempted, some result is not a success. *)
Lemma execute_levels_shape levels :
  dry_run args = false →
  ∀ acc calls,
    Forall (λ r, success r = true) acc →
    ∃ attempted unattempted results new,
      levels = attempted ++ unattempted ∧
      execute_levels env args levels (acc, calls) = (acc ++ results, calls ++ new) ∧
      service <$> results ≡ₚ mjoin attempted ∧
      calls_for (mjoin attempted) new ∧
      (∀ r, r ∈ results → success r = false →
         ∃ level, last attempted = Some level ∧ service r ∈ level) ∧
      (unattempted ≠ [] → ∃ r, r ∈ results ∧ success r = false).
Proof.
  intros Hdry. induction levels as [|level rest IH]; intros acc calls Hacc.
  - exists [], [], [], []. simpl. rewrite !app_nil_r. repeat split; try done.
    + constructor.
    + by intros r ?%elem_of_nil.
  - cbn [execute_levels].
    destruct (execute_level_spec level acc calls Hdry)
      as (results1 & new1 & -> & Hservices1 & Hnew1).
    rewrite Hdry. cbn [negb]. rewrite andb_true_r.
    assert (length results1 = length level) as Hlen
      by (by rewrite <- (length_fmap service), Hservices1).
    assert (forallb success (last_items (length level) (acc ++ results1)) =
            forallb success results1) as Hslice.
    { destruct results1 as [|r1 results1].
      - destruct level; [|done]. unfold last_items. simpl. rewrite app_nil_r.
        apply Is_true_true_1, forallb_True. eapply Forall_impl; [exact Hacc|].
        intros r ->. done.
      - rewrite <- Hlen. by rewrite last_items_app. }
    rewrite Hslice.
    destruct (forallb success results1) eqn:Hsuccess; cbn [negb].
    + assert (Forall (λ r, success r = true) results1) as Hall.
      { apply Is_true_true_2, forallb_True in Hsuccess.
        eapply Forall_impl; [exact Hsuccess|]. intros r Hr. by apply Is_true_true_1. }
      destruct (IH (acc ++ results1) (calls ++ new1)) as
        (attempted & unattempted & results & new & -> & Hrun & Hservices & Hnew & Hfail & Hleft).
      { by apply Forall_app. }
      exists (level :: attempted), unattempted, (results1 ++ results), (new1 ++ new).
      rewrite !app_assoc. split; [done|]. split; [exact Hrun|].
      split; [simpl; by rewrite fmap_app, Hservices1, Hservices|].
      split; [|split].
      * apply Forall_app. split.
        -- eapply calls_for_mono; [|exact Hnew1]. intros s Hs. simpl.
           rewrite elem_of_app. by left.
        -- eapply calls_for_mono; [|exact Hnew]. intros s Hs. simpl.
           rewrite elem_of_app. by right.
      * intros r [Hr|Hr]%elem_of_app Hr'.
        -- apply (proj1 (Forall_forall _ _) Hall) in Hr. congruence.
        -- destruct (Hfail r Hr Hr') as (level' & Hlast & Hin).
           exists level'. split; [|done].
           destruct attempted; [done|]. done.
      * intros Hne. destruct (Hleft Hne) as (r & Hr & Hr').
        exists r. split; [|done]. rewrite elem_of_app. by right.
    + exists [level], rest, results1, new1.
      split; [done|]. split; [done|].
      split; [simpl; by rewrite app_nil_r|].
      split; [simpl; by rewrite app_nil_r|]. split.
      * intros r Hr _. exists level. split; [done|].
        rewrite <- Hservices1. by apply list_elem_of_fmap_2.
      * intros _.
        assert (¬ Forall (λ r, success r = true) results1) as Hnot.
        { intros Hall.
          assert (Forall (λ r, Is_true (success r)) results1) as Hall'
            by (eapply Forall_impl; [exact Hall|]; by intros r ->).
          apply forallb_True, Is_true_true_1 in Hall'. congruence. }
        apply not_Forall_Exists in Hnot; [|intros r; apply _].
        apply Exists_exists in Hnot as (r & Hr & Hr').
        exists r. split; [done|]. simpl in Hr'. destruct (success r); [by destruct Hr'|done].
Qed.
End engine.

Lemma execute_levels_dry_run env args levels :
  dry_run args = true →
  ∀ acc calls,
    execute_levels env args levels (acc, calls) =
    (acc ++ (dry_run_result (action args) <$> mjoin levels), calls).
Proof.
  intros Hdry. induction levels as [|level rest IH]; intros acc calls.
  - simpl. by rewrite app_nil_r.
  - cbn [execute_levels execute_level]. rewrite Hdry. cbn [negb].
    rewrite andb_false_r, IH. simpl. by rewrite fmap_app, app_assoc.
Qed.

(** ** The runner and the level loop: statements *)

(** C2.  A plan of one service whose plan step exits with 2 and prints the
    summary line [Plan: 3 to add, 1 to change, 0 to destroy.] is a success,
    and its resource deltas are (0, 0, 0), not (3, 1, 0): the word that
    [parse_plan_summary] reads before [add,] is [to]. *)
Theorem plan_with_changes_reports_zero_deltas :
  let result :=
    (execute_terraform_for_service
       (completing 2 "Plan: 3 to add, 1 to change, 0 to destroy." "")
       "network" "toronto/network" "plan" "ca-toronto-1" 0 []).1 in
  success result = true ∧
  (resources_created result, resources_changed result, resources_destroyed result) =
    (0, 0, 0).
Proof. vm_compute. split; reflexivity. Qed.

(** C4.  A run whose init step exceeds its bound of 300 seconds and a run
    whose plan step exceeds its bound of 1800 seconds end with the same error
    text, "Terraform plan timed out after 30 minutes", and no success: the
    text does not tell which step ran out of time. *)
Theorem timeout_text_is_the_same_for_both_steps :
  let of_init :=
    (execute_terraform_for_service init_times_out
       "network" "toronto/network" "plan" "ca-toronto-1" 0 []).1 in
  let of_plan :=
    (execute_terraform_for_service action_times_out
       "network" "toronto/network" "plan" "ca-toronto-1" 0 []).1 in
  timeout (init_call "toronto/network") = 300 ∧
  timeout (action_call "plan" "toronto/network") = 1800 ∧
  success of_init = false ∧ success of_plan = false ∧
  error of_init = Some "Terraform plan timed out after 30 minutes" ∧
  error of_plan = error of_init.
Proof. vm_compute. repeat split; reflexivity. Qed.



(** C9.  In a dry run every level is gone through, no call is made, and the
    results are one per service of the plan, in plan order, each a success
    with duration zero, counters zero, no error and the placeholder text. *)
Theorem dry_run_simulates_every_level
    (env : process_environment) (args : arguments)
    (levels : list (list string)) (calls : list call) :
  dry_run args = true →
  let run := execute_levels env args levels ([], calls) in
  run.2 = calls ∧
  (service <$> run.1) = mjoin levels ∧
  Forall (λ r, success r = true ∧ duration r = 0%Q ∧ error r = None ∧
               resources_created r = 0 ∧ resources_changed r = 0 ∧
               resources_destroyed r = 0 ∧
               output r = "[DRY-RUN] Simulated " +:+ action args +:+ " for " +:+ service r)
         run.1.
Proof.
  intros Hdry run. subst run. rewrite (execute_levels_dry_run env args levels Hdry).
  cbn [fst snd app]. split; [done|]. split.
  - induction (mjoin levels) as [|s l IH]; [done|]. rewrite !fmap_cons. by f_equal.
  - apply Forall_fmap, Forall_true. intros s. by repeat split.
Qed.

Lemma dry_run_simulates_every_level_witness :
  let env := failing_in "toronto" "network" in
  let args := plan_arguments true true in
  let levels := [["identity"]; ["dns"; "network"]; ["compute"]] in
  let run := execute_levels env args levels ([], []) in
  dry_run args = true ∧
  run.2 = [] ∧
  (service <$> run.1) = ["identity"; "dns"; "network"; "compute"] ∧
  Forall (λ r, success r = true ∧ duration r = 0%Q ∧ error r = None ∧
               resources_created r = 0 ∧ resources_changed r = 0 ∧
               resources_destroyed r = 0 ∧
               output r = "[DRY-RUN] Simulated " +:+ action args +:+ " for " +:+ service r)
         run.1.
Proof.
  intros env args levels run. split; [reflexivity|].
  exact (dry_run_simulates_every_level env args levels [] eq_refl).
Defined.

(** ** Change detection *)

Lemma call_environment_Ok {A} (o : outcome A) a :
  call_environment o = Ok a ↔ o = Returned a.
Proof. destruct o; simpl; split; congruence. Qed.

Lemma bind_Ok_inv {A B} (m : result A) (f : A → result B) b :
  m ≫= f = Ok b → ∃ a, m = Ok a ∧ f a = Ok b.
Proof. destruct m as [a| |]; simpl; [eauto|done..]. Qed.

Section scan.
Variable fs : file_system.
Variable working_dir : string.

(** *** The scan of all services: lines 297-312 *)

Local Abbreviation listed := (listed_service fs working_dir).

Lemma collect_service_spec services name services' :
  collect_service fs working_dir services name = Ok services' →
  ∀ x, x ∈ services' ↔ x ∈ services ∨ (x = name ∧ listed name).
Proof.
  unfold collect_service, listed_service. intros Hrun x.
  apply bind_Ok_inv in Hrun as (is_dir & His_dir%call_environment_Ok & Hrun).
  rewrite His_dir.
  destruct is_dir; simpl in Hrun.
  - destruct (startswith "." name) eqn:Hhidden; simpl in Hrun.
    + injection Hrun as <-. split; [by left|]. by intros [?|(_ & _ & ? & _)].
    + apply bind_Ok_inv in Hrun as (tf_files & Hglob%call_environment_Ok & Hrun).
      rewrite Hglob. injection Hrun as <-. destruct tf_files as [|tf tf_files].
      * split; [by left|]. intros [?|(_ & _ & _ & tf_files & [= <-] & Hne)]; done.
      * rewrite elem_of_app, list_elem_of_singleton. split.
        -- intros [?| ->]; [by left|right]. repeat split. by eexists.
        -- intros [?|[ -> _]]; [by left|by right].
  - injection Hrun as <-. split; [by left|]. by intros [?|(_ & ? & _)].
Qed.

Lemma collect_services_spec names :
  ∀ services services',
    for_each (collect_service fs working_dir) names services = Ok services' →
    ∀ x, x ∈ services' ↔ x ∈ services ∨ (x ∈ names ∧ listed x).
Proof.
  induction names as [|name names IH]; intros services services' Hrun x.
  - injection Hrun as <-. split; [by left|]. by intros [?|[?%elem_of_nil _]].
  - cbn [for_each] in Hrun.
    apply bind_Ok_inv in Hrun as (services1 & Hstep & Hrun).
    rewrite (IH _ _ Hrun x), (collect_service_spec _ _ _ Hstep x), elem_of_cons.
    split.
    + intros [[?|[ -> ?]]|[? ?]]; [by left|right; split; [by left|done]|].
      right. split; [by right|done].
    + intros [?|[[ ->|?] ?]]; [by left; left|by left; right|by right].
Qed.

(** When the scan returns, its value is sorted and holds the names of the
    entries of the working directory that are directories, are not hidden,
    and have a [.tf] file; it is empty when the working directory does not
    exist. *)
Lemma get_all_terraform_services_spec services :
  (get_all_terraform_services fs working_dir).2 = Ok services →
  Sorted String.le services ∧
  (path_exists fs working_dir = Returned false → services = []) ∧
  (path_exists fs working_dir = Returned true →
   ∀ name, name ∈ services ↔
           terraform_service fs working_dir name ∧ startswith "." name = false).
Proof.
  unfold get_all_terraform_services.
  destruct (path_exists fs working_dir) as [[|]|e] eqn:Hexists; simpl; [| |done].
  - intros (names & Hiter%call_environment_Ok & Hrun)%bind_Ok_inv.
    apply bind_Ok_inv in Hrun as (collected & Hcollect & [= <-]).
    split; [apply Sorted_merge_sort; apply _|]. split; [done|].
    intros _ name. rewrite elem_of_sorted.
    rewrite (collect_services_spec _ _ _ Hcollect name), elem_of_nil.
    unfold terraform_service, listed_service. rewrite Hiter. split.
    + intros [[]|(Hname & Hdir & Hhidden & tf_files & Hglob & Hne)].
      split; [|done]. by exists names, tf_files.
    + intros [(names' & tf_files & [= <-] & Hname & Hdir & Hglob & Hne) Hhidden].
      right. split; [done|]. split; [done|]. split; [done|]. by exists tf_files.
  - intros [= <-]. split; [constructor|]. split; [done|]. done.
Qed.

Lemma collect_services_return names :
  (∀ name, name ∈ names →
     ∃ is_dir,
       path_is_dir fs (service_directory working_dir name) = Returned is_dir ∧
       (is_dir = true → startswith "." name = false →
        ∃ tf_files,
          path_glob_tf fs (service_directory working_dir name) = Returned tf_files)) →
  ∀ services, ∃ services',
    for_each (collect_service fs working_dir) names services = Ok services'.
Proof.
  induction names as [|name names IH]; intros Hanswers services; [by exists services|].
  cbn [for_each].
  destruct (Hanswers name) as (is_dir & His_dir & Hglob); [left|].
  assert (∃ services1, collect_service fs working_dir services name = Ok services1)
    as [services1 ->].
  { unfold collect_service. rewrite His_dir. simpl.
    destruct is_dir; simpl; [|by eexists].
    destruct (startswith "." name) eqn:Hhidden; simpl; [by eexists|].
    destruct (Hglob eq_refl eq_refl) as [tf_files ->]. simpl. by eexists. }
  rewrite bind_Ok. apply IH. intros n Hn. apply Hanswers. by right.
Qed.

(** The scan returns when the working directory does not exist, and when it
    exists and every query is answered. *)
Lemma get_all_terraform_services_returns :
  (path_exists fs working_dir = Returned false →
   (get_all_terraform_services fs working_dir).2 = Ok []) ∧
  (path_exists fs working_dir = Returned true → scan_answers fs working_dir →
   ∃ services, (get_all_terraform_services fs working_dir).2 = Ok services).
Proof.
  unfold get_all_terraform_services. split.
  - by intros ->.
  - intros -> (names & Hiter & Hanswers). simpl. rewrite Hiter. simpl.
    destruct (collect_services_return names Hanswers []) as [services ->].
    by eexists.
Qed.
End scan.

(** The handler of lines 291-294. *)
Lemma detect_changed_services_handler
    (fs : file_system) (working_dir : string) (base_ref changed_files_path : option string)
    (printed : list string) (e : exception) :
  detect_changed_services_body fs working_dir base_ref changed_files_path =
    (printed, Raise e) →
  detect_changed_services fs working_dir base_ref changed_files_path =
    (printed ++ detection_warning e ++ (get_all_terraform_services fs working_dir).1,
     (get_all_terraform_services fs working_dir).2).
Proof.
  intros Hbody. unfold detect_changed_services. rewrite Hbody.
  by destruct (get_all_terraform_services fs working_dir).
Qed.

(** *** The modules that changed: lines 153-191 *)

Lemma add_modules_spec file_paths :
  ∀ (modules : gset string) (module : string),
    module ∈ foldl add_module modules file_paths ↔
    module ∈ modules ∨
    ∃ file_path, file_path ∈ file_paths ∧
      startswith "modules/" file_path = true ∧
      split_on "/" file_path !! 1%nat = Some module.
Proof.
  induction file_paths as [|p file_paths IH]; intros modules module; simpl.
  - split; [by left|]. intros [?|(? & []%elem_of_nil & _)]. done.
  - rewrite IH. unfold add_module. split.
    + intros [Hin|(q & Hq & Hprefix & Hpart)].
      * destruct (startswith "modules/" p) eqn:Hprefix;
          [destruct (split_on "/" p !! 1%nat) as [m|] eqn:Hpart|]; try by left.
        apply elem_of_union in Hin as [->%elem_of_singleton|Hin]; [|by left].
        right. exists p. split; [left|done].
      * right. exists q. split; [by right|done].
    + intros [Hin|(q & [->|Hq]%elem_of_cons & Hprefix & Hpart)].
      * left. destruct (startswith "modules/" p); [destruct (split_on "/" p !! 1%nat)|];
          try done. apply elem_of_union. by right.
      * left. rewrite Hprefix, Hpart. apply elem_of_union. left. by apply elem_of_singleton.
      * right. by exists q.
Qed.

Lemma detect_module_changes_spec fs base_ref changed_files module :
  changed_files ≠ [] →
  module ∈ detect_module_changes fs base_ref changed_files ↔
  ∃ file_path, file_path ∈ changed_files ∧
    startswith "modules/" file_path = true ∧
    split_on "/" file_path !! 1%nat = Some module.
Proof.
  intros Hne. unfold detect_module_changes.
  destruct changed_files as [|p rest]; [done|].
  rewrite add_modules_spec. split; [|by right].
  intros [[]%elem_of_empty|?]. done.
Qed.

(** *** The services that use a module: lines 194-222 *)

Section fan_out.
Variable fs : file_system.
Variable working_dir : string.
Variable modules : gset string.

Lemma scan_tf_file_keeps service_dir name services tf_name x :
  x ∈ services → x ∈ scan_tf_file fs modules service_dir name services tf_name.
Proof.
  intros Hx. unfold scan_tf_file.
  destruct (path_read_text fs _) as [content|e]; [|done].
  destruct (existsb _ _); [|done]. apply elem_of_union. by right.
Qed.

Lemma scan_tf_files_keep service_dir name tf_files :
  ∀ services x,
    x ∈ services → x ∈ foldl (scan_tf_file fs modules service_dir name) services tf_files.
Proof.
  induction tf_files as [|tf tf_files IH]; intros services x Hx; [done|].
  simpl. by apply IH, scan_tf_file_keeps.
Qed.

Lemma scan_tf_files_find service_dir name tf_files tf_name content module :
  tf_name ∈ tf_files →
  path_read_text fs (service_directory service_dir tf_name) = Returned content →
  module ∈ modules →
  contains ("modules/" +:+ module) content = true →
  ∀ services, name ∈ foldl (scan_tf_file fs modules service_dir name) services tf_files.
Proof.
  intros Hin Hread Hmodule Hcontent.
  induction tf_files as [|tf tf_files IH]; intros services; [by apply elem_of_nil in Hin|].
  simpl. apply elem_of_cons in Hin as [<-|Hin]; [|by apply IH].
  apply scan_tf_files_keep. unfold scan_tf_file. rewrite Hread.
  assert (existsb (references_module content) (elements modules) = true) as ->.
  { apply existsb_exists. exists module. split.
    - by apply list_elem_of_In, elem_of_elements.
    - unfold references_module. by rewrite Hcontent. }
  apply elem_of_union. left. by apply elem_of_singleton.
Qed.

Lemma scan_service_keeps services name services' x :
  scan_service fs modules working_dir services name = Ok services' →
  x ∈ services → x ∈ services'.
Proof.
  unfold scan_service. intros (is_dir & _ & Hrun)%bind_Ok_inv Hx.
  destruct (negb is_dir || startswith "." name); [by injection Hrun as <-|].
  apply bind_Ok_inv in Hrun as (tf_files & _ & [= <-]). by apply scan_tf_files_keep.
Qed.

Lemma scan_service_finds services name services' module :
  scan_service fs modules working_dir services name = Ok services' →
  path_is_dir fs (service_directory working_dir name) = Returned true →
  startswith "." name = false →
  references fs working_dir name module →
  module ∈ modules →
  name ∈ services'.
Proof.
  unfold scan_service.
  intros (is_dir & His_dir%call_environment_Ok & Hrun)%bind_Ok_inv Hdir Hhidden
         (tf_files & tf_name & content & Hglob & Hin & Hread & Hcontent) Hmodule.
  rewrite Hdir in His_dir. injection His_dir as <-. rewrite Hhidden in Hrun. simpl in Hrun.
  apply bind_Ok_inv in Hrun as (tf_files' & Hglob'%call_environment_Ok & [= <-]).
  rewrite Hglob in Hglob'. injection Hglob' as <-.
  by eapply scan_tf_files_find.
Qed.

Lemma scan_services_keep names :
  ∀ services services' x,
    for_each (scan_service fs modules working_dir) names services = Ok services' →
    x ∈ services → x ∈ services'.
Proof.
  induction names as [|n names IH]; intros services services' x Hrun Hx.
  - by injection Hrun as <-.
  - cbn [for_each] in Hrun. apply bind_Ok_inv in Hrun as (services1 & Hstep & Hrun).
    eapply IH; [exact Hrun|]. by eapply scan_service_keeps.
Qed.

Lemma scan_services_find names name module :
  name ∈ names →
  path_is_dir fs (service_directory working_dir name) = Returned true →
  startswith "." name = false →
  references fs working_dir name module →
  module ∈ modules →
  ∀ services services',
    for_each (scan_service fs modules working_dir) names services = Ok services' →
    name ∈ services'.
Proof.
  intros Hin Hdir Hhidden Href Hmodule.
  induction names as [|n names IH]; intros services services' Hrun;
    [by apply elem_of_nil in Hin|].
  cbn [for_each] in Hrun. apply bind_Ok_inv in Hrun as (services1 & Hstep & Hrun).
  apply elem_of_cons in Hin as [<-|Hin]; [|by eapply IH].
  eapply scan_services_keep; [exact Hrun|]. by eapply scan_service_finds.
Qed.

(** A directory that is not hidden, with a readable [.tf] file that names the
    path of a changed module, is among the services the scan returns. *)
Lemma get_services_using_modules_finds affected name module :
  get_services_using_modules fs working_dir modules = Ok affected →
  path_exists fs working_dir = Returned true →
  terraform_service fs working_dir name →
  startswith "." name = false →
  references fs working_dir name module →
  module ∈ modules →
  name ∈ affected.
Proof.
  unfold get_services_using_modules.
  intros (present & Hpresent%call_environment_Ok & Hrun)%bind_Ok_inv Hexists
         (names & tf_files & Hiter & Hname & Hdir & _) Hhidden Href Hmodule.
  rewrite Hexists in Hpresent. injection Hpresent as <-. simpl in Hrun.
  apply bind_Ok_inv in Hrun as (names' & Hiter'%call_environment_Ok & Hrun).
  rewrite Hiter in Hiter'. injection Hiter' as <-.
  by eapply scan_services_find.
Qed.
End fan_out.

(** ** Change detection: statements *)

Example detect_changed_services_module_fan_out :
  detect_changed_services (toronto true) "toronto" None (Some "/tmp/changed-files.txt") =
  ([module_changes_line {["net-common"]}; affected_services_line {["compute"; "network"]}],
   Ok ["compute"; "network"]).
Proof. vm_compute. reflexivity. Qed.

Example detect_changed_services_without_change_source :
  detect_changed_services (toronto false) "toronto" None (Some "/tmp/changed-files.txt") =
  (detection_warning (Exception "Either changed_files_path or base_ref must be provided"),
   Ok ["compute"; "identity"; "network"]).
Proof. vm_compute. reflexivity. Qed.

(** Whenever the body of [detect_changed_services] raises, the function
    prints the two lines of the warning and hands over to
    [get_all_terraform_services]: it prints what that scan prints and ends as
    that scan ends.  The scan returns the empty list when the working
    directory does not exist, and it returns when the directory exists and
    every query of the scan is answered.  Whenever the scan returns, its
    value is sorted and, the working directory existing, holds exactly the
    entries of the working directory that are directories, whose name does
    not start with a dot, and that have a [.tf] file. *)
Lemma detection_failure_hands_over_to_scan
    (fs : file_system) (working_dir : string) (base_ref changed_files_path : option string)
    (printed : list string) (e : exception) :
  detect_changed_services_body fs working_dir base_ref changed_files_path =
    (printed, Raise e) →
  let scan := get_all_terraform_services fs working_dir in
  detect_changed_services fs working_dir base_ref changed_files_path =
    (printed ++ detection_warning e ++ scan.1, scan.2) ∧
  (path_exists fs working_dir = Returned false → scan.2 = Ok []) ∧
  (path_exists fs working_dir = Returned true → scan_answers fs working_dir →
   ∃ services, scan.2 = Ok services) ∧
  ∀ services,
    scan.2 = Ok services →
    Sorted String.le services ∧
    (path_exists fs working_dir = Returned true →
     ∀ name, name ∈ services ↔
             terraform_service fs working_dir name ∧ startswith "." name = false).
Proof.
  intros Hbody scan. subst scan.
  split; [by apply detect_changed_services_handler|].
  split; [apply get_all_terraform_services_returns|].
  split; [apply get_all_terraform_services_returns|].
  intros services Hscan.
  destruct (get_all_terraform_services_spec fs working_dir services Hscan) as (? & _ & ?).
  done.
Qed.

(** C7.  The scan that the handler of [detect_changed_services] falls back
    on runs outside any [try], and its guard tests only that the working
    directory exists.  With a working directory that is a regular file and
    no change source, the body raises the ValueError of line 253, the
    handler prints the two lines of the warning, the listing of the
    directory in the scan raises, and that exception leaves
    [detect_changed_services]: the function neither returns a list nor keeps
    the error from its caller, so [detection_failure_always_returns] does
    not hold.  With a working directory that does not exist the same scan
    returns the empty list. *)
Theorem detection_fallback_scan_is_unguarded :
  let fs := working_dir_is_a_file in
  let missing_source :=
    Exception "Either changed_files_path or base_ref must be provided" in
  path_exists fs "toronto" = Returned true ∧
  detect_changed_services_body fs "toronto" None (Some "/tmp/changed-files.txt") =
    ([], Raise missing_source) ∧
  detect_changed_services fs "toronto" None (Some "/tmp/changed-files.txt") =
    (detection_warning missing_source,
     Raise (Exception "[Errno 20] Not a directory: 'toronto'")) ∧
  (get_all_terraform_services fs "montreal").2 = Ok [] ∧
  ¬ detection_failure_always_returns.
Proof.
  intros fs missing_source.
  split; [reflexivity|].
  split; [vm_compute; reflexivity|].
  split; [vm_compute; reflexivity|].
  split; [vm_compute; reflexivity|].
  intros Hclaim.
  destruct (Hclaim fs "toronto" None (Some "/tmp/changed-files.txt") [] missing_source)
    as (printed' & services & Hrun & _); [vm_compute; reflexivity|].
  vm_compute in Hrun. discriminate.
Qed.

(** The module scan skips hidden directories: [.shared] references the
    changed module and is not in the change set. *)
Lemma hidden_directory_is_not_reached : ¬ module_change_reaches_every_directory.
Proof.
  intros Hclaim.
  assert (".shared" ∈ ["compute"; "network"]) as Hin.
  { apply (Hclaim (toronto true) "toronto" None (Some "/tmp/changed-files.txt")
             ["modules/net-common/main.tf"] "modules/net-common/main.tf" "net-common"
             ".shared"
             [module_changes_line {["net-common"]};
              affected_services_line {["compute"; "network"]}]).
    - vm_compute. reflexivity.
    - left.
    - reflexivity.
    - reflexivity.
    - reflexivity.
    - exists ["network"; ".shared"; "README.md"; "identity"; "compute"], ["main.tf"].
      split; [reflexivity|]. split; [by right; left|]. repeat split; done.
    - eexists ["main.tf"], "main.tf", _.
      split; [reflexivity|]. split; [left|]. split; [reflexivity|]. vm_compute. reflexivity.
    - apply detect_changed_services_module_fan_out. }
  apply (bool_decide_pack _) in Hin. vm_compute in Hin. exact Hin.
Qed.

(** C8, amended.  When the list of changed files that the function loads
    holds a path under [modules/] for a module, every entry of the working
    directory that is a directory, whose name does not start with a dot, and
    that has a [.tf] file that can be read and contains the text
    [modules/<module>] is in the change set the function returns, whatever
    else changed. *)
Theorem module_change_reaches_visible_directories
    (fs : file_system) (working_dir : string) (base_ref changed_files_path : option string)
    (changed_files : list string) (file_path module name : string)
    (printed services : list string) :
  load_changed_files fs base_ref changed_files_path = Ok changed_files →
  file_path ∈ changed_files →
  startswith "modules/" file_path = true →
  split_on "/" file_path !! 1%nat = Some module →
  path_exists fs working_dir = Returned true →
  terraform_service fs working_dir name →
  startswith "." name = false →
  references fs working_dir name module →
  detect_changed_services fs working_dir base_ref changed_files_path =
    (printed, Ok services) →
  name ∈ services.
Proof.
  intros Hload Hfile Hprefix Hpart Hexists Hservice Hhidden Href Hrun.
  assert (changed_files ≠ []) as Hne by (intros ->; by apply elem_of_nil in Hfile).
  assert (module ∈ detect_module_changes fs base_ref changed_files) as Hmodule.
  { apply detect_module_changes_spec; [done|]. by exists file_path. }
  assert (∀ printed' e,
            detect_changed_services_body fs working_dir base_ref changed_files_path =
              (printed', Raise e) → name ∈ services) as Hfallback.
  { intros printed' e Hbody.
    pose proof (detect_changed_services_handler _ _ _ _ _ _ Hbody) as Hrun'.
    rewrite Hrun in Hrun'. injection Hrun' as _ Hservices.
    destruct (get_all_terraform_services_spec fs working_dir services (eq_sym Hservices))
      as (_ & _ & Hall).
    by apply Hall. }
  unfold detect_changed_services in Hrun.
  destruct (detect_changed_services_body fs working_dir base_ref changed_files_path)
    as [printed0 [services0|e|]] eqn:Hbody; [|by eapply Hfallback|done].
  injection Hrun as -> ->. clear Hfallback.
  unfold detect_changed_services_body in Hbody. rewrite Hload in Hbody.
  destruct (for_each (add_direct_change fs working_dir) changed_files ∅)
    as [direct|e|]; [|done..].
  rewrite bool_decide_eq_true_2 in Hbody by (intros Hempty; by rewrite Hempty in Hmodule).
  destruct (get_services_using_modules fs working_dir _) as [affected|e|] eqn:Hscan; [|done..].
  pose proof (get_services_using_modules_finds _ _ _ _ _ _ Hscan Hexists Hservice
                Hhidden Href Hmodule) as Hin.
  rewrite bool_decide_eq_true_2 in Hbody by (intros Hempty; by rewrite Hempty in Hin).
  injection Hbody as _ <-.
  apply elem_of_sorted, elem_of_elements, elem_of_union. by right.
Qed.

Lemma module_change_reaches_visible_directories_witness :
  let fs := toronto true in
  terraform_service fs "toronto" "network" ∧
  references fs "toronto" "network" "net-common" ∧
  "network" ∈ ["compute"; "network"].
Proof.
  intros fs.
  assert (terraform_service fs "toronto" "network") as Hservice.
  { exists ["network"; ".shared"; "README.md"; "identity"; "compute"], ["main.tf"].
    split; [reflexivity|]. split; [left|]. repeat split; done. }
  assert (references fs "toronto" "network" "net-common") as Href.
  { eexists ["main.tf"], "main.tf", _.
    split; [reflexivity|]. split; [left|]. split; [reflexivity|]. vm_compute. reflexivity. }
  split; [exact Hservice|]. split; [exact Href|].
  apply (module_change_reaches_visible_directories fs "toronto" None
           (Some "/tmp/changed-files.txt") ["modules/net-common/main.tf"]
           "modules/net-common/main.tf" "net-common" "network"
           [module_changes_line {["net-common"]};
            affected_services_line {["compute"; "network"]}]).
  - vm_compute. reflexivity.
  - left.
  - reflexivity.
  - reflexivity.
  - reflexivity.
  - exact Hservice.
  - reflexivity.
  - exact Href.
  - apply detect_changed_services_module_fan_out.
Defined.

(** ** Version 1.0 *)

(** The pattern of version 1.0 reads the three numbers of the summary line,
    and a plan with changes reports their sum. *)
Example v1_plan_with_changes_reports_the_sum :
  let result :=
    (V1.execute_terraform_for_service
       (completing 2 "Plan: 3 to add, 1 to change, 0 to destroy." "")
       "network" "toronto/network" "plan" "ca-toronto-1" []).1 in
  V1.success result = true ∧ V1.resources_changed result = 4.
Proof. vm_compute. split; reflexivity. Qed.

(** The text of a timeout is the same for both steps in version 1.0 too,
    where the bound of the init step is 600 seconds. *)
Lemma v1_timeout_text_is_the_same_for_both_steps :
  let of_init :=
    (V1.execute_terraform_for_service init_times_out
       "network" "toronto/network" "plan" "ca-toronto-1" []).1 in
  let of_plan :=
    (V1.execute_terraform_for_service action_times_out
       "network" "toronto/network" "plan" "ca-toronto-1" []).1 in
  timeout (V1.init_call "toronto/network") = 600 ∧
  V1.success of_init = false ∧ V1.success of_plan = false ∧
  V1.error of_init = "Terraform plan timed out after 30 minutes" ∧
  V1.error of_plan = V1.error of_init.
Proof. vm_compute. repeat split; reflexivity. Qed.

(** The handler of version 1.0 hands over to the same scan. *)
Lemma v1_detection_failure_hands_over_to_scan
    (repo : V1.repository) (fs : file_system) (working_dir base_ref : string)
    (e : exception) :
  V1.detect_changed_services_body repo fs working_dir base_ref = Raise e →
  V1.detect_changed_services repo fs working_dir base_ref =
    (detection_warning e ++ (get_all_terraform_services fs working_dir).1,
     (get_all_terraform_services fs working_dir).2).
Proof.
  intros Hbody. unfold V1.detect_changed_services. rewrite Hbody.
  unfold V1.get_all_terraform_services.
  by destruct (get_all_terraform_services fs working_dir).
Qed.

(** ** Further properties of the scheduler and the runner *)

Lemma kahn_levels_sorted fuel graph :
  ∀ in_degree current_level levels levels' in_degree',
    kahn_levels fuel graph in_degree current_level levels = Ok (levels', in_degree') →
    Forall (Sorted String.le) levels → Forall (Sorted String.le) levels'.
Proof.
  induction fuel as [|fuel IH]; intros in_degree current_level levels levels' in_degree'.
  - destruct current_level; simpl; [|done]. by intros [= <- <-].
  - destruct current_level as [|c cs]; [by intros [= <- <-]|].
    cbn [kahn_levels]. intros ([d next] & _ & Hrun)%bind_Ok_inv Hsorted.
    eapply IH; [exact Hrun|]. apply Forall_app. split; [done|].
    constructor; [|constructor]. apply Sorted_merge_sort. apply _.
Qed.

(** Every level of a plan is in alphabetical order; a fallback level holds
    one service. *)
Theorem topological_sort_levels_are_sorted
    (table : gmap string (list string)) (services : list string) :
  ∃ printed levels,
    topological_sort table services = Ok (printed, levels) ∧
    Forall (Sorted String.le) levels.
Proof.
  destruct (topological_sort_total table services) as (printed & levels & Hrun).
  exists printed, levels. split; [done|].
  unfold topological_sort in Hrun.
  apply bind_Ok_inv in Hrun as ([graph in_degree] & _ & Hrun). cbn beta iota in Hrun.
  apply bind_Ok_inv in Hrun as (current_level & _ & Hrun).
  destruct current_level as [|c cs].
  - injection Hrun as _ <-. apply Forall_fmap, Forall_true. intros s.
    repeat constructor.
  - apply bind_Ok_inv in Hrun as ([kahn in_degree'] & Hkahn & Hrun). cbn beta iota in Hrun.
    apply kahn_levels_sorted in Hkahn; [|constructor].
    case_bool_decide.
    + apply bind_Ok_inv in Hrun as (remaining & _ & [= _ <-]).
      apply Forall_app. split; [done|]. constructor; [|constructor].
      apply Sorted_merge_sort. apply _.
    + by injection Hrun as _ <-.
Qed.

(** [topological_sort] returns on every table and every list of candidates,
    repeated names included: no lookup raises and the loop ends. *)
Theorem topological_sort_always_returns
    (table : gmap string (list string)) (services : list string) :
  ∃ printed levels, topological_sort table services = Ok (printed, levels).
Proof. apply topological_sort_total. Qed.

(** A failed init step: the result is not a success, its error text carries
    the standard error of the init step, its duration stays zero, and the
    plan or apply step is not run. *)
Theorem init_failure_skips_the_action
    (env : process_environment) (service_name service_dir action region : string)
    (retry : Z) (calls : list call) (init_result : CompletedProcess) :
  subprocess_run env calls (init_call service_dir) = Returned init_result →
  returncode init_result ≠ 0 →
  let run :=
    execute_terraform_for_service env service_name service_dir action region retry calls in
  success run.1 = false ∧
  error run.1 = Some ("Init failed: " +:+ stderr init_result) ∧
  output run.1 = stdout init_result +:+ stderr init_result ∧
  duration run.1 = 0%Q ∧
  run.2 = calls ++ [init_call service_dir].
Proof.
  intros Hinit Hcode run. subst run.
  by rewrite (init_failure env service_name service_dir region retry calls action
                init_result Hinit Hcode).
Qed.

(** Every subprocess exits with 1. *)
Lemma init_failure_skips_the_action_witness :
  let env := {| subprocess_run := λ _ _,
                  Returned {| returncode := 1; stdout := "out"; stderr := "no backend" |};
                time_time := λ _, 0%Q; completion_order := id |} in
  let run := execute_terraform_for_service env "network" "toronto/network" "apply"
               "ca-toronto-1" 0 [] in
  success run.1 = false ∧
  error run.1 = Some "Init failed: no backend" ∧
  output run.1 = "outno backend" ∧
  duration run.1 = 0%Q ∧
  run.2 = [init_call "toronto/network"].
Proof.
  intros env run.
  apply (init_failure_skips_the_action env "network" "toronto/network" "apply"
           "ca-toronto-1" 0 []
           {| returncode := 1; stdout := "out"; stderr := "no backend" |}).
  - reflexivity.
  - discriminate.
Defined.

(** An apply that exits with 0 is a success whose counters are read from the
    line [Apply complete! ...]; with any other exit status it fails and the
    error text carries the exit status and the standard error. *)
Theorem apply_exit_status
    (env : process_environment) (service_name service_dir region : string)
    (retry : Z) (calls : list call) (init_result tf_result : CompletedProcess) :
  subprocess_run env calls (init_call service_dir) = Returned init_result →
  returncode init_result = 0 →
  subprocess_run env (calls ++ [init_call service_dir]) (action_call "apply" service_dir) =
    Returned tf_result →
  let result :=
    (execute_terraform_for_service env service_name service_dir "apply" region retry calls).1 in
  let counts := parse_apply_summary (stdout tf_result) in
  resources_created result = summary_add counts ∧
  resources_changed result = summary_change counts ∧
  resources_destroyed result = summary_destroy counts ∧
  (returncode tf_result = 0 → success result = true ∧ error result = None) ∧
  (returncode tf_result ≠ 0 →
   success result = false ∧
   error result =
     Some ("Apply failed (exit code " +:+ pretty (returncode tf_result) +:+ "): "
           +:+ stderr tf_result)).
Proof.
  intros Hinit Hcode Hrun.
  rewrite (action_completes env service_name service_dir region retry calls "apply"
             _ _ Hinit Hcode Hrun).
  cbn [fst]. unfold action_completed.
  rewrite (bool_decide_eq_false_2 ("apply" = "plan")) by done.
  case_bool_decide as Hexit; repeat split; intros; simpl; done.
Qed.

Lemma apply_exit_status_witness :
  let env := completing 0 "Apply complete! Resources: 2 added, 0 changed, 1 destroyed." "" in
  let result :=
    (execute_terraform_for_service env "network" "toronto/network" "apply"
       "ca-toronto-1" 0 []).1 in
  success result = true ∧
  (resources_created result, resources_changed result, resources_destroyed result) =
    (2, 0, 1).
Proof.
  intros env result.
  destruct (apply_exit_status env "network" "toronto/network" "ca-toronto-1" 0 []
              {| returncode := 0; stdout := "Initialized"; stderr := "" |}
              {| returncode := 0;
                 stdout := "Apply complete! Resources: 2 added, 0 changed, 1 destroyed.";
                 stderr := "" |} eq_refl eq_refl eq_refl)
    as (Hcreated & Hchanged & Hdestroyed & Hok & _).
  split; [by apply Hok|].
  subst result. rewrite Hcreated, Hchanged, Hdestroyed. vm_compute. reflexivity.
Defined.

Lemma exit_status_spec (all_results : list ExecutionResult) :
  exit_status all_results = 0 ↔ Forall (λ r, success r = true) all_results.
Proof.
  unfold exit_status. split.
  - case_bool_decide as Hlt; [done|]. intros _.
    apply Forall_forall. intros r Hr.
    destruct (decide (success r = true)) as [|Hfail]; [done|].
    destruct Hlt. by apply (length_filter_lt _ _ r).
  - intros Hall. rewrite bool_decide_eq_false_2; [done|].
    assert (filter (λ r, success r = true) all_results = all_results) as ->; [|lia].
    induction Hall as [|r l Hr Hall IH]; [done|].
    by rewrite filter_cons, decide_True, IH.
Qed.

(** The exit status of a run is 0 exactly when every result is a success. *)
Theorem exit_status_zero_iff (all_results : list ExecutionResult) :
  exit_status all_results = 0 ↔ Forall (λ r, success r = true) all_results.
Proof. apply exit_status_spec. Qed.

(** A dry run from a list of distinct changed services: the plan is followed
    to its end, each changed service gets one simulated result, no call is
    made and the exit status is 0. *)
Theorem dry_run_from_changes
    (env : process_environment) (args : arguments)
    (changed_services : list string) (calls : list call) :
  dry_run args = true →
  NoDup changed_services →
  ∃ printed levels all_results,
    main_from_changes env args changed_services calls =
      Ok (printed, levels, all_results, calls, 0) ∧
    all_results = dry_run_result (action args) <$> mjoin levels ∧
    mjoin levels ≡ₚ changed_services.
Proof.
  intros Hdry Hnodup. unfold main_from_changes.
  destruct changed_services as [|s rest] eqn:E; [by exists [], [], []|].
  rewrite <- E in *. clear E s rest.
  destruct (plan_permutation SERVICE_DEPENDENCIES changed_services Hnodup)
    as (printed & levels & -> & Hperm).
  rewrite bind_Ok. cbn beta iota.
  rewrite (execute_levels_dry_run env args levels Hdry). cbn [app].
  exists printed, levels, (dry_run_result (action args) <$> mjoin levels).
  split; [|done]. do 2 f_equal.
  apply exit_status_spec, Forall_fmap, Forall_true. done.
Qed.

Lemma dry_run_from_changes_witness :
  ∃ printed levels all_results,
    main_from_changes (failing_in "toronto" "network") (plan_arguments true true)
      ["compute"; "identity"; "network"] [] =
      Ok (printed, levels, all_results, [], 0) ∧
    all_results = dry_run_result "plan" <$> mjoin levels ∧
    mjoin levels ≡ₚ ["compute"; "identity"; "network"].
Proof.
  apply (dry_run_from_changes (failing_in "toronto" "network") (plan_arguments true true)
           ["compute"; "identity"; "network"] [] eq_refl).
  apply (bool_decide_unpack _). vm_compute. exact I.
Defined.

(** An exception that is no timeout, raised by the init step or, after an
    init step that exits with 0, by the plan or apply step, is recorded in
    the result: the call returns, the result is no success, its error text
    is [str(e)], and its output and its counts are those of the initial
    result. *)
Theorem unexpected_exception_is_recorded
    (env : process_environment) (service_name service_dir action region : string)
    (retry : Z) (calls : list call) (e : exception) :
  subprocess_run env calls (init_call service_dir) = Raised e ∨
  (∃ init_result,
     subprocess_run env calls (init_call service_dir) = Returned init_result ∧
     returncode init_result = 0 ∧
     subprocess_run env (calls ++ [init_call service_dir])
       (action_call action service_dir) = Raised e) →
  (∀ message, e ≠ TimeoutExpired message) →
  let result :=
    (execute_terraform_for_service env service_name service_dir action region retry calls).1 in
  success result = false ∧ error result = Some (str_of_exception e) ∧
  service result = service_name ∧ output result = "" ∧
  resources_created result = 0 ∧ resources_changed result = 0 ∧
  resources_destroyed result = 0.
Proof.
  intros [Hinit|(init_result & Hinit & Hcode & Haction)] Hclass;
    unfold execute_terraform_for_service; rewrite Hinit.
  - destruct e as [m|m|m|m]; try done. by destruct (Hclass m).
  - rewrite bool_decide_eq_false_2 by (intros Hne; by apply Hne).
    rewrite Haction.
    destruct e as [m|m|m|m]; try done. by destruct (Hclass m).
Qed.

Lemma unexpected_exception_is_recorded_witness :
  let env := {| subprocess_run := λ _ c,
                  if bool_decide (cmd c = ["terraform"; "init"; "-no-color"])
                  then Returned {| returncode := 0; stdout := "Initialized"; stderr := "" |}
                  else Raised (Exception "[Errno 12] Cannot allocate memory");
                time_time := λ _, 0%Q; completion_order := id |} in
  let result :=
    (execute_terraform_for_service env "network" "toronto/network" "apply"
       "ca-toronto-1" 0 []).1 in
  success result = false ∧
  error result = Some "[Errno 12] Cannot allocate memory" ∧
  service result = "network" ∧ output result = "" ∧
  resources_created result = 0 ∧ resources_changed result = 0 ∧
  resources_destroyed result = 0.
Proof.
  intros env result.
  apply (unexpected_exception_is_recorded env "network" "toronto/network" "apply"
           "ca-toronto-1" 0 [] (Exception "[Errno 12] Cannot allocate memory")).
  - right. exists {| returncode := 0; stdout := "Initialized"; stderr := "" |}.
    split; [reflexivity|]. split; reflexivity.
  - discriminate.
Defined.

(** The first level fails: the results are those of the first level, the
    later levels are not run, and the exit status is 1. *)
Example first_level_failure_ends_the_run :
  ∃ result,
    main_from_changes (failing_in "toronto" "identity") (plan_arguments false false)
      ["compute"; "identity"; "network"] [] =
    Ok ([], [["identity"]; ["network"]; ["compute"]], [result],
        [init_call "toronto/identity"; action_call "plan" "toronto/identity"], 1) ∧
    service result = "identity" ∧ success result = false.
Proof. eexists. split; [vm_compute; reflexivity|]. split; reflexivity. Qed.

(** * Further properties *)

(** ** The scheduler: how the levels are packed *)

Lemma level_index_Some (levels : list (list string)) s i :
  level_index levels s = Some i →
  ∃ level, levels !! i = Some level ∧ s ∈ level.
Proof.
  revert i. induction levels as [|first rest IH]; intros i; [done|]. simpl.
  case_bool_decide as Hin.
  - intros [= <-]. by exists first.
  - destruct (level_index rest s) as [j|] eqn:E; [|done]. simpl.
    intros [= <-]. by apply IH.
Qed.

Lemma level_index_elem_of (levels : list (list string)) s :
  s ∈ mjoin levels → ∃ i, level_index levels s = Some i.
Proof.
  induction levels as [|first rest IH]; simpl; [by intros ?%elem_of_nil|].
  rewrite elem_of_app. intros Hs. case_bool_decide as Hin; [by exists 0%nat|].
  destruct Hs as [?|Hs]; [done|]. destruct (IH Hs) as [i ->]. by exists (S i).
Qed.

Lemma kahn_levels_extends fuel graph :
  ∀ in_degree current_level levels levels' in_degree',
    kahn_levels fuel graph in_degree current_level levels = Ok (levels', in_degree') →
    ∃ rest, levels' = levels ++ rest.
Proof.
  induction fuel as [|fuel IH]; intros in_degree current_level levels levels' in_degree'.
  - destruct current_level; simpl; [|done]. intros [= <- <-]. exists []. by rewrite app_nil_r.
  - destruct current_level as [|c cs].
    + intros [= <- <-]. exists []. by rewrite app_nil_r.
    + cbn [kahn_levels]. intros ([d next] & _ & Hrun)%bind_Ok_inv.
      apply IH in Hrun as [rest ->]. exists (sorted (c :: cs) :: rest).
      by rewrite <- app_assoc.
Qed.

Section layering.
Variable table : gmap string (list string).
Variable services : list string.
Hypothesis services_distinct : NoDup services.

Local Abbreviation isp := (in_set_prerequisites table services).
Local Abbreviation pending := (unmet table services).

(** A member of the next level has a prerequisite in the level that was just
    finished: it was not ready before that level, and is ready after it. *)
Lemma next_level_tight levels current_level in_degree in_degree' next_level :
  kahn_invariant table services levels current_level in_degree →
  kahn_invariant table services (levels ++ [sorted current_level]) next_level in_degree' →
  ∀ s, s ∈ next_level → ∃ d, d ∈ sorted current_level ∧ d ∈ isp s.
Proof.
  intros Hold Hnew s Hs.
  assert (s ∈ services) as Hss.
  { apply (placed_candidates _ _ _ _ _ Hnew). rewrite elem_of_app. by right. }
  pose proof (placed_distinct _ _ _ _ _ Hnew) as Hnodup.
  apply NoDup_app in Hnodup as (_ & Hdisj & _).
  assert (s ∉ mjoin levels ++ current_level) as Hnot.
  { intros Hin. apply (Hdisj s); [|done].
    rewrite mjoin_snoc. revert Hin. rewrite !elem_of_app, elem_of_sorted. done. }
  assert (pending (mjoin levels) s ≠ []) as Hpending.
  { intros Hnil. by apply Hnot, (placed_iff_ready _ _ _ _ _ Hold s Hss). }
  assert (pending (mjoin (levels ++ [sorted current_level])) s = []) as Hready.
  { apply (placed_iff_ready _ _ _ _ _ Hnew s Hss). rewrite elem_of_app. by right. }
  destruct (pending (mjoin levels) s) as [|d l] eqn:E; [done|].
  assert (d ∈ pending (mjoin levels) s) as Hd by (rewrite E; left).
  unfold unmet in Hd. apply list_elem_of_filter in Hd as [Hd1 Hd2].
  exists d. split; [|done].
  rewrite unmet_nil_iff in Hready. apply Hready in Hd2.
  rewrite mjoin_snoc, elem_of_app in Hd2. by destruct Hd2.
Qed.

Variable graph : gmap string (list string).
Hypothesis graph_built :
  ∀ x, x ∈ services → graph !! x = Some (dependents_of table services x).

(** The level loop keeps the levels tight and non-empty. *)
Lemma kahn_levels_tight fuel :
  ∀ levels current_level in_degree levels' in_degree',
    kahn_invariant table services levels current_level in_degree →
    frontier_tight table services levels current_level →
    kahn_levels fuel graph in_degree current_level levels = Ok (levels', in_degree') →
    levels_tight table services levels' ∧ Forall (λ level, level ≠ []) levels'.
Proof.
  induction fuel as [|fuel IH];
    intros levels current_level in_degree levels' in_degree' Hinv (Htight & Hne & Hlast).
  - destruct current_level; simpl; [|done]. by intros [= <- <-].
  - destruct current_level as [|c cs]; [by intros [= <- <-]|].
    cbn [kahn_levels].
    destruct (kahn_step table services services_distinct graph graph_built
                levels (c :: cs) in_degree Hinv)
      as (in_degree1 & next_level & -> & Hinv').
    rewrite bind_Ok. apply IH; [done|].
    split; [|split].
    + intros i level s Hi Hs.
      apply lookup_app_Some in Hi as [Hi|[Hlen Hi]].
      * destruct (Htight i level s Hi Hs) as (level' & d & Hlook & Hd & Hdep).
        exists level', d. split; [|done]. apply lookup_app_Some. by left.
      * apply list_lookup_singleton_Some in Hi as [Hi <-].
        assert (length levels = S i) as Hlength by lia.
        destruct (last levels) as [finished|] eqn:Efin.
        -- rewrite elem_of_sorted in Hs.
           destruct (Hlast finished eq_refl s Hs) as (d & Hd & Hdep).
           exists finished, d. split; [|done].
           apply lookup_app_Some. left.
           rewrite last_lookup, Hlength in Efin. done.
        -- apply last_None in Efin. by rewrite Efin in Hlength.
    + apply Forall_app. split; [done|]. constructor; [|constructor].
      intros Hnil. apply (f_equal length) in Hnil. by rewrite length_sorted in Hnil.
    + intros finished Hfin s Hs. rewrite last_snoc in Hfin. injection Hfin as <-.
      by eapply next_level_tight.
Qed.
End layering.

Section packed_plan.
Variable table : gmap string (list string).
Variable services : list string.
Hypothesis services_distinct : NoDup services.

Local Abbreviation isp := (in_set_prerequisites table services).
Local Abbreviation pending := (unmet table services).

(** Lines 126-146 once more, with what the loop leaves behind: the levels of
    the loop satisfy the invariant, they are tight, and none is empty. *)
Lemma topological_sort_kahn :
  ¬ Forall (λ s, in_degree_of table services s ≠ 0%nat) services →
  ∃ kahn in_degree,
    kahn_invariant table services kahn [] in_degree ∧
    levels_tight table services kahn ∧
    Forall (λ level, level ≠ []) kahn ∧
    Forall (Sorted String.le) kahn ∧
    topological_sort table services =
      Ok (if decide (length (mjoin kahn) = length services) then ([], kahn)
          else (cycle_warning (filter (.∉ mjoin kahn) services),
                kahn ++ [sorted (filter (.∉ mjoin kahn) services)])).
Proof.
  intros Hfree. unfold topological_sort.
  destruct (build_graph_spec table services) as (graph & in_degree & -> & Hgraph & Hdeg).
  rewrite bind_Ok. cbn beta iota. rewrite (first_level _ _ _ Hdeg), bind_Ok.
  set (current_level := filter _ services).
  assert (kahn_invariant table services [] current_level in_degree) as Hinv.
  { split; simpl.
    - by apply NoDup_filter.
    - by intros x [_ ?]%list_elem_of_filter.
    - intros s Hs. rewrite Hdeg, unmet_nothing_placed, occurrences_NoDup by done.
      unfold in_degree_of. do 2 f_equal. lia.
    - intros s Hs. rewrite unmet_nothing_placed. unfold current_level.
      rewrite list_elem_of_filter. unfold in_degree_of. split.
      + intros [E _]. by apply nil_length_inv.
      + intros ->. done.
    - intros i level s d Hi. by rewrite lookup_nil in Hi. }
  destruct current_level as [|c cs] eqn:Hcur.
  { destruct Hfree. apply Forall_forall. intros s Hs E.
    assert (s ∈ filter (λ s, in_degree_of table services s = 0%nat) services) as Hin
      by (by apply list_elem_of_filter).
    fold current_level in Hin. rewrite Hcur in Hin. by apply elem_of_nil in Hin. }
  destruct (kahn_levels_spec table services services_distinct graph Hgraph
              (length services) [] (c :: cs) in_degree Hinv)
    as (kahn & in_degree' & Hkahn & Hinv'); [simpl; lia|].
  destruct (kahn_levels_tight table services services_distinct graph Hgraph
              (length services) [] (c :: cs) in_degree kahn in_degree' Hinv)
    as [Htight Hne]; [|exact Hkahn|].
  { split; [|split; [constructor|done]]. intros i level s Hi. by rewrite lookup_nil in Hi. }
  pose proof (kahn_levels_sorted _ _ _ _ _ _ _ Hkahn (Forall_nil_2 _)) as Hsorted.
  rewrite Hkahn, bind_Ok. cbn beta iota. rewrite <- length_join.
  exists kahn, in_degree'. split; [done|]. split; [done|]. split; [done|]. split; [done|].
  case_bool_decide as Hlen.
  - rewrite decide_False by done.
    rewrite (select_filter _ (.∉ mjoin kahn)); [done|].
    intros s Hs.
    rewrite (getitem_Some _ _ _ (in_degree_unmet _ _ _ _ _ Hinv' s Hs)), bind_Ok. f_equal.
    pose proof (placed_iff_ready _ _ _ _ _ Hinv' s Hs) as Hready.
    rewrite app_nil_r in Hready.
    case_bool_decide as E.
    + apply Z.ltb_lt. destruct (pending (mjoin kahn) s); [|simpl; lia].
      destruct E. by apply Hready.
    + apply Z.ltb_ge. apply Hready in E. rewrite E. simpl. lia.
  - by rewrite decide_True by done.
Qed.

(** The levels of the loop hold no service of a cycle: along a chain of
    in-set prerequisites the level index goes down. *)
Lemma placed_not_on_cycle kahn in_degree s :
  kahn_invariant table services kahn [] in_degree →
  s ∈ mjoin kahn → ¬ tc (depends_on table services) s s.
Proof.
  intros Hinv Hs Hcycle.
  pose proof (placed_distinct _ _ _ _ _ Hinv) as Hnodup. rewrite app_nil_r in Hnodup.
  assert (∀ x y, tc (depends_on table services) x y →
            ∀ i, level_index kahn x = Some i →
                 ∃ j, level_index kahn y = Some j ∧ (j < i)%nat) as Hdown.
  { induction 1 as [x y [_ Hxy]|x y z [_ Hxy] _ IH]; intros i Hi.
    - apply level_index_Some in Hi as (level & Hi & Hx).
      destruct (earlier_levels _ _ _ _ _ Hinv i level x y Hi Hx Hxy)
        as (j & level' & Hj & Hlook & Hy).
      exists j. split; [by eapply level_index_lookup|done].
    - apply level_index_Some in Hi as (level & Hi & Hx).
      destruct (earlier_levels _ _ _ _ _ Hinv i level x y Hi Hx Hxy)
        as (j & level' & Hj & Hlook & Hy).
      destruct (IH j) as (k & Hk & Hlt); [by eapply level_index_lookup|].
      exists k. split; [done|lia]. }
  destruct (level_index_elem_of kahn s Hs) as [i Hi].
  destruct (Hdown s s Hcycle i Hi) as (j & Hj & Hlt).
  rewrite Hi in Hj. injection Hj as ->. lia.
Qed.
End packed_plan.

(** On an acyclic candidate set the plan is the list of levels of the loop. *)
Lemma acyclic_plan table services :
  NoDup services → acyclic table services → services ≠ [] →
  ∃ levels in_degree,
    topological_sort table services = Ok ([], levels) ∧
    kahn_invariant table services levels [] in_degree ∧
    levels_tight table services levels ∧
    Forall (λ level, level ≠ []) levels ∧
    mjoin levels ≡ₚ services.
Proof.
  intros Hnodup Hacyclic Hne.
  destruct (topological_sort_kahn table services Hnodup
              (acyclic_has_source table services Hnodup Hacyclic Hne))
    as (kahn & in_degree & Hinv & Htight & Hnonempty & _ & Hrun).
  pose proof (placed_distinct _ _ _ _ _ Hinv) as Hdistinct.
  pose proof (placed_candidates _ _ _ _ _ Hinv) as Hsub.
  rewrite app_nil_r in Hdistinct.
  assert (mjoin kahn ≡ₚ services) as Hperm.
  { apply NoDup_Permutation; [done..|]. intros x. split.
    - intros Hx. apply Hsub. by rewrite app_nil_r.
    - by apply (acyclic_all_placed table services kahn in_degree). }
  rewrite decide_True in Hrun by (by rewrite Hperm).
  by exists kahn, in_degree.
Qed.

(** On distinct candidates without a cycle every service runs as early as
    its prerequisites allow: each of its prerequisites that is a candidate is
    in a strictly earlier level, a service with no prerequisite among the
    candidates is in the first level, and any other service is in the level
    right after one of its prerequisites. *)
Theorem topological_sort_runs_each_service_as_early_as_allowed
    (table : gmap string (list string)) (services : list string) :
  NoDup services →
  acyclic table services →
  ∃ printed levels,
    topological_sort table services = Ok (printed, levels) ∧
    ∀ s, s ∈ services →
      ∃ i, level_index levels s = Some i ∧
        (∀ d, d ∈ in_set_prerequisites table services s →
           ∃ j, level_index levels d = Some j ∧ (j < i)%nat) ∧
        match i with
        | O => in_set_prerequisites table services s = []
        | S i' => ∃ d, d ∈ in_set_prerequisites table services s ∧
                       level_index levels d = Some i'
        end.
Proof.
  intros Hnodup Hacyclic.
  destruct (decide (services = [])) as [->|Hne].
  { destruct (topological_sort_total table []) as (printed & levels & Hrun).
    exists printed, levels. split; [done|]. by intros s ?%elem_of_nil. }
  destruct (acyclic_plan table services Hnodup Hacyclic Hne)
    as (levels & in_degree & Hrun & Hinv & Htight & _ & Hperm).
  exists [], levels. split; [done|]. intros s Hs.
  assert (NoDup (mjoin levels)) as Hdistinct by (by rewrite Hperm).
  destruct (level_index_elem_of levels s) as [i Hi]; [by rewrite Hperm|].
  exists i. split; [done|].
  destruct (level_index_Some levels s i Hi) as (level & Hlevel & Hin).
  assert (∀ d, d ∈ in_set_prerequisites table services s →
            ∃ j, level_index levels d = Some j ∧ (j < i)%nat) as Hearlier.
  { intros d Hd.
    destruct (earlier_levels _ _ _ _ _ Hinv i level s d Hlevel Hin Hd)
      as (j & level' & Hj & Hlook & Hd').
    exists j. split; [by eapply level_index_lookup|done]. }
  split; [done|]. destruct i as [|i].
  - destruct (in_set_prerequisites table services s) as [|d l] eqn:E; [done|].
    destruct (Hearlier d) as (j & _ & Hj); [left|lia].
  - destruct (Htight i level s Hlevel Hin) as (level' & d & Hlook & Hd & Hdep).
    exists d. split; [done|]. by eapply level_index_lookup.
Qed.

Lemma topological_sort_runs_each_service_as_early_as_allowed_witness :
  ∃ printed levels,
    topological_sort SERVICE_DEPENDENCIES ["compute"; "identity"; "network"; "oss"] =
      Ok (printed, levels) ∧
    ∀ s, s ∈ ["compute"; "identity"; "network"; "oss"] →
      ∃ i, level_index levels s = Some i ∧
        (∀ d, d ∈ in_set_prerequisites SERVICE_DEPENDENCIES
                    ["compute"; "identity"; "network"; "oss"] s →
           ∃ j, level_index levels d = Some j ∧ (j < i)%nat) ∧
        match i with
        | O => in_set_prerequisites SERVICE_DEPENDENCIES
                 ["compute"; "identity"; "network"; "oss"] s = []
        | S i' => ∃ d, d ∈ in_set_prerequisites SERVICE_DEPENDENCIES
                             ["compute"; "identity"; "network"; "oss"] s ∧
                       level_index levels d = Some i'
        end.
Proof.
  apply (topological_sort_runs_each_service_as_early_as_allowed SERVICE_DEPENDENCIES
           ["compute"; "identity"; "network"; "oss"]).
  - apply (bool_decide_unpack _). vm_compute. exact I.
  - apply SERVICE_DEPENDENCIES_acyclic.
Defined.

(** Under the dependency table of the source a plan has at most three
    levels: a chain of prerequisites goes down the tiers of the table. *)
Theorem topological_sort_has_at_most_three_levels (services : list string) :
  NoDup services →
  ∃ printed levels,
    topological_sort SERVICE_DEPENDENCIES services = Ok (printed, levels) ∧
    (length levels ≤ 3)%nat.
Proof.
  intros Hnodup.
  destruct (decide (services = [])) as [->|Hne].
  { exists [no_zero_warning], []. split; [|simpl; lia]. vm_compute. reflexivity. }
  destruct (acyclic_plan SERVICE_DEPENDENCIES services Hnodup
              (SERVICE_DEPENDENCIES_acyclic services) Hne)
    as (levels & in_degree & Hrun & _ & Htight & Hnonempty & _).
  exists [], levels. split; [done|].
  assert (∀ i level s, levels !! i = Some level → s ∈ level → (i ≤ tier s)%nat) as Htier.
  { induction i as [|i IH]; intros level s Hlevel Hs; [lia|].
    destruct (Htight i level s Hlevel Hs) as (level' & d & Hlook & Hd & Hdep).
    pose proof (IH level' d Hlook Hd) as Hi.
    unfold in_set_prerequisites in Hdep. apply list_elem_of_filter in Hdep as [_ Hdep].
    apply SERVICE_DEPENDENCIES_tiers in Hdep. lia. }
  destruct (levels !! 3%nat) as [level|] eqn:E.
  - pose proof (proj1 (Forall_forall _ _) Hnonempty level
                  (list_elem_of_lookup_2 _ _ _ E)) as Hlevel.
    destruct level as [|s level]; [done|].
    pose proof (Htier 3%nat (s :: level) s E (list_elem_of_here _ _)) as Hs.
    unfold tier in Hs. repeat case_decide; lia.
  - apply lookup_ge_None in E. lia.
Qed.

Lemma topological_sort_has_at_most_three_levels_witness :
  ∃ printed levels,
    topological_sort SERVICE_DEPENDENCIES
      ["compute"; "database"; "identity"; "network"; "oss"] = Ok (printed, levels) ∧
    (length levels ≤ 3)%nat.
Proof.
  apply (topological_sort_has_at_most_three_levels
           ["compute"; "database"; "identity"; "network"; "oss"]).
  apply (bool_decide_unpack _). vm_compute. exact I.
Defined.

(** *** Cycles *)

Lemma tc_first_step {A} (R : relation A) x y : tc R x y → ∃ z, R x z.
Proof. destruct 1; eauto. Qed.

(** Distinct candidates of which one has no prerequisite among them and one
    is on a cycle: the services that can be ordered are levelled as usual,
    and all the others, the services of the cycle among them, make up one
    last level in alphabetical order; each of these has a prerequisite that
    is in the last level too, and the warning names them in input order. *)
Theorem topological_sort_puts_cycles_last
    (table : gmap string (list string)) (services : list string) (free c : string) :
  NoDup services →
  free ∈ services →
  in_set_prerequisites table services free = [] →
  tc (depends_on table services) c c →
  ∃ ordered remaining,
    topological_sort table services =
      Ok (cycle_warning remaining, ordered ++ [sorted remaining]) ∧
    remaining = filter (.∉ mjoin ordered) services ∧
    free ∈ mjoin ordered ∧
    c ∈ remaining ∧
    (∀ s d, s ∈ mjoin ordered → d ∈ in_set_prerequisites table services s →
       ∃ i j, level_index ordered s = Some i ∧ level_index ordered d = Some j ∧
              (j < i)%nat) ∧
    (∀ s, s ∈ remaining →
       ∃ d, d ∈ remaining ∧ d ∈ in_set_prerequisites table services s).
Proof.
  intros Hnodup Hfree Hsource Hcycle.
  assert (¬ Forall (λ s, in_degree_of table services s ≠ 0%nat) services) as Hnot.
  { intros Hblocked. apply (proj1 (Forall_forall _ _) Hblocked free Hfree).
    unfold in_degree_of. by rewrite Hsource. }
  destruct (topological_sort_kahn table services Hnodup Hnot)
    as (kahn & in_degree & Hinv & _ & _ & _ & Hrun).
  pose proof (placed_distinct _ _ _ _ _ Hinv) as Hdistinct.
  pose proof (placed_candidates _ _ _ _ _ Hinv) as Hsub.
  rewrite app_nil_r in Hdistinct.
  assert (c ∈ services) as Hc by (by destruct (tc_first_step _ _ _ Hcycle) as (z & ? & _)).
  assert (c ∉ mjoin kahn) as Hout
    by (intros Hin; by apply (placed_not_on_cycle table services kahn in_degree c Hinv Hin)).
  assert (length (mjoin kahn) ≠ length services) as Hlen.
  { intros Hlen. apply Hout.
    assert (mjoin kahn ≡ₚ services) as Hperm; [|by rewrite Hperm].
    apply submseteq_length_Permutation; [|lia].
    apply NoDup_submseteq; [done|]. intros x Hx. apply Hsub. by rewrite app_nil_r. }
  rewrite decide_False in Hrun by done.
  exists kahn, (filter (.∉ mjoin kahn) services).
  split; [done|]. split; [done|]. split; [|split; [|split]].
  - assert (free ∈ mjoin kahn ++ []) as Hin; [|by rewrite app_nil_r in Hin].
    apply (placed_iff_ready _ _ _ _ _ Hinv free Hfree).
    unfold unmet. by rewrite Hsource.
  - by apply list_elem_of_filter.
  - intros s d Hs Hd.
    destruct (level_index_elem_of kahn s Hs) as [i Hi].
    destruct (level_index_Some kahn s i Hi) as (level & Hlevel & Hin).
    destruct (earlier_levels _ _ _ _ _ Hinv i level s d Hlevel Hin Hd)
      as (j & level' & Hj & Hlook & Hd').
    exists i, j. split; [done|]. split; [by eapply level_index_lookup|done].
  - intros s [Hs Hss]%list_elem_of_filter.
    assert (unmet table services (mjoin kahn) s ≠ []) as Hpending.
    { intros Hnil. apply Hs.
      pose proof (proj2 (placed_iff_ready _ _ _ _ _ Hinv s Hss) Hnil) as Hin.
      by rewrite app_nil_r in Hin. }
    destruct (unmet table services (mjoin kahn) s) as [|d l] eqn:E; [done|].
    assert (d ∈ unmet table services (mjoin kahn) s) as Hd by (rewrite E; left).
    unfold unmet in Hd. apply list_elem_of_filter in Hd as [Hd1 Hd2].
    exists d. split; [|done]. apply list_elem_of_filter. split; [done|].
    unfold in_set_prerequisites in Hd2. by apply list_elem_of_filter in Hd2 as [? _].
Qed.

Lemma topological_sort_puts_cycles_last_witness :
  ∃ ordered remaining,
    topological_sort cyclic_table ["d"; "c"; "b"; "a"] =
      Ok (cycle_warning remaining, ordered ++ [sorted remaining]) ∧
    remaining = filter (.∉ mjoin ordered) ["d"; "c"; "b"; "a"] ∧
    "c" ∈ mjoin ordered ∧
    "a" ∈ remaining ∧
    (∀ s d, s ∈ mjoin ordered →
       d ∈ in_set_prerequisites cyclic_table ["d"; "c"; "b"; "a"] s →
       ∃ i j, level_index ordered s = Some i ∧ level_index ordered d = Some j ∧
              (j < i)%nat) ∧
    (∀ s, s ∈ remaining →
       ∃ d, d ∈ remaining ∧ d ∈ in_set_prerequisites cyclic_table ["d"; "c"; "b"; "a"] s).
Proof.
  apply (topological_sort_puts_cycles_last cyclic_table ["d"; "c"; "b"; "a"] "c" "a").
  - apply (bool_decide_unpack _). vm_compute. exact I.
  - apply (bool_decide_unpack _). vm_compute. exact I.
  - vm_compute. reflexivity.
  - apply (tc_l _ "a" "b" "a").
    + split; [apply (bool_decide_unpack _); vm_compute; exact I|].
      apply (bool_decide_unpack _). vm_compute. exact I.
    + apply tc_once. split; [apply (bool_decide_unpack _); vm_compute; exact I|].
      apply (bool_decide_unpack _). vm_compute. exact I.
Defined.

(** *** The plan and the order of the candidates *)

Lemma in_set_prerequisites_perm table l1 l2 s :
  l1 ≡ₚ l2 → in_set_prerequisites table l1 s = in_set_prerequisites table l2 s.
Proof.
  intros Hperm. unfold in_set_prerequisites. apply list_filter_iff.
  intros x. by rewrite Hperm.
Qed.

Lemma kahn_invariant_perm table l1 l2 levels current_level in_degree :
  l1 ≡ₚ l2 →
  kahn_invariant table l1 levels current_level in_degree →
  kahn_invariant table l2 levels current_level in_degree.
Proof.
  intros Hperm [Hnodup Hsub Hdeg Hready Hord].
  assert (∀ placed s, unmet table l2 placed s = unmet table l1 placed s) as Hunmet.
  { intros placed s. unfold unmet. by rewrite (in_set_prerequisites_perm table l1 l2). }
  split.
  - done.
  - intros x Hx. rewrite <- Hperm. by apply Hsub.
  - intros s Hs. rewrite Hunmet. apply Hdeg. by rewrite Hperm.
  - intros s Hs. rewrite Hunmet. apply Hready. by rewrite Hperm.
  - intros i level s d Hi Hs Hd.
    rewrite <- (in_set_prerequisites_perm table l1 l2) in Hd by done. by eapply Hord.
Qed.

Lemma levels_tight_perm table l1 l2 levels :
  l1 ≡ₚ l2 → levels_tight table l1 levels → levels_tight table l2 levels.
Proof.
  intros Hperm Htight i level s Hi Hs.
  destruct (Htight i level s Hi Hs) as (level' & d & Hlook & Hd & Hdep).
  exists level', d. split; [done|]. split; [done|].
  by rewrite <- (in_set_prerequisites_perm table l1 l2).
Qed.

Lemma NoDup_level (levels : list (list string)) i level :
  NoDup (mjoin levels) → levels !! i = Some level → NoDup level.
Proof.
  revert i. induction levels as [|first rest IH]; intros i Hnodup Hi; [done|].
  simpl in Hnodup. apply NoDup_app in Hnodup as (Hfirst & _ & Hrest).
  destruct i as [|i]; simpl in Hi; [by injection Hi as <-|by eapply IH].
Qed.

Lemma sorted_perm (l k : list string) : l ≡ₚ k → sorted l = sorted k.
Proof.
  intros Hperm. unfold sorted.
  apply (Sorted_unique String.le); [apply Sorted_merge_sort, _..|].
  by rewrite !merge_sort_Permutation.
Qed.

Section unique_levels.
Variable table : gmap string (list string).
Variable services : list string.

Local Abbreviation at_level := (λ (levels : list (list string)) (i : nat) (s : string),
  ∃ level, levels !! i = Some level ∧ s ∈ level).

Lemma at_level_unique (levels : list (list string)) i j s :
  NoDup (mjoin levels) → at_level levels i s → at_level levels j s → i = j.
Proof.
  intros Hnodup (a & Ha & Hsa) (b & Hb & Hsb).
  pose proof (level_index_lookup levels i a s Hnodup Ha Hsa) as Hi.
  pose proof (level_index_lookup levels j b s Hnodup Hb Hsb) as Hj.
  congruence.
Qed.

(** Two lists of levels that both satisfy the invariant of the finished loop
    and are tight agree level by level: what is in level [i] of the one is in
    level [i] of the other, given that they agree below [i]. *)
Lemma level_transfer La da Lb db i :
  kahn_invariant table services La [] da → levels_tight table services La →
  kahn_invariant table services Lb [] db → levels_tight table services Lb →
  (∀ j, (j < i)%nat → ∀ x, at_level La j x ↔ at_level Lb j x) →
  ∀ s, at_level La i s → at_level Lb i s.
Proof.
  intros Hinva Htighta Hinvb Htightb IH s (level & Hlevel & Hs).
  pose proof (placed_distinct _ _ _ _ _ Hinva) as Hdista. rewrite app_nil_r in Hdista.
  pose proof (placed_distinct _ _ _ _ _ Hinvb) as Hdistb. rewrite app_nil_r in Hdistb.
  assert (s ∈ services) as Hss.
  { apply (placed_candidates _ _ _ _ _ Hinva). rewrite app_nil_r.
    apply list_elem_of_join. exists level. split; [done|].
    by eapply list_elem_of_lookup_2. }
  assert (s ∈ mjoin Lb) as Hplaced.
  { assert (s ∈ mjoin Lb ++ []) as Hin; [|by rewrite app_nil_r in Hin].
    apply (placed_iff_ready _ _ _ _ _ Hinvb s Hss). apply unmet_nil_iff.
    intros d Hd.
    destruct (earlier_levels _ _ _ _ _ Hinva i level s d Hlevel Hs Hd)
      as (j & level' & Hj & Hlook & Hd').
    destruct (proj1 (IH j Hj d)) as (level'' & Hlook' & Hd''); [by exists level'|].
    apply list_elem_of_join. exists level''. split; [done|].
    by eapply list_elem_of_lookup_2. }
  apply list_elem_of_join in Hplaced as (levelb & Hsb & Hlevelb).
  apply list_elem_of_lookup in Hlevelb as [k Hk].
  assert (k = i) as ->; [|by exists levelb].
  destruct (decide (k < i)%nat) as [Hlt|Hge].
  { apply (at_level_unique La k i s Hdista); [|by exists level].
    apply (IH k Hlt s). by exists levelb. }
  destruct (decide (i < k)%nat) as [Hgt|?]; [|lia].
  destruct k as [|k]; [lia|].
  destruct (Htightb k levelb s Hk Hsb) as (level' & d & Hlook & Hd & Hdep).
  destruct (earlier_levels _ _ _ _ _ Hinva i level s d Hlevel Hs Hdep)
    as (j & level'' & Hj & Hlook' & Hd').
  assert (j = k) as ->; [|lia].
  apply (at_level_unique Lb j k d Hdistb); [|by exists level'].
  apply (IH j Hj d). by exists level''.
Qed.

Lemma levels_unique La da Lb db :
  kahn_invariant table services La [] da → levels_tight table services La →
  Forall (λ level, level ≠ []) La → Forall (Sorted String.le) La →
  kahn_invariant table services Lb [] db → levels_tight table services Lb →
  Forall (λ level, level ≠ []) Lb → Forall (Sorted String.le) Lb →
  La = Lb.
Proof.
  intros Hinva Htighta Hnea Hsorta Hinvb Htightb Hneb Hsortb.
  pose proof (placed_distinct _ _ _ _ _ Hinva) as Hdista. rewrite app_nil_r in Hdista.
  pose proof (placed_distinct _ _ _ _ _ Hinvb) as Hdistb. rewrite app_nil_r in Hdistb.
  assert (∀ i x, at_level La i x ↔ at_level Lb i x) as Hsame.
  { intros i. induction (lt_wf i) as [i _ IH]. intros x. split.
    - by apply (level_transfer La da Lb db i).
    - apply (level_transfer Lb db La da i); [done..|].
      intros j Hj y. symmetry. by apply IH. }
  assert (∀ L L' i a,
            Forall (λ level, level ≠ []) L →
            (∀ i x, at_level L i x → at_level L' i x) →
            L !! i = Some a → ∃ b, L' !! i = Some b ∧ ∀ x, x ∈ a → x ∈ b) as Hlook.
  { intros L L' i a Hne Hto Ha.
    pose proof (proj1 (Forall_forall _ _) Hne a (list_elem_of_lookup_2 _ _ _ Ha)) as Hnil.
    destruct a as [|x a]; [done|].
    destruct (Hto i x) as (b & Hb & _); [exists (x :: a); split; [done|left]|].
    exists b. split; [done|]. intros y Hy.
    destruct (Hto i y) as (b' & Hb' & Hy'); [by exists (x :: a)|]. congruence. }
  apply list_eq. intros i.
  destruct (La !! i) as [a|] eqn:Ha.
  - destruct (Hlook La Lb i a Hnea (λ i x, proj1 (Hsame i x)) Ha) as (b & Hb & Hab).
    destruct (Hlook Lb La i b Hneb (λ i x, proj2 (Hsame i x)) Hb) as (a' & Ha' & Hba).
    rewrite Ha in Ha'. injection Ha' as <-. rewrite Hb. f_equal.
    apply (Sorted_unique String.le).
    + apply (proj1 (Forall_forall _ _) Hsorta a). by eapply list_elem_of_lookup_2.
    + apply (proj1 (Forall_forall _ _) Hsortb b). by eapply list_elem_of_lookup_2.
    + apply NoDup_Permutation;
        [exact (NoDup_level La i a Hdista Ha)|exact (NoDup_level Lb i b Hdistb Hb)|].
      intros x. split; auto.
  - destruct (Lb !! i) as [b|] eqn:Hb; [|done].
    destruct (Hlook Lb La i b Hneb (λ i x, proj2 (Hsame i x)) Hb) as (a' & Ha' & _).
    congruence.
Qed.
End unique_levels.

(** The plan does not depend on the order in which the candidates are given,
    as long as one of them has no prerequisite among them: two lists of the
    same distinct candidates get the same levels. *)
Theorem topological_sort_ignores_input_order
    (table : gmap string (list string)) (l1 l2 : list string) (free : string) :
  NoDup l1 →
  l1 ≡ₚ l2 →
  free ∈ l1 →
  in_set_prerequisites table l1 free = [] →
  ∃ printed1 printed2 levels,
    topological_sort table l1 = Ok (printed1, levels) ∧
    topological_sort table l2 = Ok (printed2, levels).
Proof.
  intros Hnodup Hperm Hfree Hsource.
  assert (NoDup l2) as Hnodup2 by (by rewrite <- Hperm).
  assert (¬ Forall (λ s, in_degree_of table l1 s ≠ 0%nat) l1) as Hnot1.
  { intros Hblocked. apply (proj1 (Forall_forall _ _) Hblocked free Hfree).
    unfold in_degree_of. by rewrite Hsource. }
  assert (¬ Forall (λ s, in_degree_of table l2 s ≠ 0%nat) l2) as Hnot2.
  { intros Hblocked.
    apply (proj1 (Forall_forall _ _) Hblocked free); [by rewrite <- Hperm|].
    unfold in_degree_of. by rewrite <- (in_set_prerequisites_perm table l1 l2), Hsource. }
  destruct (topological_sort_kahn table l1 Hnodup Hnot1)
    as (kahn1 & d1 & Hinv1 & Htight1 & Hne1 & Hsorted1 & Hrun1).
  destruct (topological_sort_kahn table l2 Hnodup2 Hnot2)
    as (kahn2 & d2 & Hinv2 & Htight2 & Hne2 & Hsorted2 & Hrun2).
  assert (kahn1 = kahn2) as <-.
  { apply (levels_unique table l1 kahn1 d1 kahn2 d2); try done.
    - by apply (kahn_invariant_perm table l2 l1).
    - by apply (levels_tight_perm table l2 l1). }
  assert (length l2 = length l1) as Hlength by (by rewrite Hperm).
  rewrite Hlength in Hrun2. rewrite Hrun1, Hrun2.
  destruct (decide (length (mjoin kahn1) = length l1)).
  - by exists [], [], kahn1.
  - eexists _, _, _. split; [done|].
    by rewrite (sorted_perm (filter (.∉ mjoin kahn1) l2) (filter (.∉ mjoin kahn1) l1))
      by (by rewrite Hperm).
Qed.

Lemma topological_sort_ignores_input_order_witness :
  ∃ printed1 printed2 levels,
    topological_sort SERVICE_DEPENDENCIES ["compute"; "identity"; "network"; "oss"] =
      Ok (printed1, levels) ∧
    topological_sort SERVICE_DEPENDENCIES ["oss"; "network"; "compute"; "identity"] =
      Ok (printed2, levels).
Proof.
  apply (topological_sort_ignores_input_order SERVICE_DEPENDENCIES
           ["compute"; "identity"; "network"; "oss"]
           ["oss"; "network"; "compute"; "identity"] "identity").
  - apply (bool_decide_unpack _). vm_compute. exact I.
  - apply NoDup_Permutation.
    + apply (bool_decide_unpack _). vm_compute. exact I.
    + apply (bool_decide_unpack _). vm_compute. exact I.
    + intros x. rewrite !elem_of_cons, !elem_of_nil. tauto.
  - apply (bool_decide_unpack _). vm_compute. exact I.
  - vm_compute. reflexivity.
Defined.

(** *** No level is empty *)

(** The plan for distinct candidates has no empty level, so that the slice
    [all_results[-len(level_services):]] of the level loop holds the results
    of the level just run and no others. *)
Theorem topological_sort_levels_are_not_empty
    (table : gmap string (list string)) (services : list string) :
  NoDup services →
  ∃ printed levels,
    topological_sort table services = Ok (printed, levels) ∧
    Forall (λ level, level ≠ []) levels.
Proof.
  intros Hnodup.
  destruct (decide (Forall (λ s, in_degree_of table services s ≠ 0%nat) services))
    as [Hblocked|Hfree].
  { rewrite (topological_sort_blocked _ _ Hblocked). eexists _, _. split; [done|].
    apply Forall_fmap, Forall_true. done. }
  destruct (topological_sort_kahn table services Hnodup Hfree)
    as (kahn & in_degree & Hinv & _ & Hne & _ & ->).
  destruct (decide (length (mjoin kahn) = length services)) as [Hlen|Hlen].
  { by exists [], kahn. }
  eexists _, _. split; [done|]. apply Forall_app. split; [done|].
  constructor; [|constructor]. intros Hnil. apply Hlen.
  apply (f_equal length) in Hnil. rewrite length_sorted in Hnil.
  apply nil_length_inv in Hnil.
  pose proof (placed_distinct _ _ _ _ _ Hinv) as Hdistinct.
  pose proof (placed_candidates _ _ _ _ _ Hinv) as Hsub.
  rewrite app_nil_r in Hdistinct.
  assert (mjoin kahn ≡ₚ services) as Hperm; [|by rewrite Hperm].
  apply NoDup_Permutation; [done..|]. intros x. split.
  - intros Hx. apply Hsub. by rewrite app_nil_r.
  - intros Hx. destruct (decide (x ∈ mjoin kahn)) as [|Hout]; [done|].
    assert (x ∈ filter (.∉ mjoin kahn) services) as Hin by (by apply list_elem_of_filter).
    rewrite Hnil in Hin. by apply elem_of_nil in Hin.
Qed.

Lemma topological_sort_levels_are_not_empty_witness :
  ∃ printed levels,
    topological_sort cyclic_table ["d"; "c"; "b"; "a"] = Ok (printed, levels) ∧
    Forall (λ level, level ≠ []) levels.
Proof.
  apply (topological_sort_levels_are_not_empty cyclic_table ["d"; "c"; "b"; "a"]).
  apply (bool_decide_unpack _). vm_compute. exact I.
Defined.

(** ** Strings of digits *)

Lemma string_app_nil_l (s : string) : "" +:+ s = s.
Proof. done. Qed.

Lemma string_app_cons (c : ascii) (s t : string) : String c s +:+ t = String c (s +:+ t).
Proof. done. Qed.

Lemma string_app_nil_r (s : string) : s +:+ "" = s.
Proof. induction s as [|c s IH]; [done|]. by rewrite string_app_cons, IH. Qed.

Lemma string_app_assoc (s t u : string) : (s +:+ t) +:+ u = s +:+ (t +:+ u).
Proof. induction s as [|c s IH]; [done|]. by rewrite !string_app_cons, IH. Qed.

Lemma string_forall_app p s t :
  string_forall p (s +:+ t) = string_forall p s && string_forall p t.
Proof.
  induction s as [|c s IH]; [done|].
  rewrite string_app_cons. simpl. by rewrite IH, andb_assoc.
Qed.

Lemma string_forall_impl (p q : ascii → bool) s :
  (∀ c, p c = true → q c = true) → string_forall p s = true → string_forall q s = true.
Proof.
  intros Hpq. induction s as [|c s IH]; [done|]. simpl.
  intros [Hc Hs]%andb_true_iff. by rewrite (Hpq c Hc), IH.
Qed.

Lemma isdigit_pretty_N_char n : isdigit (pretty_N_char n) = true.
Proof. unfold pretty_N_char. by repeat case_match. Qed.

Lemma is_nat_pretty_N_char n :
  (n < 10)%N → Ascii.is_nat (pretty_N_char n) = Some (N.to_nat n).
Proof.
  intros Hn.
  assert (n = 0 ∨ n = 1 ∨ n = 2 ∨ n = 3 ∨ n = 4 ∨ n = 5 ∨ n = 6 ∨ n = 7 ∨ n = 8 ∨ n = 9)%N
    as Hcases by lia.
  by repeat (destruct Hcases as [->|Hcases]; [done|]); subst.
Qed.

(** The digits that [pretty] prints, in front of [s]. *)
Lemma pretty_N_go_digits x :
  ∀ s, ∃ digits,
    pretty_N_go x s = digits +:+ s ∧ string_forall isdigit digits = true ∧
    ((0 < x)%N → digits ≠ "").
Proof.
  induction (N.lt_wf_0 x) as [x _ IH]. intros s.
  destruct (decide (0 < x)%N) as [Hpos|Hzero].
  - rewrite pretty_N_go_step by done.
    destruct (IH (x `div` 10)%N (N.div_lt x 10 Hpos eq_refl)
                (String (pretty_N_char (x `mod` 10)) s))
      as (digits & -> & Hdigits & _).
    exists (digits +:+ String (pretty_N_char (x `mod` 10)) "").
    split; [by rewrite string_app_assoc|]. split.
    + rewrite string_forall_app, Hdigits. simpl. by rewrite isdigit_pretty_N_char.
    + intros _. by destruct digits.
  - assert (x = 0%N) as -> by lia. exists "". by rewrite pretty_N_go_0.
Qed.

Lemma pretty_N_digits (n : N) :
  string_forall isdigit (pretty n) = true ∧ pretty n ≠ "".
Proof.
  unfold pretty, pretty_N. case_decide as Hn; [done|].
  destruct (pretty_N_go_digits n "") as (digits & -> & Hdigits & Hne).
  rewrite string_app_nil_r. split; [done|]. apply Hne. lia.
Qed.

(** [int()] reads the digits back. *)
Lemma int_digits_pretty_N_go x :
  ∀ s b,
    int_digits (pretty_N_go x s) 0 b =
    int_digits s (Z.of_N x) (b || bool_decide (0 < x)%N).
Proof.
  induction (N.lt_wf_0 x) as [x _ IH]. intros s b.
  destruct (decide (0 < x)%N) as [Hpos|Hzero].
  - rewrite pretty_N_go_step by done.
    rewrite (IH (x `div` 10)%N (N.div_lt x 10 Hpos eq_refl)).
    cbn [int_digits]. rewrite is_nat_pretty_N_char by (by apply N.mod_lt).
    rewrite (bool_decide_eq_true_2 (0 < x)%N), orb_true_r by done.
    f_equal. pose proof (N.div_mod x 10) as Hx. lia.
  - assert (x = 0%N) as -> by lia. rewrite pretty_N_go_0.
    by rewrite bool_decide_eq_false_2, orb_false_r by lia.
Qed.

Lemma isdigit_not_space c : isdigit c = true → isspace c = false.
Proof. by destruct c as [[] [] [] [] [] [] [] []]. Qed.

Lemma lstrip_nonspace s :
  string_forall (λ c, negb (isspace c)) s = true → lstrip s = s.
Proof.
  destruct s as [|c s]; [done|]. simpl. intros [Hc _]%andb_true_iff.
  by apply negb_true_iff in Hc as ->.
Qed.

Lemma rev_app_rev_app (s a b : string) :
  String.rev_app (String.rev_app s a) b = String.rev_app a (s +:+ b).
Proof.
  revert a b. induction s as [|c s IH]; intros a b; [done|]. simpl.
  by rewrite IH.
Qed.

Lemma string_rev_involutive (s : string) : String.rev (String.rev s) = s.
Proof. unfold String.rev. rewrite rev_app_rev_app. simpl. apply string_app_nil_r. Qed.

Lemma string_forall_rev_app p (s a : string) :
  string_forall p (String.rev_app s a) = string_forall p s && string_forall p a.
Proof.
  revert a. induction s as [|c s IH]; intros a; [done|]. simpl.
  rewrite IH. simpl. destruct (p c), (string_forall p s); done.
Qed.

Lemma strip_nonspace s :
  string_forall (λ c, negb (isspace c)) s = true → strip s = s.
Proof.
  intros Hs. unfold strip, rstrip. rewrite (lstrip_nonspace s Hs).
  rewrite lstrip_nonspace; [apply string_rev_involutive|].
  unfold String.rev. by rewrite string_forall_rev_app, Hs.
Qed.

Lemma digits_nonspace s :
  string_forall isdigit s = true → string_forall (λ c, negb (isspace c)) s = true.
Proof.
  apply string_forall_impl. intros c Hc. by rewrite (isdigit_not_space c Hc).
Qed.

(** On a string of digits [int()] reads the digits: there is no sign and
    nothing to strip. *)
Lemma py_int_digits s :
  string_forall isdigit s = true → py_int s = int_digits s 0 false.
Proof.
  intros Hs. unfold py_int. rewrite (strip_nonspace s (digits_nonspace s Hs)).
  destruct s as [|c s]; [done|]. simpl in Hs. apply andb_true_iff in Hs as [Hc _].
  by destruct c as [[] [] [] [] [] [] [] []].
Qed.

(** [int(str(n)) == n] *)
Lemma py_int_pretty (n : N) : py_int (pretty n) = Some (Z.of_N n).
Proof.
  rewrite py_int_digits by apply pretty_N_digits.
  unfold pretty, pretty_N. case_decide as Hn; [by subst|].
  rewrite int_digits_pretty_N_go. simpl.
  by rewrite bool_decide_eq_true_2 by lia.
Qed.

(** ** Splitting and searching around a run of digits *)

Lemma split_whitespace_nonspace word s :
  string_forall (λ c, negb (isspace c)) s = true →
  split_whitespace word s = if decide (word +:+ s = "") then [] else [word +:+ s].
Proof.
  revert word. induction s as [|c s IH]; intros word Hs.
  - simpl. by rewrite string_app_nil_r.
  - simpl in Hs. apply andb_true_iff in Hs as [Hc Hs]. apply negb_true_iff in Hc.
    simpl. rewrite Hc, IH by done. by rewrite string_app_assoc.
Qed.

Lemma words_nonspace s :
  string_forall (λ c, negb (isspace c)) s = true → s ≠ "" → words s = [s].
Proof.
  intros Hs Hne. unfold words. rewrite split_whitespace_nonspace by done.
  rewrite string_app_nil_l. by rewrite decide_False.
Qed.

Lemma split_whitespace_app_space word a b sp :
  isspace sp = true →
  split_whitespace word (a +:+ String sp b) =
  split_whitespace word a ++ split_whitespace "" b.
Proof.
  intros Hsp. revert word. induction a as [|c a IH]; intros word.
  - rewrite string_app_nil_l. simpl. by rewrite Hsp.
  - rewrite string_app_cons. simpl. destruct (isspace c).
    + by rewrite IH, app_assoc.
    + apply IH.
Qed.

Lemma words_app_space a b : words (a +:+ String " " b) = words a ++ words b.
Proof. by apply split_whitespace_app_space. Qed.

(** The last word before a run of characters that are not white space and
    are followed by a space. *)
Lemma last_word_run (before run : string) :
  string_forall (λ c, negb (isspace c)) run = true → run ≠ "" →
  last (words (before +:+ String " " (run +:+ String " " ""))) = Some run.
Proof.
  intros Hrun Hne. rewrite !words_app_space, (words_nonspace run) by done.
  change (words "") with (@nil string). rewrite app_nil_r. apply last_snoc.
Qed.

Lemma str_before_here needle s :
  String.prefix needle s = true → str_before needle s = "".
Proof.
  intros H. destruct s as [|c s]; cbn [str_before].
  - by destruct (String.prefix needle "").
  - by rewrite H.
Qed.

Lemma str_before_cons needle c s :
  String.prefix needle (String c s) = false →
  str_before needle (String c s) = String c (str_before needle s).
Proof. intros H. cbn [str_before]. by rewrite H. Qed.

Lemma prefix_mismatch n0 needle c s :
  n0 ≠ c → String.prefix (String n0 needle) (String c s) = false.
Proof. intros Hne. simpl. by destruct (ascii_dec n0 c). Qed.

Lemma str_before_digits n0 needle digits rest :
  isdigit n0 = false → string_forall isdigit digits = true →
  str_before (String n0 needle) (digits +:+ rest) =
  digits +:+ str_before (String n0 needle) rest.
Proof.
  intros Hn0. induction digits as [|c digits IH]; intros Hdigits; [done|].
  simpl in Hdigits. apply andb_true_iff in Hdigits as [Hc Hdigits].
  rewrite string_app_cons, str_before_cons, IH by (done || apply prefix_mismatch; congruence).
  done.
Qed.

Lemma contains_here needle s : String.prefix needle s = true → contains needle s = true.
Proof. intros H. destruct s as [|c s]; cbn [contains]; by rewrite H. Qed.

Lemma contains_cons needle c s :
  contains needle s = true → contains needle (String c s) = true.
Proof. intros H. cbn [contains]. rewrite H. apply orb_true_r. Qed.

Lemma contains_app_r needle l r :
  contains needle r = true → contains needle (l +:+ r) = true.
Proof.
  intros H. induction l as [|c l IH]; [done|].
  rewrite string_app_cons. by apply contains_cons.
Qed.

Ltac to_characters := rewrite ?string_app_cons, ?string_app_nil_l.

Ltac find_needle :=
  to_characters;
  repeat first [ apply contains_here; reflexivity
               | apply contains_cons
               | apply contains_app_r ].

Ltac read_to_needle :=
  repeat first [ rewrite str_before_cons by reflexivity
               | rewrite str_before_digits by done ];
  rewrite str_before_here by reflexivity.

(** ** The summary line of an apply: lines 553-576 *)

Section apply_line.
Variables pa pc pd : string.
Hypothesis pa_digits : string_forall isdigit pa = true.
Hypothesis pc_digits : string_forall isdigit pc = true.
Hypothesis pd_digits : string_forall isdigit pd = true.
Hypothesis pa_nonempty : pa ≠ "".
Hypothesis pc_nonempty : pc ≠ "".
Hypothesis pd_nonempty : pd ≠ "".

Local Abbreviation line :=
  ("Apply complete! Resources: " +:+ pa +:+ " added, " +:+ pc +:+ " changed, " +:+
   pd +:+ " destroyed.").

Lemma last_word_before_added : last_word_before "added" line = Some pa.
Proof.
  unfold last_word_before.
  assert (str_before "added" line =
          "Apply complete! Resources:" +:+ String " " (pa +:+ String " " "")) as ->.
  { to_characters. read_to_needle. done. }
  apply last_word_run; [by apply digits_nonspace|done].
Qed.

Lemma last_word_before_changed : last_word_before "changed" line = Some pc.
Proof.
  unfold last_word_before.
  assert (str_before "changed" line =
          ("Apply complete! Resources: " +:+ pa +:+ " added,") +:+
          String " " (pc +:+ String " " "")) as ->.
  { rewrite !string_app_assoc. to_characters. read_to_needle. done. }
  apply last_word_run; [by apply digits_nonspace|done].
Qed.

Lemma last_word_before_destroyed : last_word_before "destroyed" line = Some pd.
Proof.
  unfold last_word_before.
  assert (str_before "destroyed" line =
          ("Apply complete! Resources: " +:+ pa +:+ " added, " +:+ pc +:+ " changed,") +:+
          String " " (pd +:+ String " " "")) as ->.
  { rewrite !string_app_assoc. to_characters. read_to_needle. done. }
  apply last_word_run; [by apply digits_nonspace|done].
Qed.

Lemma parse_apply_line_digits (s : summary) (na nc nd : Z) :
  py_int pa = Some na → py_int pc = Some nc → py_int pd = Some nd →
  parse_apply_line s line =
  {| summary_add := na; summary_change := nc; summary_destroy := nd |}.
Proof.
  intros Ha Hc Hd. unfold parse_apply_line.
  assert (contains "Apply complete!" line = true) as -> by find_needle.
  assert (contains "added" line = true) as -> by find_needle.
  assert (contains "changed" line = true) as -> by find_needle.
  assert (contains "destroyed" line = true) as -> by find_needle.
  rewrite last_word_before_added, last_word_before_changed, last_word_before_destroyed.
  cbn [orb]. unfold set_add, set_change, set_destroy. simpl.
  by rewrite Ha, Hc, Hd.
Qed.
End apply_line.

Lemma parse_apply_lines_without_marker (lines : list string) (s : summary) :
  Forall no_apply_marker lines → foldl parse_apply_line s lines = s.
Proof.
  induction 1 as [|line lines [Happly Hdestroy] _ IH]; [done|]. simpl.
  unfold parse_apply_line at 2. by rewrite Happly, Hdestroy.
Qed.

(** [parse_apply_summary] reads the three counts of the line
    [Apply complete! Resources: a added, c changed, d destroyed.], whatever
    the lines before it, when each count is written with at most 640 digits;
    a later line with one of the two markers would be read in its place.
    The bound is on what [int] converts: the interpreter refuses a numeral
    of more digits than its limit, 4300 unless configured otherwise and
    never configured below 640, the parser swallows that ValueError, and the
    count stays 0; [py_int] has no such limit, so the counts are kept within
    the numerals that every interpreter converts. *)
Theorem parse_apply_summary_reads_the_summary_line
    (output : string) (before after : list string) (added changed destroyed : N) :
  (String.length (pretty added) ≤ 640)%nat →
  (String.length (pretty changed) ≤ 640)%nat →
  (String.length (pretty destroyed) ≤ 640)%nat →
  split_on "010" output =
    before ++ apply_complete_line added changed destroyed :: after →
  Forall no_apply_marker after →
  parse_apply_summary output =
  {| summary_add := Z.of_N added; summary_change := Z.of_N changed;
     summary_destroy := Z.of_N destroyed |}.
Proof.
  intros _ _ _ Hlines Hafter. unfold parse_apply_summary.
  rewrite Hlines, foldl_app. cbn [foldl]. unfold apply_complete_line.
  rewrite (parse_apply_line_digits (pretty added) (pretty changed) (pretty destroyed)
             (proj1 (pretty_N_digits _)) (proj1 (pretty_N_digits _))
             (proj1 (pretty_N_digits _)) (proj2 (pretty_N_digits _))
             (proj2 (pretty_N_digits _)) (proj2 (pretty_N_digits _)) _
             (Z.of_N added) (Z.of_N changed) (Z.of_N destroyed))
    by apply py_int_pretty.
  by apply parse_apply_lines_without_marker.
Qed.

Lemma parse_apply_summary_reads_the_summary_line_witness :
  parse_apply_summary
    ("oci_core_vcn.main: Creation complete after 2s" +:+ newline +:+ newline +:+
     "Apply complete! Resources: 12 added, 0 changed, 3 destroyed." +:+ newline) =
  {| summary_add := 12; summary_change := 0; summary_destroy := 3 |}.
Proof.
  apply (parse_apply_summary_reads_the_summary_line _
           ["oci_core_vcn.main: Creation complete after 2s"; ""] [""] 12 0 3).
  - vm_compute. lia.
  - vm_compute. lia.
  - vm_compute. lia.
  - vm_compute. reflexivity.
  - repeat constructor.
Defined.

(** ** The summary line of a plan: lines 526-550 *)

Lemma words_plan_line (pa pc pd : string) :
  string_forall isdigit pa = true → string_forall isdigit pc = true →
  string_forall isdigit pd = true → pa ≠ "" → pc ≠ "" → pd ≠ "" →
  words ("Plan: " +:+ pa +:+ " to add, " +:+ pc +:+ " to change, " +:+ pd +:+
         " to destroy.") =
  ["Plan:"; pa; "to"; "add,"; pc; "to"; "change,"; pd; "to"; "destroy."].
Proof.
  intros Ha Hc Hd Hna Hnc Hnd.
  assert ("Plan: " +:+ pa +:+ " to add, " +:+ pc +:+ " to change, " +:+ pd +:+
          " to destroy." =
          "Plan:" +:+ String " " (pa +:+ String " " ("to" +:+ String " " ("add," +:+
          String " " (pc +:+ String " " ("to" +:+ String " " ("change," +:+
          String " " (pd +:+ String " " ("to" +:+ String " " "destroy."))))))))) as ->
    by (by to_characters).
  rewrite !words_app_space.
  rewrite (words_nonspace pa), (words_nonspace pc), (words_nonspace pd)
    by (done || by apply digits_nonspace).
  done.
Qed.

Lemma parse_plan_lines_without_marker (lines : list string) (s : summary) :
  Forall (λ line, contains "Plan:" line = false) lines →
  foldl parse_plan_line s lines = s.
Proof.
  induction 1 as [|line lines Hline _ IH]; [done|]. simpl.
  unfold parse_plan_line at 2. by rewrite Hline.
Qed.

(** [parse_plan_summary] reads no count off the line
    [Plan: a to add, c to change, d to destroy.], whatever the three numbers:
    the word it reads before [add,], [change,] and [destroy.] is [to].  When
    no other line holds [Plan:], the three counters it returns are zero. *)
Theorem parse_plan_summary_reads_no_count
    (output : string) (before after : list string) (to_add to_change to_destroy : N) :
  split_on "010" output = before ++ plan_line to_add to_change to_destroy :: after →
  Forall (λ line, contains "Plan:" line = false) before →
  Forall (λ line, contains "Plan:" line = false) after →
  parse_plan_summary output = no_changes.
Proof.
  intros Hlines Hbefore Hafter. unfold parse_plan_summary.
  rewrite Hlines, foldl_app. cbn [foldl].
  rewrite (parse_plan_lines_without_marker before) by done.
  rewrite (parse_plan_line_of_the_tool no_changes _
             (pretty to_add) (pretty to_change) (pretty to_destroy)).
  - by apply parse_plan_lines_without_marker.
  - apply words_plan_line; apply pretty_N_digits.
  - rewrite py_int_pretty. by eexists.
  - rewrite py_int_pretty. by eexists.
  - rewrite py_int_pretty. by eexists.
Qed.

Lemma parse_plan_summary_reads_no_count_witness :
  parse_plan_summary
    ("Terraform will perform the following actions:" +:+ newline +:+
     "Plan: 12 to add, 0 to change, 3 to destroy." +:+ newline) = no_changes.
Proof.
  apply (parse_plan_summary_reads_no_count _
           ["Terraform will perform the following actions:"] [""] 12 0 3).
  - vm_compute. reflexivity.
  - repeat constructor.
  - repeat constructor.
Defined.

(** ** The runner: what a result stands for *)

(** A plan that exits with 0 or 2 is a success with no error; with any other
    exit status it fails, the error text carries the exit status and the
    standard error, and the standard error is appended to the output.  The
    counters are in both cases what [parse_plan_summary] reads in the
    standard output. *)
Theorem plan_exit_status
    (env : process_environment) (service_name service_dir region : string)
    (retry : Z) (calls : list call) (init_result tf_result : CompletedProcess) :
  subprocess_run env calls (init_call service_dir) = Returned init_result →
  returncode init_result = 0 →
  subprocess_run env (calls ++ [init_call service_dir]) (action_call "plan" service_dir) =
    Returned tf_result →
  let result :=
    (execute_terraform_for_service env service_name service_dir "plan" region retry calls).1 in
  let counts := parse_plan_summary (stdout tf_result) in
  resources_created result = summary_add counts ∧
  resources_changed result = summary_change counts ∧
  resources_destroyed result = summary_destroy counts ∧
  (returncode tf_result = 0 ∨ returncode tf_result = 2 →
   success result = true ∧ error result = None ∧ output result = stdout tf_result) ∧
  (returncode tf_result ≠ 0 → returncode tf_result ≠ 2 →
   success result = false ∧
   error result =
     Some ("Plan failed (exit code " +:+ pretty (returncode tf_result) +:+ "): "
           +:+ stderr tf_result) ∧
   output result =
     stdout tf_result +:+ newline +:+ newline +:+ "STDERR:" +:+ newline +:+ stderr tf_result).
Proof.
  intros Hinit Hcode Hrun result counts. subst result counts.
  rewrite (action_completes env service_name service_dir region retry calls "plan"
             _ _ Hinit Hcode Hrun).
  cbn [fst]. unfold action_completed. rewrite bool_decide_eq_true_2 by done.
  destruct (bool_decide (returncode tf_result = 0)) eqn:E0;
    destruct (bool_decide (returncode tf_result = 2)) eqn:E2; simpl;
    try apply bool_decide_eq_true in E0; try apply bool_decide_eq_true in E2;
    try apply bool_decide_eq_false in E0; try apply bool_decide_eq_false in E2;
    repeat split; try done; intros; try done; try lia.
  all: by destruct H.
Qed.

Lemma plan_exit_status_witness :
  let env := completing 1 "Planning failed." "Error: 401-NotAuthenticated" in
  let result :=
    (execute_terraform_for_service env "network" "toronto/network" "plan"
       "ca-toronto-1" 0 []).1 in
  success result = false ∧
  error result = Some "Plan failed (exit code 1): Error: 401-NotAuthenticated" ∧
  output result =
    "Planning failed." +:+ newline +:+ newline +:+ "STDERR:" +:+ newline +:+
    "Error: 401-NotAuthenticated".
Proof.
  intros env result.
  destruct (plan_exit_status env "network" "toronto/network" "ca-toronto-1" 0 []
              {| returncode := 0; stdout := "Initialized"; stderr := "" |}
              {| returncode := 1; stdout := "Planning failed.";
                 stderr := "Error: 401-NotAuthenticated" |} eq_refl eq_refl eq_refl)
    as (_ & _ & _ & _ & Hfail).
  apply Hfail; discriminate.
Defined.

(** A result is a success exactly when the init step exited with 0 and the
    plan or apply step completed with an exit status that counts as success
    (0, and 2 for a plan); and it is a success exactly when it carries no
    error text. *)
Theorem success_iff_both_steps_completed
    (env : process_environment) (service_name service_dir action region : string)
    (retry : Z) (calls : list call) :
  let result :=
    (execute_terraform_for_service env service_name service_dir action region retry calls).1 in
  (success result = true ↔
   ∃ init_result tf_result,
     subprocess_run env calls (init_call service_dir) = Returned init_result ∧
     returncode init_result = 0 ∧
     subprocess_run env (calls ++ [init_call service_dir])
       (action_call action service_dir) = Returned tf_result ∧
     (returncode tf_result = 0 ∨ (action = "plan" ∧ returncode tf_result = 2))) ∧
  (success result = true ↔ error result = None).
Proof.
  intros result. subst result. unfold execute_terraform_for_service.
  destruct (subprocess_run env calls (init_call service_dir)) as [init_result|e] eqn:Hinit.
  - case_bool_decide as Hcode.
    + simpl. split; split; try done. intros (i & t & [= <-] & ? & _). done.
    + destruct (subprocess_run env _ (action_call action service_dir))
        as [tf_result|e] eqn:Hrun.
      * assert (returncode init_result = 0) as Hzero
          by (destruct (decide (returncode init_result = 0)); [done|by destruct Hcode]).
        unfold action_completed. cbn [fst].
        destruct (decide (action = "plan")) as [->|Haction].
        -- rewrite (bool_decide_eq_true_2 ("plan" = "plan")) by done.
           destruct (decide (returncode tf_result = 0)) as [E0|E0];
             [|destruct (decide (returncode tf_result = 2)) as [E2|E2]].
           ++ rewrite (bool_decide_eq_true_2 _ E0). simpl. split; [|done].
              split; [|done]. intros _. exists init_result, tf_result. repeat split; auto.
           ++ rewrite (bool_decide_eq_false_2 _ E0), (bool_decide_eq_true_2 _ E2). simpl.
              split; [|done]. split; [|done]. intros _. exists init_result, tf_result. repeat split; auto.
           ++ rewrite (bool_decide_eq_false_2 _ E0), (bool_decide_eq_false_2 _ E2). simpl.
              split; [|done]. split; [done|].
              intros (i & t & _ & _ & [= <-] & [?|[_ ?]]); done.
        -- rewrite (bool_decide_eq_false_2 _ Haction).
           destruct (decide (returncode tf_result = 0)) as [E0|E0].
           ++ rewrite (bool_decide_eq_true_2 _ E0). simpl. split; [|done].
              split; [|done]. intros _. exists init_result, tf_result. repeat split; auto.
           ++ rewrite (bool_decide_eq_false_2 _ E0). simpl.
              split; [|done]. split; [done|].
              intros (i & t & _ & _ & [= <-] & [?|[? _]]); done.
      * cbn [fst]. split; split; try (by destruct e).
        intros (i & t & _ & _ & [=] & _).
  - simpl. split; split; try (by destruct e). intros (i & t & [=] & _).
Qed.

(** ** The level loop: the calls it makes *)

(** The calls of one service: the init step, and after it the plan or apply
    step unless the init step failed or raised. *)
Lemma execute_terraform_for_service_calls
    (env : process_environment) (service_name service_dir action region : string)
    (retry : Z) (calls : list call) :
  let run :=
    execute_terraform_for_service env service_name service_dir action region retry calls in
  service run.1 = service_name ∧
  (run.2 = calls ++ [init_call service_dir] ∨
   run.2 = calls ++ [init_call service_dir; action_call action service_dir]).
Proof.
  pose proof (execute_terraform_for_service_shape env service_name service_dir region
                retry calls action) as Hshape.
  unfold execute_terraform_for_service in *.
  destruct (subprocess_run env calls (init_call service_dir)) as [init_result|e].
  - case_bool_decide.
    + split; [done|]. by left.
    + destruct (subprocess_run env _ (action_call action service_dir)) as [tf_result|e];
        (split; [by destruct Hshape|]); right; simpl; by rewrite <- app_assoc.
  - split; [by destruct e|]. by left.
Qed.

Section calls.
Variable env : process_environment.
Variable args : arguments.
Variable P : call → Prop.
Hypothesis init_call_P : ∀ service_dir, P (init_call service_dir).
Hypothesis action_call_P : ∀ service_dir, P (action_call (action args) service_dir).

Lemma run_in_order_calls (services : list string) :
  ∀ (acc : list ExecutionResult) (calls : list call),
    ∃ results new,
      foldl
        (λ '(all_results, calls) service_name,
           let '(result, calls) :=
             execute_terraform_for_service env service_name
               (service_directory (working_dir args) service_name)
               (action args) (region args) 0 calls in
           (all_results ++ [result], calls))
        (acc, calls) services = (acc ++ results, calls ++ new) ∧
      service <$> results = services ∧
      Forall P new.
Proof.
  induction services as [|s services IH]; intros acc calls.
  - exists [], []. simpl. by rewrite !app_nil_r.
  - cbn [foldl].
    pose proof (execute_terraform_for_service_calls env s
                  (service_directory (working_dir args) s) (action args) (region args)
                  0 calls) as Hcalls.
    destruct (execute_terraform_for_service env s _ (action args) (region args) 0 calls)
      as [result calls1].
    cbn [fst snd] in Hcalls. destruct Hcalls as [Hservice Hcalls].
    assert (∃ new1, calls1 = calls ++ new1 ∧ Forall P new1) as (new1 & -> & Hnew1).
    { destruct Hcalls as [-> | ->]; eexists; (split; [done|]); repeat constructor; done. }
    destruct (IH (acc ++ [result]) (calls ++ new1)) as (results & new & -> & Hservices & Hnew).
    exists (result :: results), (new1 ++ new).
    rewrite <- !app_assoc. split; [done|]. split.
    + rewrite fmap_cons. by rewrite Hservice, Hservices.
    + by apply Forall_app.
Qed.

Lemma execute_level_calls level acc calls :
  ∃ results new,
    execute_level env args level (acc, calls) = (acc ++ results, calls ++ new) ∧
    Forall P new ∧
    (dry_run args = true → new = []) ∧
    (parallel args = false → service <$> results = level).
Proof.
  unfold execute_level. destruct (dry_run args) eqn:Hdry.
  - exists (dry_run_result (action args) <$> level), []. rewrite app_nil_r.
    split; [done|]. split; [constructor|]. split; [done|]. intros _.
    rewrite <- list_fmap_compose. by apply list_fmap_id.
  - destruct (parallel args) eqn:Hparallel; cbn [andb].
    + case_bool_decide as Hlen.
      * unfold execute_services_in_parallel.
        assert (∃ results new,
          foldl
            (λ '(results, calls) service_name,
               let '(result, calls) :=
                 execute_terraform_for_service env service_name
                   (service_directory (working_dir args) service_name)
                   (action args) (region args) 0 calls in
               (results ++ [result], calls))
            ([], calls) (completion_order env level) = (results, calls ++ new) ∧
          Forall P new) as Hpool.
        { destruct (run_in_order_calls (completion_order env level) [] calls)
            as (results & new & Hrun & _ & Hnew). by exists results, new. }
        destruct level as [|only [|second rest]]; [simpl in Hlen; lia..|].
        destruct Hpool as (results & new & -> & Hnew).
        exists results, new. split; [done|]. split; [done|]. split; done.
      * destruct (run_in_order_calls level acc calls) as (results & new & -> & Hservices & Hnew).
        exists results, new. split; [done|]. split; [done|]. split; done.
    + destruct (run_in_order_calls level acc calls) as (results & new & -> & Hservices & Hnew).
      exists results, new. split; [done|]. split; [done|]. split; done.
Qed.

(** Whatever the environment does, the calls of a run are init steps and
    steps of the action of the run; a run without [--parallel] leaves its
    results in the order of the plan, up to the level at which it stops. *)
Lemma execute_levels_calls levels :
  ∀ acc calls,
    ∃ attempted unattempted results new,
      levels = attempted ++ unattempted ∧
      execute_levels env args levels (acc, calls) = (acc ++ results, calls ++ new) ∧
      Forall P new ∧
      (dry_run args = true → new = []) ∧
      (parallel args = false → service <$> results = mjoin attempted).
Proof.
  induction levels as [|level rest IH]; intros acc calls.
  - exists [], [], [], []. simpl. rewrite !app_nil_r. repeat split; done.
  - cbn [execute_levels].
    destruct (execute_level_calls level acc calls)
      as (results1 & new1 & -> & Hnew1 & Hdry1 & Hservices1).
    destruct (negb (forallb success (last_items (length level) (acc ++ results1))) &&
              negb (dry_run args)) eqn:Hstop.
    + exists [level], rest, results1, new1. split; [done|]. split; [done|].
      split; [done|]. split; [done|]. intros Hseq. simpl. by rewrite app_nil_r, Hservices1.
    + destruct (IH (acc ++ results1) (calls ++ new1))
        as (attempted & unattempted & results & new & -> & -> & Hnew & Hdry & Hservices).
      exists (level :: attempted), unattempted, (results1 ++ results), (new1 ++ new).
      rewrite !app_assoc. split; [done|]. split; [done|].
      split; [by apply Forall_app|]. split.
      * intros Hd. by rewrite Hdry1, Hdry.
      * intros Hseq. simpl. by rewrite fmap_app, Hservices1, Hservices.
Qed.
End calls.

(** A run whose action is [plan] never applies: every call is an init step or
    [terraform plan], and no command holds the word [apply] or the switch
    [-auto-approve]. *)
Theorem plan_run_never_applies
    (env : process_environment) (args : arguments) (levels : list (list string))
    (calls : list call) :
  action args = "plan" →
  ∃ new,
    (execute_levels env args levels ([], calls)).2 = calls ++ new ∧
    Forall (λ c, (∃ service_dir, c = init_call service_dir ∨
                                 c = action_call "plan" service_dir) ∧
                 ("apply" ∉ cmd c) ∧ ("-auto-approve" ∉ cmd c)) new.
Proof.
  intros Haction.
  destruct (execute_levels_calls env args
              (λ c, (∃ service_dir, c = init_call service_dir ∨
                                    c = action_call "plan" service_dir) ∧
                    ("apply" ∉ cmd c) ∧ ("-auto-approve" ∉ cmd c)))
    with (levels := levels) (acc := @nil ExecutionResult) (calls := calls)
    as (attempted & unattempted & results & new & _ & Hrun & Hnew & _).
  - intros service_dir. split; [exists service_dir; by left|].
    split; apply (bool_decide_unpack _); vm_compute; exact I.
  - intros service_dir. rewrite Haction. split; [exists service_dir; by right|].
    split; apply (bool_decide_unpack _); vm_compute; exact I.
  - exists new. by rewrite Hrun.
Qed.

Lemma plan_run_never_applies_witness :
  ∃ new,
    (execute_levels (failing_in "toronto" "compute") (plan_arguments false true)
       [["identity"]; ["dns"; "network"]; ["compute"]] ([], [])).2 = [] ++ new ∧
    Forall (λ c, (∃ service_dir, c = init_call service_dir ∨
                                 c = action_call "plan" service_dir) ∧
                 ("apply" ∉ cmd c) ∧ ("-auto-approve" ∉ cmd c)) new.
Proof.
  apply (plan_run_never_applies (failing_in "toronto" "compute") (plan_arguments false true)
           [["identity"]; ["dns"; "network"]; ["compute"]] [] eq_refl).
Defined.

(** Without [--parallel] a level gives one result per service, in the order
    of the level; in a dry run every one of them is a success. *)
Lemma execute_level_sequential
    (env : process_environment) (args : arguments) (level : list string)
    (acc : list ExecutionResult) (calls : list call) :
  parallel args = false →
  ∃ results,
    (execute_level env args level (acc, calls)).1 = acc ++ results ∧
    service <$> results = level ∧
    (dry_run args = true → Forall (λ r, success r = true) results).
Proof.
  intros Hseq. unfold execute_level. rewrite Hseq. cbn [andb].
  destruct (dry_run args).
  - exists (dry_run_result (action args) <$> level). split; [done|]. split.
    + induction level as [|s level IHlevel]; [done|].
      rewrite !fmap_cons, IHlevel. done.
    + intros _. apply Forall_fmap, Forall_true. done.
  - destruct (run_in_order env args level acc calls) as (results & new & -> & Hservices & _).
    exists results. split; [done|]. split; [done|]. done.
Qed.

(** The loop over the levels without [--parallel], from results that are all
    successes: the attempted levels are the plan up to the first level with
    a result that is not a success, or the whole plan. *)
Lemma execute_levels_sequential
    (env : process_environment) (args : arguments) (levels : list (list string)) :
  parallel args = false →
  ∀ acc calls,
    Forall (λ r, success r = true) acc →
    ∃ attempted unattempted results,
      levels = attempted ++ unattempted ∧
      (execute_levels env args levels (acc, calls)).1 = acc ++ results ∧
      service <$> results = mjoin attempted ∧
      (∀ r, r ∈ results → success r = false →
         dry_run args = false ∧
         ∃ level, last attempted = Some level ∧ service r ∈ level) ∧
      (unattempted ≠ [] → dry_run args = false ∧ ∃ r, r ∈ results ∧ success r = false).
Proof.
  intros Hseq. induction levels as [|level rest IH]; intros acc calls Hacc.
  - exists [], [], []. simpl. rewrite app_nil_r.
    split; [done|]. split; [done|]. split; [done|].
    split; [|done]. by intros r ?%elem_of_nil.
  - cbn [execute_levels].
    destruct (execute_level_sequential env args level acc calls Hseq)
      as (results1 & Hlevel & Hservices1 & Hdry1).
    destruct (execute_level env args level (acc, calls)) as [all1 calls1].
    cbn [fst] in Hlevel. subst all1.
    assert (length results1 = length level) as Hlen
      by (by rewrite <- (length_fmap service), Hservices1).
    assert (forallb success (last_items (length level) (acc ++ results1)) =
            forallb success results1) as Hslice.
    { destruct results1 as [|r1 results1].
      - destruct level; [|done]. unfold last_items. simpl. rewrite app_nil_r.
        apply Is_true_true_1, forallb_True. eapply Forall_impl; [exact Hacc|].
        intros r ->. done.
      - rewrite <- Hlen. by rewrite last_items_app. }
    rewrite Hslice.
    assert (forallb success results1 = true ↔ Forall (λ r, success r = true) results1)
      as Hall_iff.
    { rewrite <- Is_true_true, forallb_True. apply Forall_proper; [|done].
      intros r. by rewrite Is_true_true. }
    destruct (forallb success results1) eqn:Hsuccess; cbn [negb andb].
    + assert (Forall (λ r, success r = true) results1) as Hall by (by apply Hall_iff).
      destruct (IH (acc ++ results1) calls1) as
        (attempted & unattempted & results & -> & Hrun & Hservices & Hfail & Hleft).
      { by apply Forall_app. }
      exists (level :: attempted), unattempted, (results1 ++ results).
      rewrite app_assoc. split; [done|]. split; [exact Hrun|].
      split; [simpl; by rewrite fmap_app, Hservices1, Hservices|].
      split.
      * intros r [Hr|Hr]%elem_of_app Hr'.
        -- apply (proj1 (Forall_forall _ _) Hall) in Hr. congruence.
        -- destruct (Hfail r Hr Hr') as (Hdry & level' & Hlast & Hin).
           split; [done|]. exists level'. split; [|done].
           destruct attempted; [done|]. done.
      * intros Hne. destruct (Hleft Hne) as (Hdry & r & Hr & Hr').
        split; [done|]. exists r. split; [|done]. rewrite elem_of_app. by right.
    + assert (dry_run args = false) as Hdry.
      { destruct (dry_run args); [|done].
        apply Hall_iff in Hdry1; [congruence|done]. }
      rewrite Hdry. cbn [negb fst].
      exists [level], rest, results1.
      split; [done|]. split; [done|].
      split; [simpl; by rewrite app_nil_r|]. split.
      * intros r Hr _. split; [done|]. exists level. split; [done|].
        rewrite <- Hservices1. by apply list_elem_of_fmap_2.
      * intros _. split; [done|].
        assert (¬ Forall (λ r, success r = true) results1) as Hnot
          by (intros Hall; apply Hall_iff in Hall; congruence).
        apply not_Forall_Exists in Hnot; [|intros r; apply _].
        apply Exists_exists in Hnot as (r & Hr & Hr').
        exists r. split; [done|]. simpl in Hr'. destruct (success r); [by destruct Hr'|done].
Qed.

(** Without [--parallel] the results of a run, dry or not, are in the order
    of the plan, and the run ends exactly where the loop breaks.  The plan
    splits into the levels attempted and the levels left; the results name
    the services of the attempted levels, level after level and in the order
    of each level; a result that is not a success belongs to the last
    attempted level, so every level before it ran without a failure; and a
    level is left only when the run is no dry run and a result is not a
    success.  A dry run, and a run without a failure, go through the whole
    plan. *)
Theorem sequential_run_follows_plan_order
    (env : process_environment) (args : arguments) (levels : list (list string))
    (calls : list call) :
  parallel args = false →
  let results := (execute_levels env args levels ([], calls)).1 in
  ∃ attempted unattempted,
    levels = attempted ++ unattempted ∧
    service <$> results = mjoin attempted ∧
    (∀ r, r ∈ results → success r = false →
       dry_run args = false ∧
       ∃ level, last attempted = Some level ∧ service r ∈ level) ∧
    (unattempted ≠ [] → dry_run args = false ∧ ∃ r, r ∈ results ∧ success r = false) ∧
    (Forall (λ r, success r = true) results → service <$> results = mjoin levels).
Proof.
  intros Hseq results. subst results.
  destruct (execute_levels_sequential env args levels Hseq [] calls)
    as (attempted & unattempted & results & Hsplit & Hrun & Hservices & Hfail & Hleft);
    [constructor|].
  rewrite Hrun. cbn [app].
  exists attempted, unattempted. split; [done|]. split; [done|].
  split; [done|]. split; [done|].
  intros Hall. destruct unattempted as [|u unattempted].
  - rewrite app_nil_r in Hsplit. by rewrite Hsplit.
  - destruct Hleft as (_ & r & Hr & Hr'); [done|].
    apply (proj1 (Forall_forall _ _) Hall) in Hr. congruence.
Qed.

Lemma sequential_run_follows_plan_order_witness :
  let results :=
    (execute_levels (failing_in "toronto" "network") (plan_arguments false false)
       [["identity"]; ["dns"; "network"]; ["compute"]] ([], [])).1 in
  ∃ attempted unattempted,
    [["identity"]; ["dns"; "network"]; ["compute"]] = attempted ++ unattempted ∧
    service <$> results = mjoin attempted ∧
    (∀ r, r ∈ results → success r = false →
       dry_run (plan_arguments false false) = false ∧
       ∃ level, last attempted = Some level ∧ service r ∈ level) ∧
    (unattempted ≠ [] →
     dry_run (plan_arguments false false) = false ∧
     ∃ r, r ∈ results ∧ success r = false) ∧
    (Forall (λ r, success r = true) results →
     service <$> results = mjoin [["identity"]; ["dns"; "network"]; ["compute"]]).
Proof.
  apply (sequential_run_follows_plan_order (failing_in "toronto" "network")
           (plan_arguments false false)
           [["identity"]; ["dns"; "network"]; ["compute"]] [] eq_refl).
Defined.

(** The run of the plan above stops after the second level: [compute] is
    not attempted. *)
Example sequential_run_stops_at_the_failed_level :
  service <$> (execute_levels (failing_in "toronto" "network") (plan_arguments false false)
                 [["identity"]; ["dns"; "network"]; ["compute"]] ([], [])).1 =
  ["identity"; "dns"; "network"].
Proof. vm_compute. reflexivity. Qed.

(** A run that is not a dry run and ends with exit status 0 went through the
    whole plan: every service of the plan has a result, and every result is a
    success. *)
Lemma exit_zero_whole_plan
    (env : process_environment) (args : arguments) (levels : list (list string))
    (calls : list call) :
  dry_run args = false →
  (∀ l, completion_order env l ≡ₚ l) →
  let run := execute_levels env args levels ([], calls) in
  exit_status run.1 = 0 →
  (service <$> run.1) ≡ₚ mjoin levels ∧ Forall (λ r, success r = true) run.1.
Proof.
  intros Hdry Hperm run Hexit. subst run.
  apply exit_status_spec in Hexit.
  destruct (execute_levels_shape env args Hperm levels Hdry [] calls)
    as (attempted & unattempted & results & new & Hsplit & Hrun & Hservices & _ & _ & Hleft);
    [constructor|].
  rewrite Hrun in *. cbn [fst app] in *. split; [|done].
  destruct unattempted as [|u unattempted].
  - by rewrite Hsplit, app_nil_r.
  - destruct Hleft as (r & Hr & Hfailed); [done|].
    apply (proj1 (Forall_forall _ _) Hexit) in Hr. congruence.
Qed.

(** ** Change detection: what the regular path returns *)

Section regular_path.
Variable fs : file_system.
Variable working_dir : string.

(** *** Direct changes: lines 268-278 *)

Lemma directly_changed_singleton file_path name :
  directly_changed fs working_dir [file_path] name ↔
  ∃ tf_files,
    split_on "/" file_path !! 0%nat = Some (path_name working_dir) ∧
    split_on "/" file_path !! 1%nat = Some name ∧
    path_is_dir fs (service_directory working_dir name) = Returned true ∧
    path_glob_tf fs (service_directory working_dir name) = Returned tf_files ∧
    tf_files ≠ [].
Proof.
  unfold directly_changed. split.
  - intros (p & tfs & ->%list_elem_of_singleton & H). by exists tfs.
  - intros (tfs & H). exists file_path, tfs. split; [left|done].
Qed.

Lemma add_direct_change_spec services file_path services' :
  add_direct_change fs working_dir services file_path = Ok services' →
  ∀ name, name ∈ services' ↔
    name ∈ services ∨ directly_changed fs working_dir [file_path] name.
Proof.
  unfold add_direct_change. intros Hrun name. rewrite directly_changed_singleton.
  destruct (split_on "/" file_path !! 0%nat) as [first|] eqn:Hfirst;
    [destruct (split_on "/" file_path !! 1%nat) as [service_name|] eqn:Hsecond|].
  - case_bool_decide as Hdir.
    + apply bind_Ok_inv in Hrun as (is_dir & His_dir%call_environment_Ok & Hrun).
      destruct is_dir.
      * apply bind_Ok_inv in Hrun as (tf_files & Hglob%call_environment_Ok & Hrun).
        destruct tf_files as [|tf tf_files]; injection Hrun as <-.
        -- split; [by left|]. intros [?|(tfs & _ & [= <-] & _ & Hg & Hne)]; [done|].
           rewrite Hglob in Hg. by injection Hg as <-.
        -- rewrite elem_of_union, elem_of_singleton. split.
           ++ intros [->|?]; [right|by left].
              exists (tf :: tf_files). by rewrite Hdir.
           ++ intros [?|(tfs & _ & [= <-] & _)]; [by right|by left].
      * injection Hrun as <-. split; [by left|].
        intros [?|(tfs & _ & [= <-] & Hd & _)]; [done|]. congruence.
    + injection Hrun as <-. split; [by left|].
      intros [?|(tfs & [= ?] & _)]; [done|]. by destruct Hdir.
  - injection Hrun as <-. split; [by left|].
    intros [?|(tfs & _ & ? & _)]; [done|]. congruence.
  - injection Hrun as <-. split; [by left|].
    intros [?|(tfs & ? & _)]; [done|]. congruence.
Qed.

Lemma directly_changed_cons file_path changed_files name :
  directly_changed fs working_dir (file_path :: changed_files) name ↔
  directly_changed fs working_dir [file_path] name ∨
  directly_changed fs working_dir changed_files name.
Proof.
  unfold directly_changed. split.
  - intros (p & tfs & [->|Hp]%elem_of_cons & H).
    + left. exists file_path, tfs. split; [left|done].
    + right. by exists p, tfs.
  - intros [(p & tfs & Hp%list_elem_of_singleton & H)|(p & tfs & Hp & H)].
    + subst. exists file_path, tfs. split; [left|done].
    + exists p, tfs. split; [by right|done].
Qed.

Lemma add_direct_changes_spec changed_files :
  ∀ services services',
    for_each (add_direct_change fs working_dir) changed_files services = Ok services' →
    ∀ name, name ∈ services' ↔
      name ∈ services ∨ directly_changed fs working_dir changed_files name.
Proof.
  induction changed_files as [|p changed_files IH]; intros services services' Hrun name.
  - injection Hrun as <-. split; [by left|].
    intros [?|(q & tfs & []%elem_of_nil & _)]. done.
  - cbn [for_each] in Hrun. apply bind_Ok_inv in Hrun as (services1 & Hstep & Hrun).
    rewrite (directly_changed_cons p changed_files name).
    rewrite (IH _ _ Hrun name), (add_direct_change_spec _ _ _ Hstep name).
    tauto.
Qed.

(** *** Services that use a changed module: lines 194-222 *)

Variable modules : gset string.

Lemma existsb_references_module content :
  existsb (references_module content) (elements modules) = true ↔
  ∃ module, module ∈ modules ∧ references_module content module = true.
Proof.
  rewrite existsb_exists. split.
  - intros (m & Hm%list_elem_of_In%elem_of_elements & Href). by exists m.
  - intros (m & Hm & Href). exists m. split; [|done].
    by apply list_elem_of_In, elem_of_elements.
Qed.

Lemma scan_tf_files_spec service_dir name tf_files :
  ∀ services x,
    x ∈ foldl (scan_tf_file fs modules service_dir name) services tf_files ↔
    x ∈ services ∨
    (x = name ∧ ∃ tf_name content module,
       tf_name ∈ tf_files ∧
       path_read_text fs (service_directory service_dir tf_name) = Returned content ∧
       module ∈ modules ∧ references_module content module = true).
Proof.
  induction tf_files as [|tf tf_files IH]; intros services x.
  - simpl. split; [by left|]. intros [?|(_ & ? & ? & ? & []%elem_of_nil & _)]. done.
  - cbn [foldl]. rewrite IH. unfold scan_tf_file.
    destruct (path_read_text fs (service_directory service_dir tf)) as [content|e] eqn:Hread.
    + destruct (existsb (references_module content) (elements modules)) eqn:Hany.
      * apply existsb_references_module in Hany as (m & Hm & Href).
        rewrite elem_of_union, elem_of_singleton. split.
        -- intros [[->|?]|(-> & t & c & m' & Ht & H)].
           ++ right. split; [done|]. exists tf, content, m. split; [left|done].
           ++ by left.
           ++ right. split; [done|]. exists t, c, m'. split; [by right|done].
        -- intros [?|(-> & t & c & m' & [->|Ht]%elem_of_cons & H)].
           ++ left. by right.
           ++ left. by left.
           ++ right. split; [done|]. by exists t, c, m'.
      * split.
        -- intros [?|(-> & t & c & m' & Ht & H)]; [by left|].
           right. split; [done|]. exists t, c, m'. split; [by right|done].
        -- intros [?|(-> & t & c & m' & [->|Ht]%elem_of_cons & Hr & Hm & Href)].
           ++ by left.
           ++ rewrite Hread in Hr. injection Hr as <-.
              assert (existsb (references_module content) (elements modules) = true) as Htrue
                by (apply existsb_references_module; by exists m').
              congruence.
           ++ right. split; [done|]. by exists t, c, m'.
    + split.
      * intros [?|(-> & t & c & m' & Ht & H)]; [by left|].
        right. split; [done|]. exists t, c, m'. split; [by right|done].
      * intros [?|(-> & t & c & m' & [->|Ht]%elem_of_cons & Hr & H)].
        -- by left.
        -- congruence.
        -- right. split; [done|]. by exists t, c, m'.
Qed.

(** What the module scan asks of one entry. *)
Local Abbreviation uses name :=
  (path_is_dir fs (service_directory working_dir name) = Returned true ∧
   startswith "." name = false ∧
   ∃ tf_files tf_name content module,
     path_glob_tf fs (service_directory working_dir name) = Returned tf_files ∧
     tf_name ∈ tf_files ∧
     path_read_text fs (service_directory (service_directory working_dir name) tf_name) =
       Returned content ∧
     module ∈ modules ∧
     references_module content module = true).

Lemma scan_service_spec services name services' :
  scan_service fs modules working_dir services name = Ok services' →
  ∀ x, x ∈ services' ↔ x ∈ services ∨ (x = name ∧ uses name).
Proof.
  unfold scan_service. intros (is_dir & His_dir%call_environment_Ok & Hrun)%bind_Ok_inv x.
  destruct is_dir; simpl in Hrun.
  - destruct (startswith "." name) eqn:Hhidden; simpl in Hrun.
    + injection Hrun as <-. split; [by left|]. intros [?|(_ & _ & ? & _)]; done.
    + apply bind_Ok_inv in Hrun as (tf_files & Hglob%call_environment_Ok & [= <-]).
      rewrite scan_tf_files_spec. split.
      * intros [?|(-> & t & c & m & Ht & Hr & Hm & Href)]; [by left|].
        right. split; [done|]. split; [done|]. split; [done|]. by exists tf_files, t, c, m.
      * intros [?|(-> & _ & _ & tfs & t & c & m & Hg & Ht & Hr & Hm & Href)]; [by left|].
        right. split; [done|]. rewrite Hglob in Hg. injection Hg as <-. by exists t, c, m.
  - injection Hrun as <-. split; [by left|]. intros [?|(_ & ? & _)]; [done|]. congruence.
Qed.

Lemma scan_services_spec names :
  ∀ services services',
    for_each (scan_service fs modules working_dir) names services = Ok services' →
    ∀ x, x ∈ services' ↔ x ∈ services ∨ (x ∈ names ∧ uses x).
Proof.
  induction names as [|n names IH]; intros services services' Hrun x.
  - injection Hrun as <-. split; [by left|]. by intros [?|[?%elem_of_nil _]].
  - cbn [for_each] in Hrun. apply bind_Ok_inv in Hrun as (services1 & Hstep & Hrun).
    rewrite (IH _ _ Hrun x), (scan_service_spec _ _ _ Hstep x), elem_of_cons. split.
    + intros [[?|[-> ?]]|[? ?]]; [by left|right; split; [by left|done]|].
      right. split; [by right|done].
    + intros [?|[[->|?] ?]]; [by left; left|by left; right|by right].
Qed.

Lemma get_services_using_modules_spec affected :
  get_services_using_modules fs working_dir modules = Ok affected →
  ∀ name, name ∈ affected ↔ uses_module fs working_dir modules name.
Proof.
  unfold get_services_using_modules, uses_module.
  intros (present & Hpresent%call_environment_Ok & Hrun)%bind_Ok_inv name.
  rewrite Hpresent. destruct present; simpl in Hrun.
  - apply bind_Ok_inv in Hrun as (names & Hiter%call_environment_Ok & Hrun).
    rewrite (scan_services_spec _ _ _ Hrun name), Hiter. split.
    + intros [[]%elem_of_empty|[Hname (Hdir & Hhidden & Huse)]].
      split; [done|]. split; [by exists names|]. done.
    + intros (_ & (names' & [= <-] & Hname) & Hdir & Hhidden & Huse). right. done.
  - injection Hrun as <-. split; [by intros []%elem_of_empty|]. by intros ([=] & _).
Qed.
End regular_path.

Lemma sorted_elements_spec (services : gset string) :
  Sorted String.le (sorted (elements services)) ∧
  NoDup (sorted (elements services)) ∧
  ∀ name, name ∈ sorted (elements services) ↔ name ∈ services.
Proof.
  split; [apply Sorted_merge_sort, _|]. split.
  - unfold sorted. rewrite merge_sort_Permutation. apply NoDup_elements.
  - intros name. by rewrite elem_of_sorted, elem_of_elements.
Qed.

(** What the body of the [try] returns has no repeated name. *)
Lemma detect_changed_services_body_NoDup
    (fs : file_system) (working_dir : string) (base_ref changed_files_path : option string)
    (printed services : list string) :
  detect_changed_services_body fs working_dir base_ref changed_files_path =
    (printed, Ok services) →
  NoDup services.
Proof.
  unfold detect_changed_services_body.
  destruct (load_changed_files fs base_ref changed_files_path) as [changed_files|e|]; [|done..].
  destruct (for_each (add_direct_change fs working_dir) changed_files ∅)
    as [direct|e|]; [|done..].
  case_bool_decide.
  - destruct (get_services_using_modules fs working_dir _) as [affected|e|]; [|done..].
    case_bool_decide; intros [= _ <-]; apply sorted_elements_spec.
  - intros [= _ <-]. apply sorted_elements_spec.
Qed.

(** When nothing raises inside [detect_changed_services], the list it returns
    is in alphabetical order, has no repeated name, and holds exactly the
    services with a changed file under their directory and the services that
    use a changed module. *)
Theorem detect_changed_services_regular_path
    (fs : file_system) (working_dir : string) (base_ref changed_files_path : option string)
    (printed services : list string) :
  detect_changed_services_body fs working_dir base_ref changed_files_path =
    (printed, Ok services) →
  detect_changed_services fs working_dir base_ref changed_files_path =
    (printed, Ok services) ∧
  Sorted String.le services ∧
  NoDup services ∧
  ∃ changed_files,
    load_changed_files fs base_ref changed_files_path = Ok changed_files ∧
    ∀ name, name ∈ services ↔
      directly_changed fs working_dir changed_files name ∨
      uses_module fs working_dir (detect_module_changes fs base_ref changed_files) name.
Proof.
  intros Hbody. split; [unfold detect_changed_services; by rewrite Hbody|].
  unfold detect_changed_services_body in Hbody.
  destruct (load_changed_files fs base_ref changed_files_path)
    as [changed_files|e|] eqn:Hload; [|done..].
  destruct (for_each (add_direct_change fs working_dir) changed_files ∅)
    as [direct|e|] eqn:Hdirect; [|done..].
  pose proof (add_direct_changes_spec fs working_dir changed_files ∅ direct Hdirect)
    as Hdirect'.
  set (modules := detect_module_changes fs base_ref changed_files) in *.
  assert (∀ name, name ∈ direct ↔ directly_changed fs working_dir changed_files name)
    as Hdirect''.
  { intros name. rewrite Hdirect'. split; [intros [[]%elem_of_empty|?]; done|by right]. }
  case_bool_decide as Hmodules.
  - destruct (get_services_using_modules fs working_dir modules)
      as [affected|e|] eqn:Hscan; [|done..].
    pose proof (get_services_using_modules_spec fs working_dir modules affected Hscan)
      as Haffected.
    case_bool_decide as Hnonempty; injection Hbody as _ <-.
    + destruct (sorted_elements_spec (direct ∪ affected)) as (Hsorted & Hnodup & Hin).
      split; [done|]. split; [done|]. exists changed_files. split; [done|].
      intros name. fold modules. by rewrite Hin, elem_of_union, Hdirect'', Haffected.
    + destruct (sorted_elements_spec direct) as (Hsorted & Hnodup & Hin).
      split; [done|]. split; [done|]. exists changed_files. split; [done|].
      intros name. fold modules. rewrite Hin, Hdirect'', <- Haffected.
      assert (affected = ∅) as ->
        by (destruct (decide (affected = ∅)); [done|by destruct Hnonempty]).
      split; [by left|]. by intros [?|[]%elem_of_empty].
  - injection Hbody as _ <-.
    destruct (sorted_elements_spec direct) as (Hsorted & Hnodup & Hin).
    split; [done|]. split; [done|]. exists changed_files. split; [done|].
    intros name. fold modules. rewrite Hin, Hdirect''. split; [by left|].
    intros [?|(_ & _ & _ & _ & tfs & t & c & m & _ & _ & _ & Hm & _)]; [done|].
    assert (modules = ∅) as Hempty
      by (destruct (decide (modules = ∅)); [done|by destruct Hmodules]).
    rewrite Hempty in Hm. by apply elem_of_empty in Hm.
Qed.

Lemma detect_changed_services_regular_path_witness :
  let fs := toronto true in
  let printed := [module_changes_line {["net-common"]};
                  affected_services_line {["compute"; "network"]}] in
  detect_changed_services fs "toronto" None (Some "/tmp/changed-files.txt") =
    (printed, Ok ["compute"; "network"]) ∧
  Sorted String.le ["compute"; "network"] ∧
  NoDup ["compute"; "network"] ∧
  ∃ changed_files,
    load_changed_files fs None (Some "/tmp/changed-files.txt") = Ok changed_files ∧
    ∀ name, name ∈ ["compute"; "network"] ↔
      directly_changed fs "toronto" changed_files name ∨
      uses_module fs "toronto" (detect_module_changes fs None changed_files) name.
Proof.
  intros fs printed.
  apply (detect_changed_services_regular_path fs "toronto" None
           (Some "/tmp/changed-files.txt") printed ["compute"; "network"]).
  vm_compute. reflexivity.
Defined.

(** ** Change detection: where the changed files come from *)

Lemma read_changed_files_with_git fs diff changed_files_path :
  read_changed_files (with_git_diff_paths fs diff) changed_files_path =
  read_changed_files fs changed_files_path.
Proof. done. Qed.

Lemma get_all_terraform_services_with_git fs diff working_dir :
  get_all_terraform_services (with_git_diff_paths fs diff) working_dir =
  get_all_terraform_services fs working_dir.
Proof. done. Qed.

Lemma add_direct_changes_with_git fs diff working_dir changed_files services :
  for_each (add_direct_change (with_git_diff_paths fs diff) working_dir) changed_files services =
  for_each (add_direct_change fs working_dir) changed_files services.
Proof. done. Qed.

Lemma get_services_using_modules_with_git fs diff working_dir modules :
  get_services_using_modules (with_git_diff_paths fs diff) working_dir modules =
  get_services_using_modules fs working_dir modules.
Proof. done. Qed.

(** With a list of changed files that holds at least one path, the
    repository is not consulted: whatever the diff would answer, and whether
    or not it would raise, the function prints and returns the same. *)
Theorem changed_files_list_overrides_the_diff
    (fs : file_system) (diff : string → outcome (list string))
    (working_dir : string) (base_ref changed_files_path : option string)
    (first : string) (rest : list string) :
  read_changed_files fs changed_files_path = Ok (first :: rest) →
  detect_changed_services (with_git_diff_paths fs diff) working_dir base_ref
    changed_files_path =
  detect_changed_services fs working_dir base_ref changed_files_path.
Proof.
  intros Hread.
  unfold detect_changed_services, detect_changed_services_body, load_changed_files.
  rewrite read_changed_files_with_git, Hread. rewrite !bind_Ok.
  rewrite add_direct_changes_with_git, get_all_terraform_services_with_git.
  destruct (for_each (add_direct_change fs working_dir) (first :: rest) ∅)
    as [direct|e|]; [|done..].
  assert (detect_module_changes (with_git_diff_paths fs diff) base_ref (first :: rest) =
          detect_module_changes fs base_ref (first :: rest)) as -> by done.
  by rewrite get_services_using_modules_with_git.
Qed.

Lemma changed_files_list_overrides_the_diff_witness :
  detect_changed_services
    (with_git_diff_paths (toronto true) (λ _, Returned ["toronto/identity/main.tf"]))
    "toronto" (Some "main") (Some "/tmp/changed-files.txt") =
  detect_changed_services (toronto true) "toronto" (Some "main")
    (Some "/tmp/changed-files.txt").
Proof.
  apply (changed_files_list_overrides_the_diff (toronto true) _ "toronto" (Some "main")
           (Some "/tmp/changed-files.txt") "modules/net-common/main.tf" []).
  vm_compute. reflexivity.
Defined.

(** Without a list of changed files (no path, no file at the path, or a file
    with nothing but blank lines) and without a base reference, the function
    prints the warning and selects what the scan of all services returns. *)
Theorem no_change_source_selects_every_service
    (fs : file_system) (working_dir : string) (base_ref changed_files_path : option string) :
  read_changed_files fs changed_files_path = Ok [] →
  truthy base_ref = false →
  let scan := get_all_terraform_services fs working_dir in
  detect_changed_services fs working_dir base_ref changed_files_path =
    (detection_warning
       (Exception "Either changed_files_path or base_ref must be provided") ++ scan.1,
     scan.2).
Proof.
  intros Hread Href scan. subst scan.
  apply (detect_changed_services_handler fs working_dir base_ref changed_files_path []).
  unfold detect_changed_services_body, load_changed_files.
  by rewrite Hread, bind_Ok, Href.
Qed.

Lemma no_change_source_selects_every_service_witness :
  detect_changed_services (toronto false) "toronto" None (Some "/tmp/changed-files.txt") =
  (detection_warning (Exception "Either changed_files_path or base_ref must be provided"),
   Ok ["compute"; "identity"; "network"]).
Proof.
  apply (no_change_source_selects_every_service (toronto false) "toronto" None
           (Some "/tmp/changed-files.txt") eq_refl eq_refl).
Defined.

(** ** The modules that changed: lines 153-191 *)

(** [detect_module_changes] reads the list of changed files when it holds a
    path, and the diff against the base reference otherwise; a module is in
    the set exactly when a path that starts with [modules/] has its name as
    second component, be that a directory or a file.  When the diff raises,
    or there is neither a path nor a base reference, the set is empty. *)
Theorem detect_module_changes_names_second_components
    (fs : file_system) (base_ref : option string) (changed_files : list string) :
  let named_in (file_paths : list string) (module : string) :=
    ∃ file_path, file_path ∈ file_paths ∧
      startswith "modules/" file_path = true ∧
      split_on "/" file_path !! 1%nat = Some module in
  (changed_files ≠ [] →
   ∀ module, module ∈ detect_module_changes fs base_ref changed_files ↔
             named_in changed_files module) ∧
  (changed_files = [] → truthy base_ref = true →
   ∀ file_paths,
     git_diff_paths fs (diff_reference (default "" base_ref)) = Returned file_paths →
     ∀ module, module ∈ detect_module_changes fs base_ref changed_files ↔
               named_in file_paths module) ∧
  (changed_files = [] →
   truthy base_ref = false ∨
   (∃ e, git_diff_paths fs (diff_reference (default "" base_ref)) = Raised e) →
   detect_module_changes fs base_ref changed_files = ∅).
Proof.
  intros named_in. subst named_in. cbn beta. split; [|split].
  - intros Hne module. by apply detect_module_changes_spec.
  - intros -> Href file_paths Hdiff module. unfold detect_module_changes.
    rewrite Href, Hdiff. simpl. rewrite add_modules_spec.
    split; [|by right]. by intros [[]%elem_of_empty|?].
  - intros -> [Href|[e Hdiff]]; unfold detect_module_changes.
    + by rewrite Href.
    + destruct (truthy base_ref); [|done]. by rewrite Hdiff.
Qed.

(** ** The entry point *)

(** *** A success is backed by its two calls *)

Lemma successful_service_calls
    (env : process_environment) (service_name service_dir action region : string)
    (retry : Z) (calls : list call) :
  let run :=
    execute_terraform_for_service env service_name service_dir action region retry calls in
  success run.1 = true →
  run.2 = calls ++ [init_call service_dir; action_call action service_dir].
Proof.
  unfold execute_terraform_for_service.
  destruct (subprocess_run env calls (init_call service_dir)) as [init_result|e].
  - case_bool_decide; [done|].
    destruct (subprocess_run env _ (action_call action service_dir)) as [tf_result|e];
      simpl; intros _; by rewrite <- app_assoc.
  - by destruct e.
Qed.

Lemma backed_mono working_dir action calls calls' r :
  (∀ c, c ∈ calls → c ∈ calls') →
  backed working_dir action calls r → backed working_dir action calls' r.
Proof. intros Hsub Hr Hsuccess. destruct (Hr Hsuccess). split; auto. Qed.

Section backed_results.
Variable env : process_environment.
Variable args : arguments.

Local Abbreviation backed_by := (backed (working_dir args) (action args)).

Lemma run_in_order_backed (services : list string) :
  ∀ (acc : list ExecutionResult) (calls : list call),
    ∃ results new,
      foldl
        (λ '(all_results, calls) service_name,
           let '(result, calls) :=
             execute_terraform_for_service env service_name
               (service_directory (working_dir args) service_name)
               (action args) (region args) 0 calls in
           (all_results ++ [result], calls))
        (acc, calls) services = (acc ++ results, calls ++ new) ∧
      Forall (backed_by new) results.
Proof.
  induction services as [|s services IH]; intros acc calls.
  - exists [], []. simpl. by rewrite !app_nil_r.
  - cbn [foldl].
    pose proof (execute_terraform_for_service_calls env s
                  (service_directory (working_dir args) s) (action args) (region args)
                  0 calls) as Hcalls.
    pose proof (successful_service_calls env s
                  (service_directory (working_dir args) s) (action args) (region args)
                  0 calls) as Hsuccess.
    destruct (execute_terraform_for_service env s _ (action args) (region args) 0 calls)
      as [result calls1].
    cbn [fst snd] in Hcalls, Hsuccess. destruct Hcalls as [Hservice Hcalls].
    assert (∃ new1, calls1 = calls ++ new1 ∧ backed_by new1 result) as (new1 & -> & Hnew1).
    { destruct Hcalls as [-> | ->]; eexists; (split; [done|]); intros Hs;
        apply Hsuccess in Hs; apply (inj (app calls)) in Hs; [done|].
      rewrite Hservice. split; [left|right; left]. }
    destruct (IH (acc ++ [result]) (calls ++ new1)) as (results & new & -> & Hnew).
    exists (result :: results), (new1 ++ new).
    rewrite <- !app_assoc. split; [done|]. constructor.
    + eapply backed_mono; [|exact Hnew1]. intros c Hc. rewrite elem_of_app. by left.
    + eapply Forall_impl; [exact Hnew|]. intros r Hr.
      eapply backed_mono; [|exact Hr]. intros c Hc. rewrite elem_of_app. by right.
Qed.

Lemma execute_level_backed level acc calls :
  dry_run args = false →
  ∃ results new,
    execute_level env args level (acc, calls) = (acc ++ results, calls ++ new) ∧
    Forall (backed_by new) results.
Proof.
  intros Hdry. unfold execute_level. rewrite Hdry.
  destruct (parallel args && bool_decide (1 < length level)%nat) eqn:Hpar.
  - unfold execute_services_in_parallel.
    destruct level as [|only [|second rest]].
    + destruct (run_in_order_backed (completion_order env []) [] calls)
        as (results & new & -> & Hnew). by exists results, new.
    + apply andb_true_iff in Hpar as [_ Hlen%bool_decide_eq_true]. simpl in Hlen. lia.
    + destruct (run_in_order_backed (completion_order env (only :: second :: rest)) [] calls)
        as (results & new & -> & Hnew). by exists results, new.
  - apply run_in_order_backed.
Qed.

Lemma execute_levels_backed levels :
  dry_run args = false →
  ∀ acc calls,
    ∃ results new,
      execute_levels env args levels (acc, calls) = (acc ++ results, calls ++ new) ∧
      Forall (backed_by new) results.
Proof.
  intros Hdry. induction levels as [|level rest IH]; intros acc calls.
  - exists [], []. simpl. by rewrite !app_nil_r.
  - cbn [execute_levels].
    destruct (execute_level_backed level acc calls Hdry) as (results1 & new1 & -> & Hnew1).
    destruct (negb (forallb success (last_items (length level) (acc ++ results1))) &&
              negb (dry_run args)).
    + by exists results1, new1.
    + destruct (IH (acc ++ results1) (calls ++ new1)) as (results & new & -> & Hnew).
      exists (results1 ++ results), (new1 ++ new). rewrite !app_assoc. split; [done|].
      apply Forall_app. split.
      * eapply Forall_impl; [exact Hnew1|]. intros r Hr.
        eapply backed_mono; [|exact Hr]. intros c Hc. rewrite elem_of_app. by left.
      * eapply Forall_impl; [exact Hnew|]. intros r Hr.
        eapply backed_mono; [|exact Hr]. intros c Hc. rewrite elem_of_app. by right.
Qed.
End backed_results.

(** *** What detection hands to the scheduler *)

Lemma collect_service_appends fs working_dir services name services' :
  collect_service fs working_dir services name = Ok services' →
  services' = services ∨ services' = services ++ [name].
Proof.
  unfold collect_service. intros (is_dir & _ & Hrun)%bind_Ok_inv.
  destruct (is_dir && negb (startswith "." name)); [|injection Hrun as <-; by left].
  apply bind_Ok_inv in Hrun as (tf_files & _ & [= <-]).
  destruct tf_files; [by left|by right].
Qed.

Lemma collect_services_NoDup fs working_dir names :
  ∀ services services',
    for_each (collect_service fs working_dir) names services = Ok services' →
    NoDup (services ++ names) → NoDup services'.
Proof.
  induction names as [|n names IH]; intros services services' Hrun Hnodup.
  - injection Hrun as <-. by rewrite app_nil_r in Hnodup.
  - cbn [for_each] in Hrun. apply bind_Ok_inv in Hrun as (services1 & Hstep & Hrun).
    apply (IH _ _ Hrun).
    destruct (collect_service_appends _ _ _ _ _ Hstep) as [-> | ->].
    + apply NoDup_app in Hnodup as (H1 & H2 & H3). apply NoDup_cons in H3 as [_ H3].
      apply NoDup_app. split; [done|]. split; [|done].
      intros x Hx Hx'. apply (H2 x Hx). by right.
    + by rewrite <- app_assoc.
Qed.

(** On a file system whose listing of the working directory has no repeated
    name, what [detect_changed_services] returns has no repeated name: it is
    a list of candidates as the statements about the scheduler take it. *)
Lemma detect_changed_services_NoDup
    (fs : file_system) (working_dir : string) (base_ref changed_files_path : option string)
    (printed services : list string) :
  (∀ names, path_iterdir fs working_dir = Returned names → NoDup names) →
  detect_changed_services fs working_dir base_ref changed_files_path =
    (printed, Ok services) →
  NoDup services.
Proof.
  intros Hlisting Hrun. unfold detect_changed_services in Hrun.
  destruct (detect_changed_services_body fs working_dir base_ref changed_files_path)
    as [printed0 [services0|e|]] eqn:Hbody.
  - injection Hrun as _ <-.
    by apply (detect_changed_services_body_NoDup _ _ _ _ _ _ Hbody).
  - unfold get_all_terraform_services in Hrun.
    destruct (path_exists fs working_dir) as [[|]|e']; simpl in Hrun.
    + injection Hrun as _ Hrun.
      apply bind_Ok_inv in Hrun as (names & Hiter%call_environment_Ok & Hrun).
      apply bind_Ok_inv in Hrun as (collected & Hcollect & [= <-]).
      unfold sorted. rewrite merge_sort_Permutation.
      apply (collect_services_NoDup _ _ _ _ _ Hcollect). simpl. by apply Hlisting.
    + injection Hrun as _ <-. constructor.
    + done.
  - done.
Qed.

(** *** [main] *)

Lemma exit_status_0_or_1 (all_results : list ExecutionResult) :
  exit_status all_results = 0 ∨ exit_status all_results = 1.
Proof. unfold exit_status. case_bool_decide; auto. Qed.

Lemma main_from_changes_returns env args changed_services calls :
  ∃ printed levels all_results calls' status,
    main_from_changes env args changed_services calls =
      Ok (printed, levels, all_results, calls', status) ∧
    (status = 0 ∨ status = 1) ∧
    (dry_run args = true → calls' = calls).
Proof.
  unfold main_from_changes. destruct changed_services as [|s rest] eqn:E.
  { exists [], [], [], calls, 0. split; [done|]. split; [by left|done]. }
  rewrite <- E. clear E s rest.
  destruct (topological_sort_total SERVICE_DEPENDENCIES changed_services)
    as (printed & levels & ->).
  rewrite bind_Ok. cbn beta iota.
  destruct (execute_levels env args levels ([], calls)) as [all_results calls'] eqn:Hrun.
  exists printed, levels, all_results, calls', (exit_status all_results).
  split; [done|]. split; [apply exit_status_0_or_1|].
  intros Hdry. rewrite (execute_levels_dry_run env args levels Hdry) in Hrun.
  by injection Hrun as _ <-.
Qed.

(** [main] makes no call unless the working directory exists, the run is not
    a dry run, and the OCI configuration file is found: a dry run and a run
    that fails its checks never start the provisioning tool. *)
Theorem main_calls_need_validation
    (h : host) (fs : file_system) (env : process_environment) (cl : command_line) :
  (main h fs env cl).1 ≠ [] →
  path_exists fs (working_dir (run_arguments cl)) = Returned true ∧
  dry_run (run_arguments cl) = false ∧
  oci_config_exists h = Returned true.
Proof.
  unfold main.
  destruct (path_exists fs (working_dir (run_arguments cl))) as [[|]|e]; [|done..].
  assert (∀ changed_services,
            dry_run (run_arguments cl) = true →
            (match main_from_changes env (run_arguments cl) changed_services [] with
             | Ok (_, _, _, calls, status) => (calls, Ok (Returns status))
             | Raise e => ([], Raise e)
             | NoFuel => ([], NoFuel)
             end).1 = []) as Hdry.
  { intros changed_services Hdry.
    destruct (main_from_changes_returns env (run_arguments cl) changed_services [])
      as (p & l & r & calls' & st & -> & _ & Hcalls).
    by rewrite (Hcalls Hdry). }
  destruct (dry_run (run_arguments cl)) eqn:Edry.
  - destruct (detect_changed_services fs _ _ _).2 as [changed_services|e|]; [|done..].
    intros Hcalls. destruct Hcalls. by apply Hdry.
  - unfold validate_oci_cli_config.
    destruct (oci_config_exists h) as [[|]|e]; simpl; done.
Qed.

Lemma main_calls_need_validation_witness :
  path_exists (toronto true) "toronto" = Returned true ∧
  dry_run (plan_arguments false false) = false ∧
  oci_config_exists configured_host = Returned true.
Proof.
  apply (main_calls_need_validation configured_host (toronto true)
           (completing 0 "No changes." "") (plan_command_line false false)).
  vm_compute. discriminate.
Defined.

(** *** Nothing in change detection runs on fuel *)












(** A run that is not a dry run and ends with exit status 0 has run the init
    step and the step of the action in the directory of every service that
    change detection returned.  The listing of the working directory is
    taken to hold no name twice. *)
Theorem exit_status_zero_means_every_changed_service_ran
    (h : host) (fs : file_system) (env : process_environment) (cl : command_line)
    (calls : list call) :
  let args := run_arguments cl in
  dry_run args = false →
  (∀ l, completion_order env l ≡ₚ l) →
  (∀ names, path_iterdir fs (working_dir args) = Returned names → NoDup names) →
  script h fs env cl = (calls, Ok 0) →
  ∃ printed changed_services,
    detect_changed_services fs (working_dir args) (base_ref cl) (Some (changed_files cl)) =
      (printed, Ok changed_services) ∧
    ∀ s, s ∈ changed_services →
      init_call (service_directory (working_dir args) s) ∈ calls ∧
      action_call (action args) (service_directory (working_dir args) s) ∈ calls.
Proof.
  intros args Hdry Hperm Hlisting. subst args. unfold script, main. rewrite Hdry.
  destruct (path_exists fs (working_dir (run_arguments cl))) as [[|]|e]; [|done..].
  unfold validate_oci_cli_config.
  destruct (oci_config_exists h) as [[|]|e]; [|done..]. cbn [snd].
  destruct (detect_changed_services fs (working_dir (run_arguments cl)) (base_ref cl)
              (Some (changed_files cl))) as [printed detected] eqn:Hdetect.
  cbn [snd]. destruct detected as [changed_services|e|]; [|done..].
  pose proof (detect_changed_services_NoDup _ _ _ _ _ _ Hlisting Hdetect) as Hnodup.
  unfold main_from_changes.
  destruct changed_services as [|s0 rest] eqn:E.
  { intros _. exists printed, []. split; [done|]. by intros s ?%elem_of_nil. }
  rewrite <- E in *. clear E s0 rest.
  destruct (plan_permutation SERVICE_DEPENDENCIES changed_services Hnodup)
    as (printed' & levels & -> & Hlevels).
  rewrite bind_Ok. cbn beta iota.
  pose proof (exit_zero_whole_plan env (run_arguments cl) levels [] Hdry Hperm) as Hwhole.
  destruct (execute_levels_backed env (run_arguments cl) levels Hdry [] [])
    as (results & new & Hrun & Hbacked).
  rewrite Hrun in *. cbn [fst snd app] in *.
  intros [= <- Hexit].
  destruct (Hwhole Hexit) as [Hservices Hsuccess].
  exists printed, changed_services. split; [done|]. intros s Hs.
  rewrite <- Hlevels, <- Hservices in Hs.
  apply list_elem_of_fmap in Hs as (r & -> & Hr).
  apply (proj1 (Forall_forall _ _) Hbacked r Hr).
  by apply (proj1 (Forall_forall _ _) Hsuccess r Hr).
Qed.

Lemma exit_status_zero_means_every_changed_service_ran_witness :
  ∃ printed changed_services,
    detect_changed_services (toronto true) "toronto" None (Some "/tmp/changed-files.txt") =
      (printed, Ok changed_services) ∧
    ∀ s, s ∈ changed_services →
      init_call (service_directory "toronto" s) ∈
        (script configured_host (toronto true) (completing 0 "No changes." "")
           (plan_command_line false false)).1 ∧
      action_call "plan" (service_directory "toronto" s) ∈
        (script configured_host (toronto true) (completing 0 "No changes." "")
           (plan_command_line false false)).1.
Proof.
  apply (exit_status_zero_means_every_changed_service_ran configured_host (toronto true)
           (completing 0 "No changes." "") (plan_command_line false false)).
  - reflexivity.
  - intros l. apply reverse_Permutation.
  - intros names [= <-]. apply (bool_decide_unpack _). vm_compute. exact I.
  - vm_compute. reflexivity.
Defined.
